(** * Sciama Slurm Connect: report parsing, launch command and overlay

    A shallow embedding of the extension's cluster-report parser
    ([parseNumericField], [parseGresInfo], [parsePartitionInfoOutput]),
    of the cluster-info fetch loop ([fetchClusterInfo]), of the launch
    command builder ([buildSallocArgs], [buildRemoteCommand]) and of the
    host-entry writer ([buildHostEntry], [writeTemporarySshConfig],
    [connectCommand]), followed by the properties established for them.

    Conventions of the embedding:
    - a JavaScript string is a [string]; the code units of the reports are
      8-bit characters, so [\s] and [trim] see the characters 9-13, 32
      and 160;
    - the numbers read from a report are naturals ([N]) and the sizing
      settings are integers ([Z]), both exact: the figures of a report
      and of the settings are far below 2^53;
    - an object used as a dictionary is the [gmap] of its own properties
      together with what it inherits: reading a key it does not own finds
      the members of [Object.prototype], and writing [__proto__] does not
      create a property; a [Set<string>] is a [gset string], and a [Map],
      whose insertion order is observable, is an association list;
    - a rejected promise or thrown error is the [inl] branch of a sum, and
      the platform (clock, paths, [ssh], file system, collation) is an
      explicit [Env]; the lines written to the output channel are left
      out. *)

From Stdlib Require Import ZArith NArith Ascii Bool Lia.
From Stdlib Require Import Sorting.Sorted Sorting.Permutation.
From stdpp Require Import base option list gmap strings pretty.

#[local] Set Warnings "-clear-no-such-hyp".

(** ** JavaScript string primitives used by the source *)

Module Js.

(** [\d] *)
Definition isDigit (a : ascii) : bool :=
  let n := N_of_ascii a in ((48 <=? n) && (n <=? 57))%N.

(** [\s], and the characters removed by [String.prototype.trim] *)
Definition isSpace (a : ascii) : bool :=
  let n := N_of_ascii a in
  (((9 <=? n) && (n <=? 13)) || (n =? 32) || (n =? 160))%N.

(** the characters [.] does not match *)
Definition isLineTerminator (a : ascii) : bool :=
  let n := N_of_ascii a in ((n =? 10) || (n =? 13))%N.

Fixpoint trimStart (s : string) : string :=
  match s with
  | EmptyString => EmptyString
  | String a s' => if isSpace a then trimStart s' else s
  end.

Fixpoint trimEnd (s : string) : string :=
  match s with
  | EmptyString => EmptyString
  | String a s' =>
      match trimEnd s' with
      | EmptyString => if isSpace a then EmptyString else String a EmptyString
      | t => String a t
      end
  end.

Definition trim (s : string) : string := trimEnd (trimStart s).

(** [Boolean(s)] on a string *)
Definition truthy (s : string) : bool :=
  match s with EmptyString => false | _ => true end.

Fixpoint startsWith (p s : string) : bool :=
  match p, s with
  | EmptyString, _ => true
  | String a p', String b s' => Ascii.eqb a b && startsWith p' s'
  | String _ _, EmptyString => false
  end.

(** [hay.includes(needle)] *)
Fixpoint includes (needle hay : string) : bool :=
  startsWith needle hay ||
  match hay with
  | EmptyString => false
  | String _ hay' => includes needle hay'
  end.

(** [s.split(c)] for a one-character separator *)
Fixpoint split (c : ascii) (s : string) : list string :=
  match s with
  | EmptyString => [EmptyString]
  | String a s' =>
      if Ascii.eqb a c then EmptyString :: split c s'
      else match split c s' with
           | [] => [String a EmptyString]
           | h :: t => String a h :: t
           end
  end.

(** [s.split(/\r?\n/)] *)
Fixpoint splitLines (s : string) : list string :=
  match s with
  | EmptyString => [EmptyString]
  | String a s' =>
      if (N_of_ascii a =? 10)%N then EmptyString :: splitLines s'
      else
        match s' with
        | String b s'' =>
            if ((N_of_ascii a =? 13) && (N_of_ascii b =? 10))%N
            then
              (* the match takes both characters; [splitLines s'] starts
                 with the empty piece cut at [b] *)
              splitLines s'
            else match splitLines s' with
                 | [] => [String a EmptyString]
                 | h :: t => String a h :: t
                 end
        | EmptyString => [String a EmptyString]
        end
  end.

(** [l.join(sep)] *)
Fixpoint join (sep : string) (l : list string) : string :=
  match l with
  | [] => EmptyString
  | [x] => x
  | x :: rest => x +:+ sep +:+ join sep rest
  end.

(** [/^\d+$/.test(s)] *)
Fixpoint allDigitsFrom (s : string) : bool :=
  match s with
  | EmptyString => true
  | String a s' => isDigit a && allDigitsFrom s'
  end.

Definition allDigits (s : string) : bool := truthy s && allDigitsFrom s.

Definition digitValue (a : ascii) : N := (N_of_ascii a - 48)%N.

(** the longest prefix of digits, read in base ten, and what follows *)
Fixpoint readDigits (acc : N) (s : string) : N :=
  match s with
  | EmptyString => acc
  | String a s' =>
      if isDigit a then readDigits (10 * acc + digitValue a)%N s' else acc
  end.

(** [Number(s)] for a string of decimal digits *)
Definition numberOfDigits (s : string) : N := readDigits 0 s.

(** [s.match(/\d+/)]: the first maximal run of digits, if any *)
Fixpoint matchDigits (s : string) : option N :=
  match s with
  | EmptyString => None
  | String a s' => if isDigit a then Some (readDigits 0 s) else matchDigits s'
  end.

(** [s.replace(/\(.*?\)/g, '')]: every [(] that is closed by a [)] later
    on the same line is removed together with everything up to the
    nearest such [)]. *)
Fixpoint closesOnLine (s : string) : bool :=
  match s with
  | EmptyString => false
  | String a s' =>
      if Ascii.eqb a ")" then true
      else if isLineTerminator a then false
      else closesOnLine s'
  end.

Fixpoint stripParensFrom (inside : bool) (s : string) : string :=
  match s with
  | EmptyString => EmptyString
  | String a s' =>
      if inside then
        (if Ascii.eqb a ")" then stripParensFrom false s'
         else stripParensFrom true s')
      else if Ascii.eqb a "(" && closesOnLine s' then stripParensFrom true s'
      else String a (stripParensFrom false s')
  end.

Definition stripParens (s : string) : string := stripParensFrom false s.

(** [s.replace(/\*/g, '')] *)
Fixpoint removeStars (s : string) : string :=
  match s with
  | EmptyString => EmptyString
  | String a s' =>
      if Ascii.eqb a "*" then removeStars s' else String a (removeStars s')
  end.

(** [arr[i] || ''] *)
Definition at_or_empty (l : list string) (i : nat) : string :=
  default EmptyString (l !! i).

End Js.

(** ** Objects used as dictionaries *)

(** A number stored in a dictionary of GPU counts: a count, or [NaN]. *)
Inductive JsNumber :=
| Count (n : N)
| NaN.

(** What reading a member of such a dictionary gives. *)
Inductive JsValue :=
| VNumber (x : JsNumber)
| VObject            (* an inherited function, or [Object.prototype] itself *)
| VUndefined.

(** The members of [Object.prototype] that are functions. *)
Definition objectPrototypeFunctions : list string :=
  ["constructor"; "__defineGetter__"; "__defineSetter__"; "hasOwnProperty";
   "__lookupGetter__"; "__lookupSetter__"; "isPrototypeOf";
   "propertyIsEnumerable"; "toString"; "valueOf"; "toLocaleString"].

(** The keys an object made by [{}] answers to without owning them: the
    functions of [Object.prototype] and the accessor [__proto__]. *)
Definition inheritedName (key : string) : bool :=
  String.eqb key "__proto__" || existsb (String.eqb key) objectPrototypeFunctions.

(** [obj[key]]: an own property first, then the prototype. *)
Definition getMember (obj : gmap string JsNumber) (key : string) : JsValue :=
  match obj !! key with
  | Some x => VNumber x
  | None => if inheritedName key then VObject else VUndefined
  end.

(** [obj[key] = x] for a number [x]: the setter of [__proto__] ignores a
    value that is not an object, every other key becomes (or stays) an own
    property. *)
Definition setMember (obj : gmap string JsNumber) (key : string) (x : JsNumber)
  : gmap string JsNumber :=
  match obj !! key with
  | Some _ => <[key := x]> obj
  | None => if String.eqb key "__proto__" then obj else <[key := x]> obj
  end.

(** [v || 0]: 0, [NaN] and [undefined] are falsy, an object is not. *)
Definition orZero (v : JsValue) : JsValue :=
  match v with
  | VNumber (Count n) => VNumber (Count n)     (* [0 || 0] is 0 *)
  | VNumber NaN => VNumber (Count 0)
  | VObject => VObject
  | VUndefined => VNumber (Count 0)
  end.

(** [ToNumber], as [Math.max] applies it to its arguments: a function and
    [Object.prototype] convert to [NaN]. *)
Definition toNumber (v : JsValue) : JsNumber :=
  match v with
  | VNumber x => x
  | VObject => NaN
  | VUndefined => NaN
  end.

(** [Math.max(a, b)] *)
Definition mathMax (a b : JsNumber) : JsNumber :=
  match a, b with
  | Count x, Count y => Count (N.max x y)
  | _, _ => NaN
  end.

(** ** The resource model *)

Record GresInfo := mkGresInfo {
  gres_gpuMax : N;
  gres_gpuTypes : gmap string JsNumber
}.

Record PartitionInfo := mkPartitionInfo {
  name : string;
  nodes : N;
  cpus : N;
  memMb : N;
  gpuMax : N;
  gpuTypes : gmap string JsNumber;
  isDefault : bool
}.

Record ClusterInfo := mkClusterInfo {
  partitions : list PartitionInfo;
  defaultPartition : option string
}.

(** ** [parseNumericField] *)

Definition parseNumericField (value : string) : N :=
  match Js.matchDigits value with
  | None => 0%N
  | Some n => n
  end.

(** ** [parseGresInfo] *)

(** [cleaned.split(':').map(trim).filter(Boolean)] of a token *)
Definition gresParts (token : string) : list string :=
  filter (λ p, Is_true (Js.truthy p))
         (Js.trim <$> Js.split ":" (Js.stripParens token)).

(** The type label and the count the loop body settles on for a list of
    parts whose head is [gpu]. *)
Definition gresTypeCount (parts : list string) : string * N :=
  match parts with
  | [_; p1] =>
      if Js.allDigits p1 then (EmptyString, Js.numberOfDigits p1)
      else (p1, 0%N)
  | _ :: p1 :: p2 :: _ =>
      (p1, if Js.allDigits p2 then Js.numberOfDigits p2 else 0%N)
  | _ => (EmptyString, 0%N)
  end.

(** One iteration of the loop over the tokens: [None] is [continue],
    [Some (key, count)] reaches the two updates of [result]. *)
Definition parseGresToken (token : string) : option (string * N) :=
  if negb (Js.includes "gpu" token) then None
  else
    let parts := gresParts token in
    match parts with
    | [] => None
    | p0 :: _ =>
        if negb (String.eqb p0 "gpu") then None
        else
          let '(type, count) := gresTypeCount parts in
          if (count <=? 0)%N then None else Some (type, count)
    end.

Definition gresUpdate (result : GresInfo) (token : string) : GresInfo :=
  match parseGresToken token with
  | None => result
  | Some (key, count) =>
      let existing := orZero (getMember (gres_gpuTypes result) key) in
      {| gres_gpuMax := N.max (gres_gpuMax result) count;
         gres_gpuTypes :=
           setMember (gres_gpuTypes result) key
                     (mathMax (toNumber existing) (Count count)) |}
  end.

Definition gresTokens (raw : string) : list string :=
  filter (λ t, Is_true (Js.truthy t)) (Js.trim <$> Js.split "," raw).

Definition parseGresInfo (raw : string) : GresInfo :=
  let result := {| gres_gpuMax := 0%N; gres_gpuTypes := ∅ |} in
  if negb (Js.truthy raw) then result
  else foldl gresUpdate result (gresTokens raw).

(** ** [parsePartitionInfoOutput] *)

(** What one report line contributes, once its fields are decoded (the
    part of the loop body before the loop over the partition names). *)
Record Row := mkRow {
  row_rawName : string;
  row_nodeName : option string;
  row_nodesCount : N;
  row_cpus : N;
  row_memMb : N;
  row_gres : GresInfo
}.

Definition parseLine (line : string) : option Row :=
  let fields := Js.trim <$> Js.split "|" line in
  if (length fields <? 3)%nat then None
  else
    let rawName := Js.at_or_empty fields 0 in
    let field1 := Js.at_or_empty fields 1 in
    let field2 := Js.at_or_empty fields 2 in
    let field3 := Js.at_or_empty fields 3 in
    let field4 := Js.at_or_empty fields 4 in
    if negb (Js.truthy rawName) then None
    else
      let isField1Numeric :=
        match field1 with String a _ => Js.isDigit a | EmptyString => false end in
      let nodeName :=
        if negb isField1Numeric && Js.truthy field1 then Some field1 else None in
      let nodesCount := if isField1Numeric then parseNumericField field1 else 0%N in
      let cpus :=
        parseNumericField
          (if Js.includes "/" field2
           then default EmptyString (last (Js.split "/" field2))
           else field2) in
      let memMb := parseNumericField field3 in
      let gresInfo := parseGresInfo field4 in
      Some {| row_rawName := rawName; row_nodeName := nodeName;
              row_nodesCount := nodesCount; row_cpus := cpus;
              row_memMb := memMb; row_gres := gresInfo |}.

(** [rawName.split(',').map(trim).filter(Boolean)] *)
Definition partitionNames (rawName : string) : list string :=
  filter (λ p, Is_true (Js.truthy p)) (Js.trim <$> Js.split "," rawName).

(** The [Map<string, PartitionInfo>] of the parser: keys in insertion
    order, [set] on a present key keeps its place. *)
Fixpoint mapGet {V} (m : list (string * V)) (k : string) : option V :=
  match m with
  | [] => None
  | (k', v) :: m' => if String.eqb k' k then Some v else mapGet m' k
  end.

Fixpoint mapSet {V} (m : list (string * V)) (k : string) (v : V)
  : list (string * V) :=
  match m with
  | [] => [(k, v)]
  | (k', v') :: m' =>
      if String.eqb k' k then (k, v) :: m' else (k', v') :: mapSet m' k v
  end.

Record ParseState := mkParseState {
  st_partitions : list (string * PartitionInfo);
  st_nodeSets : gmap string (gset string);
  st_default : option string
}.

Definition initialState : ParseState :=
  {| st_partitions := []; st_nodeSets := ∅; st_default := None |}.

(** [for (const [type, count] of Object.entries(gresInfo.gpuTypes))]: the
    entries are the own properties, each key once, and an iteration
    touches its own key only. *)
Definition mergeGpuTypes (existing incoming : gmap string JsNumber)
  : gmap string JsNumber :=
  map_fold (λ type count acc,
              let current := orZero (getMember acc type) in
              setMember acc type (mathMax (toNumber current) count))
           existing incoming.

(** [!defaultPartition] *)
Definition unsetDefault (d : option string) : bool :=
  match d with Some s => negb (Js.truthy s) | None => true end.

(** The body of the loop over the partition names of a line. *)
Definition applyName (row : Row) (st : ParseState) (partitionName : string)
  : ParseState :=
  let isDef := Js.includes "*" partitionName in
  let key := Js.removeStars partitionName in
  let defaultName :=
    if isDef && unsetDefault (st_default st) then Some key
    else st_default st in
  let existing :=
    default {| name := key; nodes := 0; cpus := 0; memMb := 0; gpuMax := 0;
               gpuTypes := ∅; isDefault := isDef |}
            (mapGet (st_partitions st) key) in
  let nodeSets :=
    match row_nodeName row with
    | Some nodeName =>
        <[key := {[nodeName]} ∪ default ∅ (st_nodeSets st !! key)]>
          (st_nodeSets st)
    | None => st_nodeSets st
    end in
  let nodeCount :=
    match row_nodeName row with
    | Some _ => nodes existing
    | None =>
        if (row_nodesCount row =? 0)%N then nodes existing
        else N.max (nodes existing) (row_nodesCount row)
    end in
  let updated :=
    {| name := name existing;
       nodes := nodeCount;
       cpus := N.max (cpus existing) (row_cpus row);
       memMb := N.max (memMb existing) (row_memMb row);
       gpuMax := N.max (gpuMax existing) (gres_gpuMax (row_gres row));
       gpuTypes := mergeGpuTypes (gpuTypes existing) (gres_gpuTypes (row_gres row));
       isDefault := isDefault existing || isDef |} in
  {| st_partitions := mapSet (st_partitions st) key updated;
     st_nodeSets := nodeSets;
     st_default := defaultName |}.

Definition applyRow (st : ParseState) (row : Row) : ParseState :=
  foldl (applyName row) st (partitionNames (row_rawName row)).

(** The body of the loop over the lines. *)
Definition processLine (st : ParseState) (line : string) : ParseState :=
  match parseLine line with
  | None => st
  | Some row => applyRow st row
  end.

(** The second loop: a non-empty set of node names fixes the node count. *)
Definition finalizeNodes (nodeSets : gmap string (gset string))
    (entry : string * PartitionInfo) : PartitionInfo :=
  let '(key, info) := entry in
  match nodeSets !! key with
  | Some set =>
      if (0 <? size set)%nat then
        {| name := name info; nodes := N.of_nat (size set);
           cpus := cpus info; memMb := memMb info; gpuMax := gpuMax info;
           gpuTypes := gpuTypes info; isDefault := isDefault info |}
      else info
  | None => info
  end.

(** [Array.prototype.sort] is stable; with a comparator it places [a]
    before [b] when [compare a b <= 0] and [a] came first.  Inserting the
    elements from the right, each in front of the first element it does
    not exceed, yields that arrangement. *)
Section Sort.
Context {A : Type} (compare : A → A → Z).

Fixpoint sortInsert (x : A) (l : list A) : list A :=
  match l with
  | [] => [x]
  | y :: l' => if (compare x y <=? 0)%Z then x :: l else y :: sortInsert x l'
  end.

Definition sortBy (l : list A) : list A := foldr sortInsert [] l.

(** [a] may stand before [b] *)
Definition before (a b : A) : Prop := (compare a b ≤ 0)%Z.
End Sort.

(** [output.split(/\r?\n/).map(trim).filter(Boolean)] *)
Definition reportLines (output : string) : list string :=
  filter (λ l, Is_true (Js.truthy l)) (Js.trim <$> Js.splitLines output).

(** The parser once the text is cut into lines. *)
Definition parseLines (localeCompare : string → string → Z)
    (lines : list string) : ClusterInfo :=
  let st := foldl processLine initialState lines in
  let list := finalizeNodes (st_nodeSets st) <$> st_partitions st in
  {| partitions := sortBy (λ a b, localeCompare (name a) (name b)) list;
     defaultPartition := st_default st |}.

Definition parsePartitionInfoOutput (localeCompare : string → string → Z)
    (output : string) : ClusterInfo :=
  parseLines localeCompare (reportLines output).

(** ** Configuration and environment *)

Module Cfg.
Record SciamaConfig := mk {
  loginHosts : list string;
  loginHostsCommand : string;
  loginHostsQueryHost : string;
  partitionCommand : string;
  partitionInfoCommand : string;
  qosCommand : string;
  accountCommand : string;
  user : string;
  identityFile : string;
  forwardAgent : bool;
  requestTTY : bool;
  moduleLoad : string;
  proxyCommand : string;
  proxyArgs : list string;
  extraSallocArgs : list string;
  promptForExtraSallocArgs : bool;
  defaultPartition : string;
  defaultNodes : Z;
  defaultTasksPerNode : Z;
  defaultCpusPerTask : Z;
  defaultTime : string;
  defaultMemoryMb : Z;
  defaultGpuType : string;
  defaultGpuCount : Z;
  sshHostPrefix : string;
  connectAfterCreate : bool;
  openInNewWindow : bool;
  remoteWorkspacePath : string;
  temporarySshConfigPath : string;
  restoreSshConfigAfterConnect : bool;
  additionalSshOptions : gmap string string;
  sshQueryConfigPath : string;
  sshConnectTimeoutSeconds : Z
}.
End Cfg.
Import Cfg (SciamaConfig).

(** The message of a thrown error, as [formatError] renders it. *)
Definition Error := string.

Inductive FsOp :=
| Mkdir (dir : string)                       (* fs.mkdir(dir, { recursive: true }) *)
| WriteFile (path : string) (content : string). (* fs.writeFile(path, content, 'utf8') *)

(** What the code obtains from the platform: [os], [path], the clock,
    the collation of [localeCompare], the promisified [execFile] (its
    standard output, or the rejection) and the failures of [fs]. *)
Record Env := mkEnv {
  homedir : string;
  tmpdir : string;
  extensionStoragePath : option string;
  pathJoin : string → string → string;
  pathDirname : string → string;
  nowIso : string;
  localeCompare : string → string → Z;
  execFile : string → list string → Z → Error + string;
  fsError : FsOp → option Error
}.

Definition dquote : string := String (ascii_of_nat 34) EmptyString.
Definition newline : string := String (ascii_of_nat 10) EmptyString.

(** [String(n)] of an integer *)
Definition showZ (n : Z) : string := pretty n.

Definition expandHome (env : Env) (input : string) : string :=
  if negb (Js.truthy input) then input
  else if Js.startsWith "~" input
       then pathJoin env (homedir env)
                     (String.substring 1 (String.length input - 1) input)
       else input.

(** ** [runSshCommand] and [fetchClusterInfo] *)

Definition runSshCommand (env : Env) (host : string) (cfg : SciamaConfig)
    (command : string) : Error + string :=
  let args0 :=
    if Js.truthy (Cfg.sshQueryConfigPath cfg)
    then ["-F"; expandHome env (Cfg.sshQueryConfigPath cfg)] else [] in
  let args1 :=
    args0 ++ ["-T"; "-o"; "BatchMode=yes"; "-o";
              "ConnectTimeout=" +:+ showZ (Cfg.sshConnectTimeoutSeconds cfg)] in
  let args2 :=
    if Js.truthy (Cfg.identityFile cfg)
    then args1 ++ ["-i"; expandHome env (Cfg.identityFile cfg)] else args1 in
  let target :=
    if Js.truthy (Cfg.user cfg) then Cfg.user cfg +:+ "@" +:+ host else host in
  let args := args2 ++ [target; command] in
  match execFile env "ssh" args (Cfg.sshConnectTimeoutSeconds cfg * 1000) with
  | inl e => inl e
  | inr stdout => inr (Js.trim stdout)
  end.

Definition hasMeaningfulClusterInfo (info : ClusterInfo) : bool :=
  match partitions info with
  | [] => false
  | _ =>
      existsb (λ partition,
                 (0 <? cpus partition)%N || (0 <? memMb partition)%N
                 || (0 <? gpuMax partition)%N)
              (partitions info)
  end.

Definition getMaxFieldCount (output : string) : nat :=
  let lines :=
    filter (λ line, Is_true (0 <? String.length (Js.trim line))%nat)
           (Js.splitLines output) in
  foldl (λ max line,
           let count := length (Js.split "|" line) in
           if (max <? count)%nat then count else max)
        0%nat lines.

(** How one iteration of the loop ends once the command has answered. *)
Inductive Verdict := Return | Continue.

Definition judge (output : string) (info : ClusterInfo) : Verdict :=
  let maxFields := getMaxFieldCount output in
  let outputHasGpu := Js.includes "gpu:" output in
  let hasGpu := existsb (λ partition, (0 <? gpuMax partition)%N) (partitions info) in
  if outputHasGpu && negb hasGpu then Continue
  else if (maxFields <? 5)%nat then Continue
  else if hasMeaningfulClusterInfo info then Return
  else Continue.

(** The loop of [fetchClusterInfo] over the candidate commands; the
    awaited [runSshCommand] is not guarded, so its rejection is the
    rejection of the fetch. *)
Fixpoint fetchLoop (env : Env) (loginHost : string) (cfg : SciamaConfig)
    (commands : list string) (lastInfo : ClusterInfo) : Error + ClusterInfo :=
  match commands with
  | [] => inr lastInfo
  | command :: rest =>
      match runSshCommand env loginHost cfg command with
      | inl e => inl e
      | inr output =>
          let info := parsePartitionInfoOutput (localeCompare env) output in
          match judge output info with
          | Return => inr info
          | Continue => fetchLoop env loginHost cfg rest info
          end
      end
  end.

Definition nodeReportCommand : string :=
  "sinfo -h -N -o " +:+ dquote +:+ "%P|%n|%c|%m|%G" +:+ dquote.
Definition partitionReportCommand : string :=
  "sinfo -h -o " +:+ dquote +:+ "%P|%D|%c|%m|%G" +:+ dquote.

Definition candidateCommands (cfg : SciamaConfig) : list string :=
  filter (λ c, Is_true (Js.truthy c))
         [Cfg.partitionInfoCommand cfg; nodeReportCommand; partitionReportCommand].

Definition emptyClusterInfo : ClusterInfo :=
  {| partitions := []; defaultPartition := None |}.

Definition fetchClusterInfo (env : Env) (loginHost : string) (cfg : SciamaConfig)
  : Error + ClusterInfo :=
  fetchLoop env loginHost cfg (candidateCommands cfg) emptyClusterInfo.

(** ** [buildSallocArgs] and [buildRemoteCommand] *)

(** The argument object of [buildSallocArgs]; an optional member that is
    left out is [None]. *)
Record SallocParams := mkSallocParams {
  sp_partition : option string;
  sp_nodes : Z;
  sp_tasksPerNode : Z;
  sp_cpusPerTask : Z;
  sp_time : string;
  sp_memoryMb : option Z;
  sp_gpuType : option string;
  sp_gpuCount : option Z;
  sp_qos : option string;
  sp_account : option string
}.

(** truthiness of an optional string and of an optional number *)
Definition truthyStr (o : option string) : bool :=
  match o with Some s => Js.truthy s | None => false end.
Definition truthyNum (o : option Z) : bool :=
  match o with Some n => negb (n =? 0)%Z | None => false end.

Definition buildSallocArgs (params : SallocParams) : list string :=
  let args := [] in
  let args :=
    if truthyStr (sp_partition params)
    then args ++ ["--partition=" +:+ default EmptyString (sp_partition params)]
    else args in
  let args := args ++ ["--nodes=" +:+ showZ (sp_nodes params)] in
  let args := args ++ ["--ntasks-per-node=" +:+ showZ (sp_tasksPerNode params)] in
  let args := args ++ ["--cpus-per-task=" +:+ showZ (sp_cpusPerTask params)] in
  let args := args ++ ["--time=" +:+ sp_time params] in
  let args :=
    if truthyStr (sp_qos params)
    then args ++ ["--qos=" +:+ default EmptyString (sp_qos params)] else args in
  let args :=
    if truthyStr (sp_account params)
    then args ++ ["--account=" +:+ default EmptyString (sp_account params)]
    else args in
  let args :=
    if truthyNum (sp_memoryMb params) && (0 <? default 0 (sp_memoryMb params))%Z
    then args ++ ["--mem=" +:+ showZ (default 0%Z (sp_memoryMb params))]
    else args in
  let args :=
    if truthyNum (sp_gpuCount params) && (0 <? default 0 (sp_gpuCount params))%Z
    then
      let type :=
        if truthyStr (sp_gpuType params)
        then Js.trim (default EmptyString (sp_gpuType params)) else EmptyString in
      let count := showZ (default 0%Z (sp_gpuCount params)) in
      let gres :=
        if Js.truthy type then "gpu:" +:+ type +:+ ":" +:+ count
        else "gpu:" +:+ count in
      args ++ ["--gres=" +:+ gres]
    else args in
  args.

Definition keepTruthy (l : list string) : list string :=
  filter (λ x, Is_true (Js.truthy x)) l.

Definition buildRemoteCommand (cfg : SciamaConfig) (sallocArgs : list string)
  : string :=
  let proxyParts := Cfg.proxyCommand cfg :: keepTruthy (Cfg.proxyArgs cfg) in
  let proxyCommand := Js.trim (Js.join " " (keepTruthy proxyParts)) in
  if negb (Js.truthy proxyCommand) then EmptyString
  else
    let sallocFlags := (λ arg, "--salloc-arg=" +:+ arg) <$> sallocArgs in
    let fullProxyCommand := Js.trim (Js.join " " (proxyCommand :: sallocFlags)) in
    if Js.truthy (Cfg.moduleLoad cfg)
    then Js.trim (Cfg.moduleLoad cfg +:+ " && " +:+ fullProxyCommand)
    else fullProxyCommand.

(** The two calls of [connectCommand] that turn a selection into the
    remote command: the flags of the selection, then the configured extra
    arguments, then the extra arguments of the session. *)
Definition composeRemoteCommand (cfg : SciamaConfig) (params : SallocParams)
    (extraArgs : list string) : string :=
  buildRemoteCommand cfg
    (buildSallocArgs params ++ Cfg.extraSallocArgs cfg ++ extraArgs).

(** ** [buildDefaultAlias], [buildHostEntry], [writeTemporarySshConfig] *)

(** [[a-zA-Z0-9_-]] *)
Definition isAliasChar (a : ascii) : bool :=
  let n := N_of_ascii a in
  (((97 <=? n) && (n <=? 122)) || ((65 <=? n) && (n <=? 90))
   || ((48 <=? n) && (n <=? 57)) || (n =? 95) || (n =? 45))%N.

Fixpoint sanitizeAlias (s : string) : string :=
  match s with
  | EmptyString => EmptyString
  | String a s' => String (if isAliasChar a then a else "-"%char) (sanitizeAlias s')
  end.

Definition buildDefaultAlias (prefix loginHost : string)
    (partition : option string) (nodeCount cpusPerTask : Z) : string :=
  let hostShort := Js.at_or_empty (Js.split "." loginHost) 0 in
  let pieces := [if Js.truthy prefix then prefix else "sciama"; hostShort] in
  let pieces :=
    if truthyStr partition then pieces ++ [default EmptyString partition]
    else pieces in
  let pieces := pieces ++ [showZ nodeCount +:+ "n"; showZ cpusPerTask +:+ "c"] in
  sanitizeAlias (Js.join "-" pieces).

(** the comparison behind [Array.prototype.sort()] without a comparator *)
Definition codeUnitCompare (a b : string) : Z :=
  match String.compare a b with Lt => (-1)%Z | Eq => 0%Z | Gt => 1%Z end.

Definition buildHostEntry (env : Env) (alias loginHost : string)
    (cfg : SciamaConfig) (remoteCommand : string) : string :=
  let lines := ["# Generated by Sciama Slurm Connect on " +:+ nowIso env] in
  let lines := lines ++ ["Host " +:+ alias] in
  let lines := lines ++ ["  HostName " +:+ loginHost] in
  let lines :=
    if Js.truthy (Cfg.user cfg) then lines ++ ["  User " +:+ Cfg.user cfg]
    else lines in
  let lines := if Cfg.requestTTY cfg then lines ++ ["  RequestTTY yes"] else lines in
  let lines := if Cfg.forwardAgent cfg then lines ++ ["  ForwardAgent yes"] else lines in
  let lines :=
    if Js.truthy (Cfg.identityFile cfg)
    then lines ++ ["  IdentityFile " +:+ Cfg.identityFile cfg] else lines in
  let lines := lines ++ ["  RemoteCommand " +:+ remoteCommand] in
  let extraKeys :=
    sortBy codeUnitCompare (fst <$> map_to_list (Cfg.additionalSshOptions cfg)) in
  let lines :=
    foldl (λ lines key,
             match Cfg.additionalSshOptions cfg !! key with
             | Some value =>
                 if (0 <? String.length value)%nat
                 then lines ++ ["  " +:+ key +:+ " " +:+ value] else lines
             | None => lines
             end)
          lines extraKeys in
  Js.join newline lines +:+ newline.

Definition overlayHeader : string :=
  "# Temporary SSH config generated by Sciama Slurm Connect" +:+ newline.

(** The file-system calls made, in order, and the path returned or the
    error thrown. *)
Definition writeTemporarySshConfig (env : Env) (alias entry : string)
    (cfg : SciamaConfig) : list FsOp * (Error + string) :=
  let basePath :=
    if Js.truthy (Cfg.temporarySshConfigPath cfg)
    then expandHome env (Cfg.temporarySshConfigPath cfg)
    else pathJoin env
           (match extensionStoragePath env with
            | Some p => if Js.truthy p then p else tmpdir env
            | None => tmpdir env
            end)
           "sciama-ssh-config" in
  let dir := pathDirname env basePath in
  match fsError env (Mkdir dir) with
  | Some e => ([Mkdir dir], inl e)
  | None =>
      let content := overlayHeader +:+ entry in
      match fsError env (WriteFile basePath content) with
      | Some e => ([Mkdir dir; WriteFile basePath content], inl e)
      | None => ([Mkdir dir; WriteFile basePath content], inr basePath)
      end
  end.

(** ** [connectCommand], non-interactive *)

(** [/^(\d+-)?\d{1,2}:\d{2}:\d{2}$/] of [promptTime] *)
Definition matchClock (s : string) : bool :=
  let afterHours :=
    match s with
    | String h (String c rest) =>
        if Js.isDigit h && Ascii.eqb c ":" then Some rest
        else match s with
             | String h1 (String h2 (String c2 rest2)) =>
                 if Js.isDigit h1 && Js.isDigit h2 && Ascii.eqb c2 ":"
                 then Some rest2 else None
             | _ => None
             end
    | _ => None
    end in
  match afterHours with
  | Some (String m1 (String m2 (String c (String s1 (String s2 EmptyString))))) =>
      Js.isDigit m1 && Js.isDigit m2 && Ascii.eqb c ":"
      && Js.isDigit s1 && Js.isDigit s2
  | _ => false
  end.

Fixpoint matchDaysThenClock (seenDigit : bool) (s : string) : bool :=
  match s with
  | EmptyString => false
  | String a s' =>
      if Js.isDigit a then matchDaysThenClock true s'
      else if Ascii.eqb a "-" then seenDigit && matchClock s'
      else false
  end.

Definition timePattern (s : string) : bool :=
  matchClock s || matchDaysThenClock false s.

(** What the user and the platform observe of a run. *)
Inductive Step :=
| ShowErrorMessage (message : string)
| BuiltRemoteCommand (remoteCommand : string)
| Fs (op : FsOp).

(** [connectCommand(overrides, { interactive: false })] from the chosen
    login host (the first of the resolved hosts) to the written overlay:
    the steps taken and, when the overlay was written, its path.  An
    empty host ends the run at once, without a message.  What follows in
    the source (the Remote-SSH setting, the connection, the restore) acts
    on that path. *)
Definition connectCommand (env : Env) (cfg : SciamaConfig) (loginHost : string)
  : list Step * option string :=
  let partition :=
    if Js.truthy (Cfg.defaultPartition cfg) then Some (Cfg.defaultPartition cfg)
    else None in
  let nodeCount := Cfg.defaultNodes cfg in
  let tasksPerNode := Cfg.defaultTasksPerNode cfg in
  let cpusPerTask := Cfg.defaultCpusPerTask cfg in
  let time := Cfg.defaultTime cfg in
  if negb (Js.truthy loginHost) then ([], None)
  else if (nodeCount =? 0)%Z || (nodeCount <? 1)%Z then
    ([ShowErrorMessage
        "Default nodes is not set. Fill it in the side panel or settings."], None)
  else if (tasksPerNode =? 0)%Z || (tasksPerNode <? 1)%Z then
    ([ShowErrorMessage
        "Default tasks per node is not set. Fill it in the side panel or settings."],
     None)
  else if (cpusPerTask =? 0)%Z || (cpusPerTask <? 1)%Z then
    ([ShowErrorMessage
        "Default CPUs per task is not set. Fill it in the side panel or settings."],
     None)
  else if negb (Js.truthy time) then
    ([ShowErrorMessage
        "Default wall time is not set. Fill it in the side panel or settings."],
     None)
  else
    let extraArgs := [] in
    let remoteCommand :=
      composeRemoteCommand cfg
        {| sp_partition := partition; sp_nodes := nodeCount;
           sp_tasksPerNode := tasksPerNode; sp_cpusPerTask := cpusPerTask;
           sp_time := time; sp_memoryMb := Some (Cfg.defaultMemoryMb cfg);
           sp_gpuType := Some (Cfg.defaultGpuType cfg);
           sp_gpuCount := Some (Cfg.defaultGpuCount cfg);
           sp_qos := None; sp_account := None |}
        extraArgs in
    if negb (Js.truthy remoteCommand) then
      ([ShowErrorMessage "RemoteCommand is empty. Check sciamaSlurm.proxyCommand."],
       None)
    else
      let defaultAlias :=
        buildDefaultAlias
          (if Js.truthy (Cfg.sshHostPrefix cfg) then Cfg.sshHostPrefix cfg
           else "sciama")
          loginHost partition nodeCount cpusPerTask in
      let alias := defaultAlias in
      let hostEntry := buildHostEntry env (Js.trim alias) loginHost cfg remoteCommand in
      match writeTemporarySshConfig env (Js.trim alias) hostEntry cfg with
      | (ops, inl e) =>
          (BuiltRemoteCommand remoteCommand :: (Fs <$> ops)
             ++ [ShowErrorMessage ("Failed to write temporary SSH config: " +:+ e)],
           None)
      | (ops, inr tempConfigPath) =>
          (BuiltRemoteCommand remoteCommand :: (Fs <$> ops), Some tempConfigPath)
      end.

(** The largest value stored in a type-to-count dictionary, 0 when it is
    empty ([Math.max(0, ...Object.values(m))]). *)
Definition maxValue (m : gmap string JsNumber) : JsNumber :=
  map_fold (λ _ v acc, mathMax v acc) (Count 0) m.

(** ** Quantities used in the statements *)

(** What every result of [parseGresInfo] satisfies: an entry is a
    positive count, at most [gpuMax], or it is [NaN] and stands under an
    inherited name. *)
Definition gresBounded (r : GresInfo) : Prop :=
  ∀ k v, gres_gpuTypes r !! k = Some v →
    (v = NaN ∧ inheritedName k = true)
    ∨ ∃ n, v = Count n ∧ (0 < n ≤ gres_gpuMax r)%N.

(** The relation between [gpuMax] and [gpuTypes] in a result that has no
    entry under an inherited name: every entry is a positive count, at
    most [gpuMax], and [gpuMax] is stored unless nothing is. *)
Definition gresInvariant (r : GresInfo) : Prop :=
  (∀ k v, gres_gpuTypes r !! k = Some v →
     inheritedName k = false ∧ ∃ n, v = Count n ∧ (0 < n ≤ gres_gpuMax r)%N)
  ∧ ((gres_gpuTypes r = ∅ ∧ gres_gpuMax r = 0%N)
     ∨ ∃ k, gres_gpuTypes r !! k = Some (Count (gres_gpuMax r))).

(** the type labels of the tokens of a descriptor that reach the updates *)
Definition gresLabels (raw : string) : list string :=
  fst <$> omap parseGresToken (gresTokens raw).

(** the fifth field of a report line, the GRES descriptor *)
Definition gresField (line : string) : string :=
  Js.at_or_empty (Js.trim <$> Js.split "|" line) 4.

(** No GPU type label of the report is the name of a member of
    [Object.prototype]. *)
Definition plainLabels (output : string) : bool :=
  forallb (λ line,
             forallb (λ label, negb (inheritedName label))
                     (gresLabels (gresField line)))
          (reportLines output).

Fixpoint allChars (p : ascii → bool) (s : string) : bool :=
  match s with
  | EmptyString => true
  | String a s' => p a && allChars p s'
  end.

(** a character of a plain label: no colon, no parenthesis, no space *)
Definition plainChar (a : ascii) : bool :=
  negb (Ascii.eqb a ":") && negb (Ascii.eqb a "(") && negb (Js.isSpace a).

(** a character of the body of a parenthetical annotation *)
Definition bodyChar (a : ascii) : bool :=
  negb (Ascii.eqb a ")") && negb (Js.isLineTerminator a).

(** The settings [getConfig] returns when nothing is configured, with
    the members the samples vary left open. *)
Definition sampleConfig (partitionInfoCommand user identityFile : string)
    (requestTTY forwardAgent : bool) (moduleLoad proxyCommand : string)
    (defaultTime : string) (temporarySshConfigPath : string)
    (additionalSshOptions : gmap string string) : SciamaConfig :=
  {| Cfg.loginHosts := [];
     Cfg.loginHostsCommand := EmptyString;
     Cfg.loginHostsQueryHost := EmptyString;
     Cfg.partitionCommand := EmptyString;
     Cfg.partitionInfoCommand := partitionInfoCommand;
     Cfg.qosCommand := EmptyString;
     Cfg.accountCommand := EmptyString;
     Cfg.user := user;
     Cfg.identityFile := identityFile;
     Cfg.forwardAgent := forwardAgent;
     Cfg.requestTTY := requestTTY;
     Cfg.moduleLoad := moduleLoad;
     Cfg.proxyCommand := proxyCommand;
     Cfg.proxyArgs := [];
     Cfg.extraSallocArgs := [];
     Cfg.promptForExtraSallocArgs := false;
     Cfg.defaultPartition := EmptyString;
     Cfg.defaultNodes := 1;
     Cfg.defaultTasksPerNode := 1;
     Cfg.defaultCpusPerTask := 1;
     Cfg.defaultTime := defaultTime;
     Cfg.defaultMemoryMb := 0;
     Cfg.defaultGpuType := EmptyString;
     Cfg.defaultGpuCount := 0;
     Cfg.sshHostPrefix := EmptyString;
     Cfg.connectAfterCreate := true;
     Cfg.openInNewWindow := false;
     Cfg.remoteWorkspacePath := EmptyString;
     Cfg.temporarySshConfigPath := temporarySshConfigPath;
     Cfg.restoreSshConfigAfterConnect := true;
     Cfg.additionalSshOptions := additionalSshOptions;
     Cfg.sshQueryConfigPath := EmptyString;
     Cfg.sshConnectTimeoutSeconds := 15 |}.

(** A platform on which [ssh] answers as [remote] tells (the last
    argument is the command) and the file system accepts every call. *)
Definition sampleEnv (remote : string → Error + string) : Env :=
  {| homedir := "/home/user";
     tmpdir := "/tmp";
     extensionStoragePath := None;
     pathJoin := λ a b, a +:+ "/" +:+ b;
     pathDirname := λ _, "/tmp";
     nowIso := "2024-01-01T00:00:00.000Z";
     localeCompare := codeUnitCompare;
     execFile := λ _ args _, remote (default EmptyString (last args));
     fsError := λ _, None |}.

(** The configuration of the repository's host-entry test. *)
Definition quotingTestConfig : SciamaConfig :=
  sampleConfig EmptyString EmptyString "/Users/Test User/.ssh/id_rsa"
               false false EmptyString EmptyString EmptyString EmptyString
               {[ "LocalCommand" := "echo hello world" ]}.

(** The candidate answered and the loop went on to the next one. *)
Definition passedOver (env : Env) (loginHost : string) (cfg : SciamaConfig)
    (command : string) : Prop :=
  ∃ output,
    runSshCommand env loginHost cfg command = inr output
    ∧ judge output (parsePartitionInfoOutput (localeCompare env) output) = Continue.

(** The result left in [lastInfo] when every candidate is passed over. *)
Definition lastParsed (env : Env) (loginHost : string) (cfg : SciamaConfig)
    (commands : list string) (lastInfo : ClusterInfo) : ClusterInfo :=
  match last commands with
  | None => lastInfo
  | Some command =>
      match runSshCommand env loginHost cfg command with
      | inr output => parsePartitionInfoOutput (localeCompare env) output
      | inl _ => lastInfo
      end
  end.

(** A login host on which the per-node report prints nothing and the
    per-partition report cannot be run. *)
Definition silentThenFailing (command : string) : Error + string :=
  if String.eqb command nodeReportCommand then inr EmptyString
  else inl "ssh: connect to host login port 22: Connection timed out".

Definition plainConfig : SciamaConfig :=
  sampleConfig EmptyString EmptyString EmptyString true true EmptyString
               "python vscode-shell-proxy.py" "01:00:00" EmptyString ∅.

Definition nodesMessage : string :=
  "Default nodes is not set. Fill it in the side panel or settings.".
Definition tasksMessage : string :=
  "Default tasks per node is not set. Fill it in the side panel or settings.".
Definition cpusMessage : string :=
  "Default CPUs per task is not set. Fill it in the side panel or settings.".
Definition timeMessage : string :=
  "Default wall time is not set. Fill it in the side panel or settings.".

(** The four values are positive integers and a wall time of the form
    HH:MM:SS or D-HH:MM:SS. *)
Definition validSizing (cfg : SciamaConfig) : bool :=
  (1 <=? Cfg.defaultNodes cfg)%Z && (1 <=? Cfg.defaultTasksPerNode cfg)%Z
  && (1 <=? Cfg.defaultCpusPerTask cfg)%Z && timePattern (Cfg.defaultTime cfg).

(** What the guards of the non-interactive branch test: the three
    numbers are at least 1 and the wall time is not empty. *)
Definition sizingIsSet (cfg : SciamaConfig) : bool :=
  (1 <=? Cfg.defaultNodes cfg)%Z && (1 <=? Cfg.defaultTasksPerNode cfg)%Z
  && (1 <=? Cfg.defaultCpusPerTask cfg)%Z && Js.truthy (Cfg.defaultTime cfg).

Definition isErrorMessage (step : Step) : bool :=
  match step with ShowErrorMessage _ => true | _ => false end.

Definition malformedTimeConfig : SciamaConfig :=
  sampleConfig EmptyString EmptyString EmptyString false false EmptyString
               "python vscode-shell-proxy.py" "abc" EmptyString ∅.

(** how many of the names are [n], stars removed *)
Definition countNamed (n : string) (pns : list string) : nat :=
  foldr (λ pn k, if String.eqb (Js.removeStars pn) n then S k else k) 0%nat pns.

(** The row names the partition [n], and names it with a star. *)
Definition contributesTo (row : Row) (n : string) : bool :=
  existsb (λ pn, String.eqb (Js.removeStars pn) n)
          (partitionNames (row_rawName row)).

Definition starredIn (row : Row) (n : string) : bool :=
  existsb (λ pn, String.eqb (Js.removeStars pn) n && Js.includes "*" pn)
          (partitionNames (row_rawName row)).

(** the distinct node identifiers of some rows *)
Definition nodeNamesOf (rows : list Row) : gset string :=
  list_to_set (omap row_nodeName rows).

(** The record a row leaves under the name [n] when it names [n] once
    and [further] times more, given the record found there before: the
    loop body runs once for each of these names. *)
Definition mergedTimes (row : Row) (starred : bool) (n : string)
    (further : nat) (found : option PartitionInfo) : PartitionInfo :=
  let existing :=
    default {| name := n; nodes := 0; cpus := 0; memMb := 0; gpuMax := 0;
               gpuTypes := ∅; isDefault := false |} found in
  {| name := name existing;
     nodes := match row_nodeName row with
              | Some _ => nodes existing
              | None =>
                  if (row_nodesCount row =? 0)%N then nodes existing
                  else N.max (nodes existing) (row_nodesCount row)
              end;
     cpus := N.max (cpus existing) (row_cpus row);
     memMb := N.max (memMb existing) (row_memMb row);
     gpuMax := N.max (gpuMax existing) (gres_gpuMax (row_gres row));
     gpuTypes :=
       Nat.iter further
                (λ types, mergeGpuTypes types (gres_gpuTypes (row_gres row)))
                (mergeGpuTypes (gpuTypes existing) (gres_gpuTypes (row_gres row)));
     isDefault := isDefault existing || starred |}.

(** The record a row leaves under the name [n], given the record found
    there before. *)
Definition mergedRecord (row : Row) (starred : bool) (n : string)
    (found : option PartitionInfo) : PartitionInfo :=
  mergedTimes row starred n
              (countNamed n (partitionNames (row_rawName row)) - 1) found.

(** The node set a row leaves under the name [n]. *)
Definition mergedNodeSet (row : Row) (found : option (gset string))
  : option (gset string) :=
  match row_nodeName row with
  | Some nodeName => Some ({[nodeName]} ∪ default ∅ found)
  | None => found
  end.

(** The keys of the map are distinct and each record is stored under
    its own name. *)
Definition wellKeyed (st : ParseState) : Prop :=
  NoDup (st_partitions st).*1
  ∧ ∀ k p, (k, p) ∈ st_partitions st → name p = k.

(** ** Lists of words: [uniqueList], [parseSimpleList], [splitArgs],
    [parseListInput], [parsePartitionOutput] *)

(** [s.split(re)] for a pattern [re] that matches the non-empty runs of
    separator characters, as [/\s+/] and [/[\s,]+/] do: a run ends the
    current piece; a run at the start or at the end of the text leaves an
    empty piece there. *)
Fixpoint splitRunsFrom (sep : ascii → bool) (inRun : bool) (s : string)
  : list string :=
  match s with
  | EmptyString => [EmptyString]
  | String a s' =>
      if sep a then
        (if inRun then splitRunsFrom sep true s'
         else EmptyString :: splitRunsFrom sep true s')
      else match splitRunsFrom sep false s' with
           | [] => [String a EmptyString]
           | h :: t => String a h :: t
           end
  end.

Definition splitRuns (sep : ascii → bool) (s : string) : list string :=
  splitRunsFrom sep false s.

(** [[\s,]] *)
Definition isSpaceOrComma (a : ascii) : bool := Js.isSpace a || Ascii.eqb a ",".

(** The loop of [uniqueList]: [seen] is the [Set], [result] the array. *)
Fixpoint uniqueLoop (values : list string) (seen : gset string)
    (result : list string) : list string :=
  match values with
  | [] => result
  | value :: rest =>
      if decide (value ∈ seen) then uniqueLoop rest seen result
      else uniqueLoop rest ({[value]} ∪ seen) (result ++ [value])
  end.

Definition uniqueList (values : list string) : list string :=
  uniqueLoop values ∅ [].

(** [output.split(/\s+/).map(trim).filter(Boolean)] *)
Definition wordsOf (output : string) : list string :=
  keepTruthy (Js.trim <$> splitRuns Js.isSpace output).

Definition parseSimpleList (output : string) : list string :=
  uniqueList (wordsOf output).

Definition splitArgs (input : string) : list string :=
  keepTruthy (splitRuns Js.isSpace input).

Definition parseListInput (input : string) : list string :=
  keepTruthy (Js.trim <$> splitRuns isSpaceOrComma input).

Definition firstLoginHostFromInput (input : string) : option string :=
  match parseListInput input with
  | [] => None
  | host :: _ => Some host
  end.

Record PartitionResult := mkPartitionResult {
  pr_partitions : list string;
  pr_defaultPartition : option string
}.

(** The body of the loop of [parsePartitionOutput]. *)
Definition partitionTokenStep (acc : PartitionResult) (token : string)
  : PartitionResult :=
  let isDef := Js.includes "*" token in
  let cleaned := Js.removeStars token in
  if negb (Js.truthy cleaned) then acc
  else
    {| pr_partitions :=
         if decide (cleaned ∈ pr_partitions acc) then pr_partitions acc
         else pr_partitions acc ++ [cleaned];
       pr_defaultPartition :=
         if isDef && unsetDefault (pr_defaultPartition acc) then Some cleaned
         else pr_defaultPartition acc |}.

Definition parsePartitionOutput (output : string) : PartitionResult :=
  foldl partitionTokenStep
        {| pr_partitions := []; pr_defaultPartition := None |}
        (wordsOf output).

(** ** The cache of cluster information and the login hosts *)











(** [resolveLoginHosts]: the hosts, the warnings shown on the way and the
    titles of the input boxes shown, in order.  [showInputBox] tells what
    the user answers to the box of a given title ([None] when
    dismissed). *)
Record ResolvedHosts := mkResolvedHosts {
  rl_hosts : list string;
  rl_warnings : list string;
  rl_prompts : list string
}.

Definition resolveLoginHosts (env : Env) (showInputBox : string → option string)
    (cfg : SciamaConfig) : ResolvedHosts :=
  let hosts := Cfg.loginHosts cfg in
  let '(hosts, warnings, prompts) :=
    if Js.truthy (Cfg.loginHostsCommand cfg) then
      let configured :=
        if Js.truthy (Cfg.loginHostsQueryHost cfg)
        then Some (Cfg.loginHostsQueryHost cfg)
        else head hosts in
      let '(queryHost, prompts) :=
        if truthyStr configured then (configured, [])
        else (showInputBox "Login host for discovery",
              ["Login host for discovery"]) in
      if truthyStr queryHost then
        match runSshCommand env (default EmptyString queryHost) cfg
                (Cfg.loginHostsCommand cfg) with
        | inr output =>
            let discovered := parseSimpleList output in
            (match discovered with [] => hosts | _ => discovered end, [], prompts)
        | inl e => (hosts, ["Failed to query login hosts: " +:+ e], prompts)
        end
      else (hosts, [], prompts)
    else (hosts, [], []) in
  let hosts := uniqueList hosts in
  match hosts with
  | [] =>
      let manual := showInputBox "Login host" in
      {| rl_hosts :=
           if truthyStr manual then [Js.trim (default EmptyString manual)] else [];
         rl_warnings := warnings;
         rl_prompts := prompts ++ ["Login host"] |}
  | _ => {| rl_hosts := hosts; rl_warnings := warnings; rl_prompts := prompts |}
  end.

(** ** The list fields of the settings form *)

(** [values.join('\n')]: how [getUiValuesFromConfig] shows the login
    hosts, the proxy arguments and the extra [salloc] arguments *)
Definition listField (values : list string) : string := Js.join newline values.

(** ** [handleClusterInfoRequest] *)




(** ** Quantities used in the further properties *)

(** no character of [s] is a separator *)
Definition noneOf (sep : ascii → bool) (s : string) : bool :=
  allChars (λ a, negb (sep a)) s.

(** the star that marks the default partition *)
Definition isStar (a : ascii) : bool := Ascii.eqb a "*".

(** the names the words of an output stand for, stars removed *)
Definition cleanedNames (words : list string) : list string :=
  keepTruthy (Js.removeStars <$> words).

(** the lines [getMaxFieldCount] counts *)
Definition countedLines (output : string) : list string :=
  filter (λ line, Is_true (0 <? String.length (Js.trim line))%nat)
         (Js.splitLines output).

(** [hh:mm:ss] *)
Definition clockText (hh mm ss : string) : string :=
  hh +:+ ":" +:+ mm +:+ ":" +:+ ss.

(** one or two digits, two digits, two digits *)
Definition clockParts (hh mm ss : string) : Prop :=
  Js.allDigitsFrom hh = true
  ∧ (String.length hh = 1 ∨ String.length hh = 2)%nat
  ∧ Js.allDigitsFrom mm = true ∧ String.length mm = 2%nat
  ∧ Js.allDigitsFrom ss = true ∧ String.length ss = 2%nat.

(** the name of a flag: what stands before its first [=] *)
Definition flagName (arg : string) : string :=
  Js.at_or_empty (Js.split "=" arg) 0.

(** the flags of [salloc] in the order [buildSallocArgs] emits them *)
Definition flagOrder : list string :=
  ["--partition"; "--nodes"; "--ntasks-per-node"; "--cpus-per-task"; "--time";
   "--qos"; "--account"; "--mem"; "--gres"].

(** the path [writeTemporarySshConfig] writes to *)
Definition overlayPath (env : Env) (cfg : SciamaConfig) : string :=
  if Js.truthy (Cfg.temporarySshConfigPath cfg)
  then expandHome env (Cfg.temporarySshConfigPath cfg)
  else pathJoin env
         (match extensionStoragePath env with
          | Some p => if Js.truthy p then p else tmpdir env
          | None => tmpdir env
          end)
         "sciama-ssh-config".

(** the rows of the lines that are not skipped *)
Definition parsedRows (lines : list string) : list Row := omap parseLine lines.

(** the rows that name the partition [n] *)
Definition rowsOf (n : string) (rows : list Row) : list Row :=
  filter (λ row, Is_true (contributesTo row n)) rows.

(** the state after the loop over the lines *)
Definition stateAfter (rows : list Row) : ParseState := foldl applyRow initialState rows.

(** the record the rows [rs], all naming [n], leave under [n] *)
Definition mergedAll (n : string) (rs : list Row) : option PartitionInfo :=
  foldl (λ acc row, Some (mergedRecord row (starredIn row n) n acc)) None rs.

(** the node set they leave under [n] *)
Definition nodeSetAll (rs : list Row) : option (gset string) :=
  foldl (λ acc row, mergedNodeSet row acc) None rs.

(** a report of three nodes, the third in two partitions *)
Definition threeLineReport : string :=
  "gpu*|node-01|64|128000|gpu:a100:4" +:+ newline
  +:+ "cpu|node-02|32|64000|(null)" +:+ newline
  +:+ "gpu,cpu|node-03|96|512000|gpu:a100:2,gpu:v100:8".

(** The default recorded is the name of a starred record, and there is
    one as soon as a record is starred. *)
Definition defaultRecorded (st : ParseState) : Prop :=
  (∀ d, st_default st = Some d →
     ∃ p, mapGet (st_partitions st) d = Some p ∧ isDefault p = true)
  ∧ (∀ n p, mapGet (st_partitions st) n = Some p → isDefault p = true →
       st_default st ≠ None).

(** the keys of the extra options, as [Object.keys(...).sort()] lists them *)
Definition sortedOptionKeys (cfg : SciamaConfig) : list string :=
  sortBy codeUnitCompare (fst <$> map_to_list (Cfg.additionalSshOptions cfg)).

(** the line of an option, if its value is not empty *)
Definition optionLine (cfg : SciamaConfig) (key : string) : option string :=
  match Cfg.additionalSshOptions cfg !! key with
  | Some value =>
      if (0 <? String.length value)%nat then Some ("  " +:+ key +:+ " " +:+ value)
      else None
  | None => None
  end.

(** the lines of the host block before the extra options *)
Definition hostBlockHead (env : Env) (alias loginHost : string)
    (cfg : SciamaConfig) (remoteCommand : string) : list string :=
  ["# Generated by Sciama Slurm Connect on " +:+ nowIso env;
   "Host " +:+ alias; "  HostName " +:+ loginHost]
  ++ (if Js.truthy (Cfg.user cfg) then ["  User " +:+ Cfg.user cfg] else [])
  ++ (if Cfg.requestTTY cfg then ["  RequestTTY yes"] else [])
  ++ (if Cfg.forwardAgent cfg then ["  ForwardAgent yes"] else [])
  ++ (if Js.truthy (Cfg.identityFile cfg)
      then ["  IdentityFile " +:+ Cfg.identityFile cfg] else [])
  ++ ["  RemoteCommand " +:+ remoteCommand].

(** the bar between two fields of a report line *)
Definition isBar (a : ascii) : bool := Ascii.eqb a "|".

(** the processor field of a summary line, [allocated/idle/other/total] *)
Definition cpuStates (allocated idle other total : string) : string :=
  allocated +:+ "/" +:+ idle +:+ "/" +:+ other +:+ "/" +:+ total.

(** a report line of five fields *)
Definition reportLine (name field1 cpus mem gres : string) : string :=
  name +:+ "|" +:+ field1 +:+ "|" +:+ cpus +:+ "|" +:+ mem +:+ "|" +:+ gres.

(** a field as it stands between two bars: no bar inside, no white space
    at its ends *)
Definition cleanField (s : string) : Prop :=
  noneOf isBar s = true ∧ Js.trim s = s.

(** a line with at least three fields and a first field that is not blank *)
Definition hasRow (line : string) : bool :=
  (3 <=? length (Js.split "|" line))%nat
  && Js.truthy (Js.trim (Js.at_or_empty (Js.split "|" line) 0)).

(** a row with a processor count, a memory size or a GPU count above 0 *)
Definition hasFigure (row : Row) : Prop :=
  (0 < row_cpus row ∨ 0 < row_memMb row ∨ 0 < gres_gpuMax (row_gres row))%N.

(** * Properties *)

(** ** The GRES parser *)

Example parseGresInfo_a100 :
  parseGresInfo "gpu:a100:4(S:0-1)"
  = {| gres_gpuMax := 4; gres_gpuTypes := {[ "a100" := Count 4 ]} |}.
Proof. vm_compute. reflexivity. Qed.

Example parseGresInfo_bare :
  parseGresInfo "gpu:2"
  = {| gres_gpuMax := 2; gres_gpuTypes := {[ EmptyString := Count 2 ]} |}.
Proof. vm_compute. reflexivity. Qed.

Example parseGresInfo_label_only :
  parseGresInfo "gpu:a100" = {| gres_gpuMax := 0; gres_gpuTypes := ∅ |}.
Proof. vm_compute. reflexivity. Qed.

Example parseGresInfo_two_types :
  parseGresInfo "gpu:v100:2,gpu:a100:8(S:0),mps:100,gpu:a100:4"
  = {| gres_gpuMax := 8;
       gres_gpuTypes := {[ "a100" := Count 8; "v100" := Count 2 ]} |}.
Proof. vm_compute. reflexivity. Qed.

(** a label that is the name of a function of [Object.prototype]: the
    first count reads the function and stores [NaN], the next one reads
    [NaN] as 0 *)
Example parseGresInfo_inherited_label :
  parseGresInfo "gpu:toString:4"
  = {| gres_gpuMax := 4; gres_gpuTypes := {[ "toString" := NaN ]} |}
  ∧ parseGresInfo "gpu:toString:8,gpu:toString:4"
    = {| gres_gpuMax := 8; gres_gpuTypes := {[ "toString" := Count 4 ]} |}.
Proof. split; vm_compute; reflexivity. Qed.

(** *** Reading and writing a member *)

Lemma setMember_lookup obj key x k :
  setMember obj key x !! k
  = if decide (key = k)
    then match obj !! key with
         | Some _ => Some x
         | None => if String.eqb key "__proto__" then None else Some x
         end
    else obj !! k.
Proof.
  unfold setMember. destruct (obj !! key) eqn:Hown.
  - rewrite lookup_insert. case_decide; reflexivity.
  - destruct (String.eqb key "__proto__").
    + case_decide as Hk; [subst k; exact Hown | reflexivity].
    + rewrite lookup_insert. case_decide; reflexivity.
Qed.

Lemma inheritedName_proto key :
  inheritedName key = false → String.eqb key "__proto__" = false.
Proof. unfold inheritedName. intros H. apply orb_false_iff in H as [H _]. exact H. Qed.

(** On a key that is not inherited the dictionary behaves as a map. *)
Lemma setMember_plain obj key x :
  inheritedName key = false → setMember obj key x = <[key := x]> obj.
Proof.
  intros Hkey. unfold setMember. rewrite (inheritedName_proto _ Hkey).
  destruct (obj !! key); reflexivity.
Qed.

Lemma getMember_plain obj key :
  inheritedName key = false →
  toNumber (orZero (getMember obj key))
  = match obj !! key with
    | Some (Count n) => Count n
    | _ => Count 0
    end.
Proof.
  intros Hkey. unfold getMember. rewrite Hkey.
  destruct (obj !! key) as [[n |] |]; reflexivity.
Qed.

(** *** The largest value of a dictionary of counts *)

Lemma maxValue_empty : maxValue ∅ = Count 0.
Proof. apply map_fold_empty. Qed.

(** On a dictionary of counts [maxValue] is a count that bounds every
    entry and, unless the dictionary is empty, is one of them. *)
Lemma maxValue_spec (m : gmap string JsNumber) :
  (∀ k v, m !! k = Some v → ∃ n, v = Count n) →
  ∃ r, maxValue m = Count r
       ∧ (∀ k n, m !! k = Some (Count n) → (n ≤ r)%N)
       ∧ ((m = ∅ ∧ r = 0%N) ∨ ∃ k, m !! k = Some (Count r)).
Proof.
  unfold maxValue.
  apply (map_fold_weak_ind
           (λ (acc : JsNumber) (m : gmap string JsNumber),
              (∀ k v, m !! k = Some v → ∃ n, v = Count n) →
              ∃ r, acc = Count r
                   ∧ (∀ k n, m !! k = Some (Count n) → (n ≤ r)%N)
                   ∧ ((m = ∅ ∧ r = 0%N) ∨ ∃ k, m !! k = Some (Count r)))).
  - intros _. exists 0%N. split; [reflexivity |].
    split; [intros k n; rewrite lookup_empty; discriminate | left; done].
  - intros i x m' acc Hfresh IH Hcounts.
    destruct (Hcounts i x) as [xn ->]; [apply lookup_insert_eq |].
    destruct IH as (r & -> & Hbound & Hwit).
    { intros k v Hv. apply (Hcounts k). rewrite lookup_insert_ne; [exact Hv |].
      intros ->. rewrite Hfresh in Hv. discriminate. }
    exists (N.max xn r). split; [reflexivity |]. split.
    + intros k n. rewrite lookup_insert. case_decide as Hk.
      * intros [= <-]. lia.
      * intros Hv. specialize (Hbound _ _ Hv). lia.
    + right. destruct (N.max_spec xn r) as [[Hlt ->] | [Hle ->]].
      * destruct Hwit as [[-> ->] | [k Hk]]; [lia |].
        exists k. rewrite lookup_insert_ne; [done |].
        intros ->. rewrite Hfresh in Hk. discriminate.
      * exists i. apply lookup_insert_eq.
Qed.

(** A bound that is attained is the maximum. *)
Lemma maxValue_unique (m : gmap string JsNumber) (M : N) :
  (∀ k v, m !! k = Some v → ∃ n, v = Count n ∧ (n ≤ M)%N) →
  ((m = ∅ ∧ M = 0%N) ∨ ∃ k, m !! k = Some (Count M)) →
  maxValue m = Count M.
Proof.
  intros Hbound Hwit.
  destruct (maxValue_spec m) as (r & Hr & Hb' & Hw').
  { intros k v Hv. destruct (Hbound _ _ Hv) as (n & -> & _). eauto. }
  rewrite Hr. f_equal.
  destruct Hwit as [[-> ->] | [k Hk]].
  - rewrite maxValue_empty in Hr. injection Hr as <-. reflexivity.
  - destruct Hw' as [[-> _] | [k' Hk']].
    + rewrite lookup_empty in Hk. discriminate.
    + destruct (Hbound _ _ Hk') as (n & [= <-] & Hle).
      specialize (Hb' _ _ Hk). lia.
Qed.

(** *** The accumulator of [parseGresInfo] *)

Lemma parseGresToken_positive token key count :
  parseGresToken token = Some (key, count) → (0 < count)%N.
Proof.
  unfold parseGresToken.
  destruct (negb (Js.includes "gpu" token)); [discriminate |].
  destruct (gresParts token) as [| p0 ps]; [discriminate |].
  destruct (negb (String.eqb p0 "gpu")); [discriminate |].
  destruct (gresTypeCount (p0 :: ps)) as [ty c].
  destruct (N.leb_spec c 0); [discriminate |].
  intros [= _ <-]. assumption.
Qed.

Lemma gresUpdate_bounded r token :
  gresBounded r → gresBounded (gresUpdate r token).
Proof.
  intros Hbound. unfold gresUpdate.
  destruct (parseGresToken token) as [[key count] |] eqn:Htok; [| exact Hbound].
  apply parseGresToken_positive in Htok.
  intros k v. cbn [gres_gpuTypes gres_gpuMax]. rewrite setMember_lookup.
  case_decide as Hk.
  - subst k. unfold getMember.
    destruct (gres_gpuTypes r !! key) as [old |] eqn:Hold.
    + intros [= <-]. right.
      destruct (Hbound _ _ Hold) as [[-> _] | (n & -> & Hn)]; cbn.
      * exists (N.max 0 count). split; [reflexivity | lia].
      * exists (N.max n count). split; [reflexivity | lia].
    + destruct (String.eqb key "__proto__") eqn:Hproto; [discriminate |].
      intros [= <-]. destruct (inheritedName key) eqn:Hinh; cbn.
      * left. split; reflexivity.
      * right. exists (N.max 0 count). split; [reflexivity | lia].
  - intros Hv. destruct (Hbound _ _ Hv) as [Hnan | (n & -> & Hn)];
      [left; exact Hnan | right].
    exists n. split; [reflexivity | lia].
Qed.

Lemma parseGresInfo_bounded raw : gresBounded (parseGresInfo raw).
Proof.
  assert (Hinit : gresBounded {| gres_gpuMax := 0; gres_gpuTypes := ∅ |}).
  { intros k v. cbn. rewrite lookup_empty. discriminate. }
  unfold parseGresInfo. destruct (negb (Js.truthy raw)); [assumption |].
  generalize dependent (mkGresInfo 0 ∅).
  induction (gresTokens raw) as [| t ts IH]; intros r Hr; simpl; [assumption |].
  apply IH, gresUpdate_bounded, Hr.
Qed.

Lemma gresUpdate_invariant r token :
  (∀ key count, parseGresToken token = Some (key, count) →
     inheritedName key = false) →
  gresInvariant r → gresInvariant (gresUpdate r token).
Proof.
  intros Hplain [Hbound Hwit]. unfold gresUpdate.
  destruct (parseGresToken token) as [[key count] |] eqn:Htok; [| by split].
  pose proof (Hplain _ _ eq_refl) as Hkey.
  apply parseGresToken_positive in Htok.
  rewrite (getMember_plain _ _ Hkey), (setMember_plain _ _ _ Hkey).
  split; cbn [gres_gpuTypes gres_gpuMax].
  - intros k v. rewrite lookup_insert. case_decide as Hk.
    + intros [= <-]. subst k. split; [exact Hkey |].
      destruct (gres_gpuTypes r !! key) as [old |] eqn:Hold.
      * destruct (Hbound _ _ Hold) as (_ & n & -> & Hn). cbn.
        exists (N.max n count). split; [reflexivity | lia].
      * cbn. exists (N.max 0 count). split; [reflexivity | lia].
    + intros Hv. destruct (Hbound _ _ Hv) as (Hinh & n & -> & Hn).
      split; [exact Hinh |]. exists n. split; [reflexivity | lia].
  - right.
    destruct (N.max_spec (gres_gpuMax r) count) as [[Hlt ->] | [Hle ->]].
    + exists key. rewrite lookup_insert_eq. f_equal.
      destruct (gres_gpuTypes r !! key) as [old |] eqn:Hold.
      * destruct (Hbound _ _ Hold) as (_ & n & -> & Hn). cbn. f_equal. lia.
      * cbn. f_equal. lia.
    + destruct Hwit as [[_ H0] | [k Hk]]; [lia |].
      exists k. rewrite lookup_insert. case_decide as Hkk; [| exact Hk].
      subst k. rewrite Hk. cbn. do 2 f_equal. lia.
Qed.

Lemma parseGresInfo_invariant raw :
  (∀ label, label ∈ gresLabels raw → inheritedName label = false) →
  gresInvariant (parseGresInfo raw).
Proof.
  assert (Hinit : gresInvariant {| gres_gpuMax := 0; gres_gpuTypes := ∅ |}).
  { split; simpl; [intros k v; rewrite lookup_empty; discriminate | by left]. }
  unfold parseGresInfo, gresLabels.
  destruct (negb (Js.truthy raw)); [intros _; assumption |].
  generalize dependent (mkGresInfo 0 ∅).
  induction (gresTokens raw) as [| t ts IH]; intros r Hr Hlabels;
    cbn [foldl]; [assumption |].
  apply IH.
  - apply gresUpdate_invariant; [| exact Hr].
    intros key count Htok. apply Hlabels.
    cbn [omap list_omap]. rewrite Htok. cbn [fmap list_fmap fst]. left.
  - intros label Hin. apply Hlabels. cbn [omap list_omap].
    destruct (parseGresToken t); [right |]; exact Hin.
Qed.

(** C10, the failing input. For the descriptor [gpu:__proto__:4] the
    parser returns [gpuMax] 4 and an empty [gpuTypes]: the count is read
    against the inherited [__proto__] and the assignment to [__proto__]
    stores nothing, so [gpuMax] is not the largest value of [gpuTypes]
    (which is 0) and is not 0 although [gpuTypes] is empty.  With the
    label [constructor] the entry stored is [NaN]. *)
Theorem gres_gpuMax_without_gpuTypes_entry :
  let r := parseGresInfo "gpu:__proto__:4" in
  r = {| gres_gpuMax := 4; gres_gpuTypes := ∅ |}
  ∧ maxValue (gres_gpuTypes r) = Count 0
  ∧ maxValue (gres_gpuTypes r) ≠ Count (gres_gpuMax r)
  ∧ ¬ (gres_gpuMax r = 0%N ↔ gres_gpuTypes r = ∅)
  ∧ parseGresInfo "gpu:constructor:4"
    = {| gres_gpuMax := 4; gres_gpuTypes := {[ "constructor" := NaN ]} |}.
Proof.
  intros r.
  assert (Hr : r = {| gres_gpuMax := 4; gres_gpuTypes := ∅ |})
    by (vm_compute; reflexivity).
  split; [exact Hr |]. rewrite Hr. cbn [gres_gpuTypes gres_gpuMax].
  rewrite maxValue_empty.
  split; [reflexivity |]. split; [discriminate |].
  split; [| vm_compute; reflexivity].
  intros [_ H]. specialize (H eq_refl). discriminate.
Qed.

(** ** Strings without the characters the tokenizer reacts to *)

Section PlainStrings.
Local Ltac split_andb :=
  repeat match goal with
    | H : _ && _ = true |- _ => apply andb_prop in H; destruct H
    | H : negb _ = true |- _ => apply negb_true_iff in H
    end.

Local Ltac use_facts :=
  repeat match goal with
    | H : ?x = false |- context [?x] => rewrite H
    | H : ?x = true |- context [?x] => rewrite H
    end.

Lemma allChars_weaken (p q : ascii → bool) s :
  (∀ a, p a = true → q a = true) → allChars p s = true → allChars q s = true.
Proof.
  intros Hpq. induction s as [| a s IH]; simpl; [done |].
  intros H. split_andb. rewrite Hpq, IH by assumption. reflexivity.
Qed.

Lemma digit_is_plain a : Js.isDigit a = true → plainChar a = true.
Proof.
  unfold Js.isDigit, plainChar, Js.isSpace. intros H.
  apply andb_prop in H as [Hlo Hhi]. apply N.leb_le in Hlo, Hhi.
  assert (Hc : ∀ b, (N_of_ascii b < 48 ∨ 57 < N_of_ascii b)%N →
                    Ascii.eqb a b = false).
  { intros b Hb. destruct (Ascii.eqb_spec a b); [subst; lia | reflexivity]. }
  rewrite (Hc ":"%char), (Hc "("%char) by (simpl; lia). simpl.
  repeat match goal with
  | |- context [(?x <=? ?y)%N] => destruct (N.leb_spec x y)
  | |- context [(?x =? ?y)%N] => destruct (N.eqb_spec x y)
  end; simpl; try reflexivity; lia.
Qed.

Lemma digits_are_plain s :
  Js.allDigitsFrom s = true → allChars plainChar s = true.
Proof.
  induction s as [| a s IH]; simpl; [done |].
  intros H. split_andb. rewrite digit_is_plain, IH by assumption. reflexivity.
Qed.

Lemma stripParens_plain_prefix s1 s2 :
  allChars plainChar s1 = true →
  Js.stripParensFrom false (s1 +:+ s2) = s1 +:+ Js.stripParensFrom false s2.
Proof.
  induction s1 as [| a s1 IH]; simpl; [done |].
  intros H. unfold plainChar in H. split_andb. use_facts. simpl.
  rewrite IH by assumption. reflexivity.
Qed.

Lemma stripParens_colon s :
  Js.stripParensFrom false (String ":" s) = String ":" (Js.stripParensFrom false s).
Proof. reflexivity. Qed.

Lemma closesOnLine_body body rest :
  allChars bodyChar body = true →
  Js.closesOnLine (body +:+ String ")" rest) = true.
Proof.
  induction body as [| a body IH]; simpl; [done |].
  intros H. unfold bodyChar in H. split_andb. use_facts. auto.
Qed.

Lemma stripParens_inside body rest :
  allChars bodyChar body = true →
  Js.stripParensFrom true (body +:+ String ")" rest)
  = Js.stripParensFrom false rest.
Proof.
  induction body as [| a body IH]; simpl; [done |].
  intros H. unfold bodyChar in H. split_andb. use_facts. auto.
Qed.

(** A parenthetical annotation disappears. *)
Lemma stripParens_annotation body rest :
  allChars bodyChar body = true →
  Js.stripParensFrom false (String "(" (body +:+ String ")" rest))
  = Js.stripParensFrom false rest.
Proof.
  intros H. simpl. rewrite closesOnLine_body by assumption.
  apply stripParens_inside, H.
Qed.

Lemma split_plain_whole s :
  allChars plainChar s = true → Js.split ":" s = [s].
Proof.
  induction s as [| a s IH]; simpl; [done |].
  intros H. unfold plainChar in H. split_andb. use_facts.
  rewrite IH by assumption. reflexivity.
Qed.

Lemma split_plain_prefix s1 s2 :
  allChars plainChar s1 = true →
  Js.split ":" (s1 +:+ String ":" s2) = s1 :: Js.split ":" s2.
Proof.
  induction s1 as [| a s1 IH]; simpl; [done |].
  intros H. unfold plainChar in H. split_andb. use_facts.
  rewrite IH by assumption. reflexivity.
Qed.

Lemma trimEnd_plain s : allChars plainChar s = true → Js.trimEnd s = s.
Proof.
  induction s as [| a s IH]; simpl; [done |].
  intros H. unfold plainChar in H. split_andb.
  rewrite IH by assumption.
  destruct s; simpl; use_facts; reflexivity.
Qed.

Lemma trim_plain s : allChars plainChar s = true → Js.trim s = s.
Proof.
  intros H. unfold Js.trim.
  assert (Js.trimStart s = s) as ->.
  { destruct s as [| a s]; simpl in *; [done |].
    unfold plainChar in H. split_andb. use_facts. reflexivity. }
  apply trimEnd_plain, H.
Qed.
End PlainStrings.

Lemma append_empty_r (s : string) : s +:+ EmptyString = s.
Proof.
  induction s as [| a s IH]; [reflexivity |].
  change (String a (s +:+ EmptyString) = String a s). rewrite IH. reflexivity.
Qed.

Lemma stripParens_plain s :
  allChars plainChar s = true → Js.stripParensFrom false s = s.
Proof.
  intros H. rewrite <- (append_empty_r s) at 1.
  rewrite stripParens_plain_prefix by assumption. apply append_empty_r.
Qed.

(** The parts of [gpu:<label>:<count>(<annotation>)]. *)
Lemma gresParts_typed ty c body :
  Js.truthy ty = true → allChars plainChar ty = true →
  Js.allDigits c = true → allChars bodyChar body = true →
  gresParts ("gpu:" +:+ ty +:+ ":" +:+ c +:+ "(" +:+ body +:+ ")")
  = ["gpu"; ty; c].
Proof.
  intros Hty Hplain Hc Hbody. unfold Js.allDigits in Hc.
  apply andb_prop in Hc as [Hc1 Hc2]. pose proof (digits_are_plain _ Hc2) as Hcp.
  unfold gresParts, Js.stripParens.
  change ("gpu:" +:+ ?s) with (String "g" (String "p" (String "u" (String ":" s)))).
  cbn [Js.stripParensFrom Ascii.eqb Bool.eqb andb].
  rewrite stripParens_plain_prefix by assumption.
  change (":" +:+ ?s) with (String ":" s). rewrite stripParens_colon.
  rewrite stripParens_plain_prefix by assumption.
  change ("(" +:+ ?s) with (String "(" s).
  change (")" : string) with (String ")" EmptyString).
  rewrite stripParens_annotation by assumption. simpl Js.stripParensFrom.
  cbn [Js.split Ascii.eqb Bool.eqb].
  rewrite split_plain_prefix by assumption.
  rewrite append_empty_r.
  rewrite split_plain_whole by assumption.
  cbn [fmap list_fmap]. rewrite (trim_plain ty), (trim_plain c) by assumption.
  change (Js.trim "gpu") with "gpu".
  destruct ty; [discriminate |]. destruct c; [discriminate |]. reflexivity.
Qed.

(** The parts of [gpu:<digits>]. *)
Lemma gresParts_bare X :
  Js.allDigits X = true → gresParts ("gpu:" +:+ X) = ["gpu"; X].
Proof.
  intros HX. unfold Js.allDigits in HX.
  apply andb_prop in HX as [HX1 HX2]. pose proof (digits_are_plain _ HX2) as Hp.
  unfold gresParts, Js.stripParens.
  change ("gpu:" +:+ X) with (String "g" (String "p" (String "u" (String ":" X)))).
  cbn [Js.stripParensFrom Ascii.eqb Bool.eqb andb].
  rewrite stripParens_plain by assumption.
  cbn [Js.split Ascii.eqb Bool.eqb].
  rewrite split_plain_whole by assumption.
  cbn [fmap list_fmap]. rewrite (trim_plain X) by assumption.
  change (Js.trim "gpu") with "gpu".
  destruct X; [discriminate |]. reflexivity.
Qed.

Lemma parseGresToken_two_parts token X :
  Js.includes "gpu" token = true → gresParts token = ["gpu"; X] →
  parseGresToken token =
    if Js.allDigits X && (0 <? Js.numberOfDigits X)%N
    then Some (EmptyString, Js.numberOfDigits X) else None.
Proof.
  intros Hgpu Hparts. unfold parseGresToken. rewrite Hgpu, Hparts. simpl.
  destruct (Js.allDigits X); simpl; [| reflexivity].
  destruct (N.leb_spec (Js.numberOfDigits X) 0), (N.ltb_spec 0 (Js.numberOfDigits X));
    try reflexivity; lia.
Qed.

Lemma parseGresToken_three_parts token ty cnt rest :
  Js.includes "gpu" token = true → gresParts token = "gpu" :: ty :: cnt :: rest →
  parseGresToken token =
    if Js.allDigits cnt && (0 <? Js.numberOfDigits cnt)%N
    then Some (ty, Js.numberOfDigits cnt) else None.
Proof.
  intros Hgpu Hparts. unfold parseGresToken. rewrite Hgpu, Hparts. simpl.
  destruct (Js.allDigits cnt); simpl; [| reflexivity].
  destruct (N.leb_spec (Js.numberOfDigits cnt) 0), (N.ltb_spec 0 (Js.numberOfDigits cnt));
    try reflexivity; lia.
Qed.

(** C6. The rule of [parseGresInfo] for one token that contains [gpu],
    stated on the parts left after the parenthetical annotations are
    removed and the token is cut at the colons: with the two parts
    [gpu], [X] the token yields the empty label with count [X] when [X]
    is all digits and is discarded otherwise; with three or more parts
    [gpu], [type], [count], ... it yields [type] with [count] when
    [count] is all digits and is discarded otherwise; a token is
    discarded in both forms when the count is 0, so every yielded count
    is positive.  On the text itself: [gpu:<digits>] and
    [gpu:<label>:<digits>(<annotation>)] are read this way, and the three
    descriptors of the specification give a100 with 4, the empty label
    with 2, and nothing.  The parser is a total function: no token makes
    it fail. *)
Theorem gres_token_rule :
  (∀ token, Js.includes "gpu" token = true →
     (∀ X, gresParts token = ["gpu"; X] →
        parseGresToken token =
          if Js.allDigits X && (0 <? Js.numberOfDigits X)%N
          then Some (EmptyString, Js.numberOfDigits X) else None)
     ∧ (∀ ty cnt rest, gresParts token = "gpu" :: ty :: cnt :: rest →
        parseGresToken token =
          if Js.allDigits cnt && (0 <? Js.numberOfDigits cnt)%N
          then Some (ty, Js.numberOfDigits cnt) else None))
  ∧ (∀ token key count,
       parseGresToken token = Some (key, count) → (0 < count)%N)
  ∧ (∀ X, Js.allDigits X = true →
       parseGresToken ("gpu:" +:+ X) =
         if (0 <? Js.numberOfDigits X)%N
         then Some (EmptyString, Js.numberOfDigits X) else None)
  ∧ (∀ ty cnt body,
       Js.truthy ty = true → allChars plainChar ty = true →
       Js.allDigits cnt = true → allChars bodyChar body = true →
       parseGresToken ("gpu:" +:+ ty +:+ ":" +:+ cnt +:+ "(" +:+ body +:+ ")") =
         if (0 <? Js.numberOfDigits cnt)%N
         then Some (ty, Js.numberOfDigits cnt) else None)
  ∧ parseGresInfo "gpu:a100:4(S:0-1)"
    = {| gres_gpuMax := 4; gres_gpuTypes := {[ "a100" := Count 4 ]} |}
  ∧ parseGresInfo "gpu:2"
    = {| gres_gpuMax := 2; gres_gpuTypes := {[ EmptyString := Count 2 ]} |}
  ∧ parseGresInfo "gpu:a100" = {| gres_gpuMax := 0; gres_gpuTypes := ∅ |}.
Proof.
  split; [| split; [| split; [| split; [| split; [| split]]]]].
  - intros token Hgpu. split.
    + intros X. apply parseGresToken_two_parts, Hgpu.
    + intros ty cnt rest. apply parseGresToken_three_parts, Hgpu.
  - apply parseGresToken_positive.
  - intros X HX.
    rewrite (parseGresToken_two_parts _ X);
      [rewrite HX; reflexivity | reflexivity | apply gresParts_bare, HX].
  - intros ty cnt body Hty Hplain Hcnt Hbody.
    rewrite (parseGresToken_three_parts _ ty cnt []);
      [rewrite Hcnt; reflexivity | reflexivity |].
    apply gresParts_typed; assumption.
  - vm_compute. reflexivity.
  - vm_compute. reflexivity.
  - vm_compute. reflexivity.
Qed.

(** ** The node column of a report line *)

(** C2. On the report line [gpu*|2gpu-01|64|128000|gpu:a100:4] the
    parser returns one partition, named gpu and flagged as default, whose
    node count is 2 and not 1: the second field starts with a digit, so it
    is read as a count (its leading digits) and no node name is
    recorded. *)
Theorem node_name_with_leading_digit_is_read_as_count
    (compare : string → string → Z) :
  let line := "gpu*|2gpu-01|64|128000|gpu:a100:4" in
  (row_nodeName <$> parseLine line) = Some None
  ∧ (row_nodesCount <$> parseLine line) = Some 2%N
  ∧ partitions (parsePartitionInfoOutput compare line)
    = [ {| name := "gpu"; nodes := 2; cpus := 64; memMb := 128000;
           gpuMax := 4; gpuTypes := {[ "a100" := Count 4 ]};
           isDefault := true |} ]
  ∧ defaultPartition (parsePartitionInfoOutput compare line) = Some "gpu".
Proof. repeat split; vm_compute; reflexivity. Qed.

Example count_column_is_kept (compare : string → string → Z) :
  partitions (parsePartitionInfoOutput compare "cpu|10|32|64000|")
  = [ {| name := "cpu"; nodes := 10; cpus := 32; memMb := 64000;
         gpuMax := 0; gpuTypes := ∅; isDefault := false |} ].
Proof. vm_compute. reflexivity. Qed.

Example node_name_is_counted_once (compare : string → string → Z) :
  nodes <$> partitions (parsePartitionInfoOutput compare
                          "gpu*|gpu-01|64|128000|gpu:a100:4")
  = [1%N].
Proof. vm_compute. reflexivity. Qed.

(** ** The host block and the overlay *)

(** C3. [buildHostEntry] places every value after its directive name as
    it is: on the configuration of the repository's test the identity
    file and the extra option, both containing spaces, appear without
    quotes. *)
Theorem host_entry_values_are_not_quoted (env : Env) :
  buildHostEntry env "alias" "login.example.com" quotingTestConfig "echo hi"
  = Js.join newline
      [ "# Generated by Sciama Slurm Connect on " +:+ nowIso env;
        "Host alias";
        "  HostName login.example.com";
        "  IdentityFile /Users/Test User/.ssh/id_rsa";
        "  RemoteCommand echo hi";
        "  LocalCommand echo hello world" ] +:+ newline
  ∧ Js.includes ("IdentityFile " +:+ dquote)
      (buildHostEntry (sampleEnv inl) "alias" "login.example.com"
                      quotingTestConfig "echo hi") = false
  ∧ Js.includes ("LocalCommand " +:+ dquote)
      (buildHostEntry (sampleEnv inl) "alias" "login.example.com"
                      quotingTestConfig "echo hi") = false.
Proof. repeat split; vm_compute; reflexivity. Qed.

(** C4. [writeTemporarySshConfig] creates the directory of the overlay
    path and writes there one fixed comment line followed by the host
    block it was given; the body never has an Include directive of its
    own, there is no list of include paths to render. *)
Theorem overlay_body_is_header_and_entry (env : Env) (alias entry : string)
    (cfg : SciamaConfig) :
  (∀ path content,
     WriteFile path content ∈ (writeTemporarySshConfig env alias entry cfg).1 →
     content = overlayHeader +:+ entry)
  ∧ (let entry0 := "Host alias" +:+ newline +:+ "  HostName login" in
     let cfg0 := sampleConfig EmptyString EmptyString EmptyString false false
                   EmptyString EmptyString EmptyString "/tmp/overlay/config" ∅ in
     writeTemporarySshConfig (sampleEnv inl) "alias" entry0 cfg0
     = ([Mkdir "/tmp";
         WriteFile "/tmp/overlay/config"
           ("# Temporary SSH config generated by Sciama Slurm Connect"
            +:+ newline +:+ entry0)],
        inr "/tmp/overlay/config")
     ∧ Js.includes "Include" (overlayHeader +:+ entry0) = false).
Proof.
  split.
  - intros path content. unfold writeTemporarySshConfig.
    repeat match goal with
    | |- context [match fsError ?e ?op with _ => _ end] => destruct (fsError e op)
    end; simpl; intros Hin;
    repeat match goal with
    | H : _ ∈ _ :: _ |- _ => apply elem_of_cons in H as [H | H]
    | H : _ ∈ [] |- _ => apply elem_of_nil in H; contradiction
    | H : WriteFile _ _ = _ |- _ => inversion H; clear H; subst
    end; try discriminate; reflexivity.
  - split; vm_compute; reflexivity.
Qed.

(** ** The launch command *)

Example salloc_args_order :
  buildSallocArgs
    {| sp_partition := Some "gpu"; sp_nodes := 2; sp_tasksPerNode := 1;
       sp_cpusPerTask := 8; sp_time := "01:00:00"; sp_memoryMb := Some 32000%Z;
       sp_gpuType := Some " a100 "; sp_gpuCount := Some 4%Z;
       sp_qos := Some "normal"; sp_account := None |}
  = ["--partition=gpu"; "--nodes=2"; "--ntasks-per-node=1"; "--cpus-per-task=8";
     "--time=01:00:00"; "--qos=normal"; "--mem=32000"; "--gres=gpu:a100:4"].
Proof. vm_compute. reflexivity. Qed.

(** C9. The remote command composed for a selection is a function of
    the selection, of the extra arguments of the session and of four
    settings only (moduleLoad, proxyCommand, proxyArgs, extraSallocArgs):
    two configurations that agree on these four give the same string,
    character for character, whatever their other settings are. *)
Theorem remote_command_is_function_of_inputs
    (cfg1 cfg2 : SciamaConfig) (params : SallocParams) (extraArgs : list string) :
  Cfg.moduleLoad cfg1 = Cfg.moduleLoad cfg2 →
  Cfg.proxyCommand cfg1 = Cfg.proxyCommand cfg2 →
  Cfg.proxyArgs cfg1 = Cfg.proxyArgs cfg2 →
  Cfg.extraSallocArgs cfg1 = Cfg.extraSallocArgs cfg2 →
  composeRemoteCommand cfg1 params extraArgs
  = composeRemoteCommand cfg2 params extraArgs.
Proof.
  intros Hmod Hcmd Hargs Hextra.
  unfold composeRemoteCommand, buildRemoteCommand.
  rewrite Hmod, Hcmd, Hargs, Hextra. reflexivity.
Qed.

Lemma remote_command_is_function_of_inputs_witness :
  let params :=
    {| sp_partition := Some "gpu"; sp_nodes := 2; sp_tasksPerNode := 1;
       sp_cpusPerTask := 8; sp_time := "01:00:00"; sp_memoryMb := Some 0%Z;
       sp_gpuType := Some "a100"; sp_gpuCount := Some 4%Z;
       sp_qos := None; sp_account := None |} in
  let cfgA :=
    sampleConfig EmptyString "alice" "~/.ssh/id_a" true true
                 "module load anaconda3" "python vscode-shell-proxy.py"
                 "01:00:00" EmptyString ∅ in
  let cfgB :=
    sampleConfig "sinfo -h" "bob" EmptyString false false
                 "module load anaconda3" "python vscode-shell-proxy.py"
                 "02:00:00" "/tmp/overlay" {[ "Compression" := "yes" ]} in
  composeRemoteCommand cfgA params ["--exclusive"]
  = composeRemoteCommand cfgB params ["--exclusive"].
Proof.
  intros params cfgA cfgB.
  apply remote_command_is_function_of_inputs; reflexivity.
Defined.

(** ** The cluster-info fetch *)

(** A login host whose per-node report has the five columns. *)
Example fetch_returns_first_accepted :
  let env :=
    sampleEnv (λ _, inr "gpu*|node-01|64|128000|gpu:a100:4") in
  fetchClusterInfo env "login" plainConfig
  = inr {| partitions :=
             [ {| name := "gpu"; nodes := 1; cpus := 64; memMb := 128000;
                  gpuMax := 4; gpuTypes := {[ "a100" := Count 4 ]};
                  isDefault := true |} ];
           defaultPartition := Some "gpu" |}.
Proof. vm_compute. reflexivity. Qed.

(** A login host on which no report prints anything. *)
Example fetch_returns_last_parsed :
  fetchClusterInfo (sampleEnv (λ _, inr EmptyString)) "login" plainConfig
  = inr emptyClusterInfo.
Proof. vm_compute. reflexivity. Qed.

(** C1, counterexample. The first candidate is executed and parsed (to
    a result without partitions), the second one fails, and the fetch
    fails with the error of the second instead of returning the parsed
    result: an error reaches the caller although not every execution
    failed. *)
Lemma fetch_fails_after_parsed_candidate :
  let env := sampleEnv silentThenFailing in
  candidateCommands plainConfig = [nodeReportCommand; partitionReportCommand]
  ∧ runSshCommand env "login" plainConfig nodeReportCommand = inr EmptyString
  ∧ parsePartitionInfoOutput (localeCompare env) EmptyString = emptyClusterInfo
  ∧ fetchClusterInfo env "login" plainConfig
    = inl "ssh: connect to host login port 22: Connection timed out"
  ∧ ¬ (∀ e, fetchClusterInfo env "login" plainConfig = inl e →
            Forall (λ c, ∃ e', runSshCommand env "login" plainConfig c = inl e')
                   (candidateCommands plainConfig)).
Proof.
  intros env.
  assert (Hrun : runSshCommand env "login" plainConfig nodeReportCommand
                 = inr EmptyString) by (vm_compute; reflexivity).
  assert (Hfetch : fetchClusterInfo env "login" plainConfig
                   = inl "ssh: connect to host login port 22: Connection timed out")
    by (vm_compute; reflexivity).
  split; [vm_compute; reflexivity |].
  split; [exact Hrun |].
  split; [vm_compute; reflexivity |].
  split; [exact Hfetch |].
  intros Hall. specialize (Hall _ Hfetch).
  change (candidateCommands plainConfig)
    with [nodeReportCommand; partitionReportCommand] in Hall.
  apply Forall_cons in Hall as [[e' He'] _].
  rewrite Hrun in He'. discriminate.
Qed.

(** C1, as the code has it. For every list of candidate commands, the
    fetch fails exactly when some candidate's execution fails after all
    the candidates before it were executed and passed over; the error is
    that of this first failing execution, and neither an earlier parsed
    result nor a later candidate is used.  When every candidate is passed
    over, the fetch returns the result parsed last (the initial empty
    result when there is no candidate). *)
Theorem fetch_error_is_first_failure (env : Env) (loginHost : string)
    (cfg : SciamaConfig) (commands : list string) (lastInfo : ClusterInfo) :
  (∀ e,
     fetchLoop env loginHost cfg commands lastInfo = inl e ↔
     ∃ pre command post,
       commands = pre ++ command :: post
       ∧ Forall (passedOver env loginHost cfg) pre
       ∧ runSshCommand env loginHost cfg command = inl e)
  ∧ (Forall (passedOver env loginHost cfg) commands →
     fetchLoop env loginHost cfg commands lastInfo
     = inr (lastParsed env loginHost cfg commands lastInfo)).
Proof.
  split.
  - intros e. revert lastInfo.
    induction commands as [| c rest IH]; intros lastInfo; simpl.
    + split; [discriminate |].
      intros (pre & c & post & Heq & _). destruct pre; discriminate.
    + destruct (runSshCommand env loginHost cfg c) as [e0 | output] eqn:Hrun.
      * split.
        -- intros [= ->]. exists [], c, rest. repeat split; [constructor | assumption].
        -- intros (pre & c' & post & Heq & Hpre & Hfail).
           destruct pre as [| c0 pre]; simpl in Heq; injection Heq as <- ->.
           ++ congruence.
           ++ apply Forall_cons in Hpre as [(out & Hout & _) _]. congruence.
      * destruct (judge output _) eqn:Hjudge.
        -- split; [discriminate |].
           intros (pre & c' & post & Heq & Hpre & Hfail).
           destruct pre as [| c0 pre]; simpl in Heq; injection Heq as <- ->.
           ++ congruence.
           ++ apply Forall_cons in Hpre as [(out & Hout & Hj) _].
              rewrite Hrun in Hout. injection Hout as <-. congruence.
        -- rewrite IH. split.
           ++ intros (pre & c' & post & -> & Hpre & Hfail).
              exists (c :: pre), c', post. repeat split; [| assumption].
              constructor; [exists output; split; assumption | assumption].
           ++ intros (pre & c' & post & Heq & Hpre & Hfail).
              destruct pre as [| c0 pre]; simpl in Heq; injection Heq as <- ->.
              ** congruence.
              ** apply Forall_cons in Hpre as [_ Hpre].
                 exists pre, c', post. repeat split; assumption.
  - revert lastInfo.
    induction commands as [| c rest IH]; intros lastInfo Hall; [reflexivity |].
    apply Forall_cons in Hall as [(output & Hrun & Hjudge) Hrest].
    simpl. rewrite Hrun, Hjudge. rewrite IH by assumption.
    f_equal. unfold lastParsed. destruct rest as [| c1 rest]; simpl.
    + rewrite Hrun. reflexivity.
    + change (last (c :: c1 :: rest)) with (last (c1 :: rest)).
      destruct (last (c1 :: rest)) as [cl |] eqn:Hlast;
        [| apply last_None in Hlast; discriminate].
      pose proof (last_Some_elem_of _ _ Hlast) as Hcl.
      rewrite Forall_forall in Hrest. destruct (Hrest _ Hcl) as (out & -> & _).
      reflexivity.
Qed.

(** ** The sizing step of a non-interactive run *)

(** C5, counterexample. With the wall time [abc], which has neither of
    the two forms, the non-interactive run does not stop at the sizing
    step: the launch command is built with [--time=abc] and the overlay is
    written. *)
Lemma malformed_time_passes_sizing :
  let env := sampleEnv inl in
  validSizing malformedTimeConfig = false
  ∧ (connectCommand env malformedTimeConfig "login1.example.com").2
    = Some "/tmp/sciama-ssh-config"
  ∧ head (connectCommand env malformedTimeConfig "login1.example.com").1
    = Some (BuiltRemoteCommand
              ("python vscode-shell-proxy.py --salloc-arg=--nodes=1 "
               +:+ "--salloc-arg=--ntasks-per-node=1 "
               +:+ "--salloc-arg=--cpus-per-task=1 --salloc-arg=--time=abc"))
  ∧ existsb isErrorMessage
      (connectCommand env malformedTimeConfig "login1.example.com").1 = false
  ∧ ¬ (∀ cfg loginHost,
         loginHost ≠ EmptyString →
         validSizing cfg = false →
         ∃ message,
           connectCommand env cfg loginHost = ([ShowErrorMessage message], None)).
Proof.
  intros env.
  assert (Hpath : (connectCommand env malformedTimeConfig "login1.example.com").2
                  = Some "/tmp/sciama-ssh-config") by (vm_compute; reflexivity).
  split; [vm_compute; reflexivity |].
  split; [exact Hpath |].
  split; [vm_compute; reflexivity |].
  split; [vm_compute; reflexivity |].
  intros Hall.
  destruct (Hall malformedTimeConfig "login1.example.com") as [message Habort];
    [discriminate | vm_compute; reflexivity |].
  rewrite Habort in Hpath. discriminate.
Qed.

(** C5, as the code has it. A non-interactive run whose chosen login
    host is empty ends before the sizing step, without a message.  With a
    login host, the sizing step stops the run when one of nodes, tasks per
    node and CPUs per task is below 1 or the wall time is empty: the only
    step taken is the error message that names the first such setting, so
    no launch command is built and nothing is written.  When the three
    numbers are at least 1 and the wall time is not empty, whatever its
    form, the run goes on to the launch command: it either stops there
    because the remote command is empty or builds it. *)
Theorem noninteractive_sizing_guard (env : Env) (cfg : SciamaConfig)
    (loginHost : string) :
  let run := connectCommand env cfg loginHost in
  let nodeCount := Cfg.defaultNodes cfg in
  let tasks := Cfg.defaultTasksPerNode cfg in
  let cpuCount := Cfg.defaultCpusPerTask cfg in
  let time := Cfg.defaultTime cfg in
  (loginHost = EmptyString → run = ([], None))
  ∧ (loginHost ≠ EmptyString →
     ((nodeCount < 1)%Z → run = ([ShowErrorMessage nodesMessage], None))
     ∧ ((1 ≤ nodeCount)%Z → (tasks < 1)%Z →
        run = ([ShowErrorMessage tasksMessage], None))
     ∧ ((1 ≤ nodeCount)%Z → (1 ≤ tasks)%Z → (cpuCount < 1)%Z →
        run = ([ShowErrorMessage cpusMessage], None))
     ∧ ((1 ≤ nodeCount)%Z → (1 ≤ tasks)%Z → (1 ≤ cpuCount)%Z →
        time = EmptyString →
        run = ([ShowErrorMessage timeMessage], None))
     ∧ (sizingIsSet cfg = false →
        run.2 = None
        ∧ ∃ message,
            run.1 = [ShowErrorMessage message]
            ∧ message ∈ [nodesMessage; tasksMessage; cpusMessage; timeMessage])
     ∧ (sizingIsSet cfg = true →
        run = ([ShowErrorMessage
                  "RemoteCommand is empty. Check sciamaSlurm.proxyCommand."],
               None)
        ∨ ∃ remoteCommand rest,
            Js.truthy remoteCommand = true
            ∧ run.1 = BuiltRemoteCommand remoteCommand :: rest)).
Proof.
  intros run nodeCount tasks cpuCount time.
  subst run nodeCount tasks cpuCount time.
  destruct loginHost as [| h0 hs];
    [split; [reflexivity | intros Hhost; contradiction] |].
  split; [discriminate |]. intros _.
  unfold sizingIsSet, connectCommand. cbn [Js.truthy negb].
  destruct (Z.eqb_spec (Cfg.defaultNodes cfg) 0),
           (Z.ltb_spec (Cfg.defaultNodes cfg) 1),
           (Z.leb_spec 1 (Cfg.defaultNodes cfg)); try lia; simpl;
    try (repeat split; intros; try lia; try discriminate;
         eexists; split; [reflexivity | set_solver]).
  destruct (Z.eqb_spec (Cfg.defaultTasksPerNode cfg) 0),
           (Z.ltb_spec (Cfg.defaultTasksPerNode cfg) 1),
           (Z.leb_spec 1 (Cfg.defaultTasksPerNode cfg)); try lia; simpl;
    try (repeat split; intros; try lia; try discriminate;
         eexists; split; [reflexivity | set_solver]).
  destruct (Z.eqb_spec (Cfg.defaultCpusPerTask cfg) 0),
           (Z.ltb_spec (Cfg.defaultCpusPerTask cfg) 1),
           (Z.leb_spec 1 (Cfg.defaultCpusPerTask cfg)); try lia; simpl;
    try (repeat split; intros; try lia; try discriminate;
         eexists; split; [reflexivity | set_solver]).
  destruct (Cfg.defaultTime cfg) as [| t0 ts] eqn:Htime; simpl.
  { repeat split; intros; try lia; try discriminate.
    eexists; split; [reflexivity | set_solver]. }
  repeat split; intros; try lia; try discriminate.
  match goal with
  | |- context [Js.truthy ?c] => destruct (Js.truthy c) eqn:Hcmd
  end; simpl.
  - right.
    destruct (writeTemporarySshConfig _ _ _ _) as [ops [e | path]];
      eexists _, _; split; try eassumption; reflexivity.
  - left. reflexivity.
Qed.

(** ** The stable sort *)

Section SortProperties.
Context {A : Type} (compare : A → A → Z).

Lemma sortInsert_perm (x : A) (l : list A) : sortInsert compare x l ≡ₚ x :: l.
Proof.
  induction l as [| y l IH]; simpl; [reflexivity |].
  destruct (compare x y <=? 0)%Z; [reflexivity |].
  rewrite IH. apply Permutation_swap.
Qed.

Lemma sortBy_perm (l : list A) : sortBy compare l ≡ₚ l.
Proof.
  induction l as [| x l IH]; simpl; [reflexivity |].
  rewrite sortInsert_perm. apply Permutation_skip, IH.
Qed.

Lemma sortBy_elem_of (x : A) (l : list A) : x ∈ sortBy compare l ↔ x ∈ l.
Proof. rewrite (sortBy_perm l). reflexivity. Qed.

Hypothesis total : ∀ a b, before compare a b ∨ before compare b a.

Lemma sortInsert_sorted (x : A) (l : list A) :
  Sorted (before compare) l → Sorted (before compare) (sortInsert compare x l).
Proof.
  induction l as [| y l IH]; simpl; intros Hl.
  - repeat constructor.
  - destruct (Z.leb_spec (compare x y) 0) as [Hxy | Hxy].
    + constructor; [assumption | constructor; exact Hxy].
    + apply Sorted_inv in Hl as [Hl Hhd]. constructor; [apply IH, Hl |].
      assert (Hyx : before compare y x).
      { destruct (total x y) as [H | H]; [unfold before in H; lia | exact H]. }
      destruct l as [| z l]; simpl.
      * constructor. exact Hyx.
      * destruct (compare x z <=? 0)%Z; constructor;
          [exact Hyx | apply HdRel_inv in Hhd; exact Hhd].
Qed.

Lemma sortBy_sorted (l : list A) : Sorted (before compare) (sortBy compare l).
Proof.
  induction l as [| x l IH]; simpl; [constructor | apply sortInsert_sorted, IH].
Qed.

Lemma sortBy_strongly_sorted (l : list A) :
  (∀ a b c, before compare a b → before compare b c → before compare a c) →
  StronglySorted (before compare) (sortBy compare l).
Proof.
  intros Htrans. apply Sorted_StronglySorted; [exact Htrans | apply sortBy_sorted].
Qed.
End SortProperties.

(** ** The map of partitions *)

Section PartitionMap.
Context {V : Type}.
Implicit Types m : list (string * V).

Lemma mapGet_mapSet_eq m k v : mapGet (mapSet m k v) k = Some v.
Proof.
  induction m as [| [k' v'] m IH]; simpl.
  - rewrite String.eqb_refl. reflexivity.
  - destruct (String.eqb_spec k' k) as [-> | Hne]; simpl.
    + rewrite String.eqb_refl. reflexivity.
    + apply String.eqb_neq in Hne. rewrite Hne. exact IH.
Qed.

Lemma mapGet_mapSet_ne m k k' v : k ≠ k' → mapGet (mapSet m k v) k' = mapGet m k'.
Proof.
  intros Hne. induction m as [| [k0 v0] m IH]; simpl.
  - apply String.eqb_neq in Hne. rewrite Hne. reflexivity.
  - destruct (String.eqb_spec k0 k) as [-> | Hk0]; simpl.
    + apply String.eqb_neq in Hne. rewrite Hne. reflexivity.
    + rewrite IH. reflexivity.
Qed.

Lemma mapGet_Some_elem_of m k v : mapGet m k = Some v → (k, v) ∈ m.
Proof.
  induction m as [| [k' v'] m IH]; simpl; [discriminate |].
  destruct (String.eqb_spec k' k) as [-> | Hne].
  - intros [= ->]. left.
  - intros H. right. apply IH, H.
Qed.

Lemma mapGet_None_not_key m k : mapGet m k = None → k ∉ m.*1.
Proof.
  induction m as [| [k' v'] m IH]; simpl; [intros _; apply not_elem_of_nil |].
  destruct (String.eqb_spec k' k) as [-> | Hne]; [discriminate |].
  intros H. apply not_elem_of_cons. split; [congruence | apply IH, H].
Qed.

Lemma elem_of_mapGet m k v : NoDup m.*1 → (k, v) ∈ m → mapGet m k = Some v.
Proof.
  induction m as [| [k' v'] m IH]; simpl; intros Hnd Hin.
  - apply elem_of_nil in Hin. contradiction.
  - apply NoDup_cons in Hnd as [Hk' Hnd].
    apply elem_of_cons in Hin as [[= -> ->] | Hin].
    + rewrite String.eqb_refl. reflexivity.
    + destruct (String.eqb_spec k' k) as [-> | Hne]; [| apply IH; assumption].
      exfalso. apply Hk'. apply list_elem_of_fmap. exists (k, v).
      split; [reflexivity | exact Hin].
Qed.

(** [set] keeps the keys of a present key and appends a new one. *)
Lemma mapSet_keys m k v :
  (mapSet m k v).*1
  = match mapGet m k with Some _ => m.*1 | None => m.*1 ++ [k] end.
Proof.
  induction m as [| [k' v'] m IH]; [reflexivity |].
  cbn [mapSet mapGet].
  destruct (String.eqb_spec k' k) as [-> | Hne]; [reflexivity |].
  rewrite !fmap_cons, IH. destruct (mapGet m k); reflexivity.
Qed.

Lemma mapSet_NoDup m k v : NoDup m.*1 → NoDup (mapSet m k v).*1.
Proof.
  intros Hnd. rewrite mapSet_keys.
  destruct (mapGet m k) eqn:Hget; [assumption |].
  apply NoDup_app. split; [assumption |]. split; [| apply NoDup_singleton].
  intros x Hx Hxk. apply list_elem_of_singleton in Hxk as ->.
  apply (mapGet_None_not_key _ _ Hget), Hx.
Qed.

Lemma elem_of_mapSet m k v k' v' :
  (k', v') ∈ mapSet m k v → (k' = k ∧ v' = v) ∨ (k', v') ∈ m.
Proof.
  induction m as [| [k0 v0] m IH]; simpl.
  - intros Hin. apply list_elem_of_singleton in Hin as [= -> ->]. left. done.
  - destruct (String.eqb_spec k0 k) as [-> | Hne]; intros Hin;
      apply elem_of_cons in Hin as [[= -> ->] | Hin].
    + left. done.
    + right. right. exact Hin.
    + right. left.
    + destruct (IH Hin) as [? | ?]; [left; assumption | right; right; assumption].
Qed.
End PartitionMap.

(** ** Merging the lines of a partition *)

(** What the loop over the entries leaves under a key: the entry found
    there if the line has none for it, else what the assignment of the
    maximum makes of it. *)
Lemma mergeGpuTypes_lookup (existing incoming : gmap string JsNumber) (t : string) :
  mergeGpuTypes existing incoming !! t
  = match incoming !! t with
    | None => existing !! t
    | Some c =>
        setMember existing t
                  (mathMax (toNumber (orZero (getMember existing t))) c) !! t
    end.
Proof.
  revert t. unfold mergeGpuTypes.
  apply (map_fold_weak_ind
           (λ (r m : gmap string JsNumber),
              ∀ t, r !! t
                   = match m !! t with
                     | None => existing !! t
                     | Some c =>
                         setMember existing t
                           (mathMax (toNumber (orZero (getMember existing t))) c)
                         !! t
                     end)).
  - intros t. rewrite lookup_empty. reflexivity.
  - intros i x m r Hfresh IH t. cbn zeta.
    pose proof (IH i) as Hi. rewrite Hfresh in Hi.
    rewrite setMember_lookup, lookup_insert. case_decide as Hit.
    + subst t. rewrite setMember_lookup, decide_True by reflexivity.
      unfold getMember. rewrite Hi. reflexivity.
    + apply IH.
Qed.

(** Under a type that is not an inherited name the entry becomes the
    larger of the count found and the count of the line. *)
Lemma mergeGpuTypes_plain (existing incoming : gmap string JsNumber) (t : string) :
  inheritedName t = false →
  mergeGpuTypes existing incoming !! t
  = match incoming !! t with
    | None => existing !! t
    | Some c =>
        Some (mathMax (match existing !! t with
                       | Some (Count n) => Count n
                       | _ => Count 0
                       end) c)
    end.
Proof.
  intros Ht. rewrite mergeGpuTypes_lookup.
  destruct (incoming !! t) as [c |]; [| reflexivity].
  rewrite (getMember_plain _ _ Ht), (setMember_plain _ _ _ Ht).
  apply lookup_insert_eq.
Qed.

(** Running the loop again for the same line changes nothing under such
    a type. *)
Lemma mergeGpuTypes_again_plain (existing incoming : gmap string JsNumber)
    (t : string) (k : nat) :
  inheritedName t = false →
  (∀ v, incoming !! t = Some v → ∃ n, v = Count n) →
  Nat.iter k (λ types, mergeGpuTypes types incoming)
           (mergeGpuTypes existing incoming) !! t
  = mergeGpuTypes existing incoming !! t.
Proof.
  intros Ht Hcount. induction k as [| k IH]; [reflexivity |].
  rewrite Nat.iter_succ, mergeGpuTypes_plain, IH by exact Ht.
  rewrite (mergeGpuTypes_plain existing) by exact Ht.
  destruct (incoming !! t) as [c |] eqn:Hc; [| reflexivity].
  destruct (Hcount _ eq_refl) as [n ->].
  destruct (existing !! t) as [[m |] |]; cbn; do 2 f_equal; lia.
Qed.

(** A line never stores anything under [__proto__]. *)
Lemma mergeGpuTypes_keys (existing incoming : gmap string JsNumber) (t : string) :
  is_Some (mergeGpuTypes existing incoming !! t) →
  is_Some (existing !! t) ∨ is_Some (incoming !! t).
Proof.
  rewrite mergeGpuTypes_lookup.
  destruct (incoming !! t); [right; eauto | left; assumption].
Qed.

Lemma mergedTimes_again row s1 s2 n k found :
  mergedTimes row s2 n k (Some (mergedTimes row s1 n 0 found))
  = mergedTimes row (s1 || s2) n (S k) found.
Proof.
  unfold mergedTimes. cbn [default from_option id name nodes cpus memMb gpuMax
                           gpuTypes isDefault].
  f_equal.
  - destruct (row_nodeName row); [reflexivity |].
    destruct (N.eqb_spec (row_nodesCount row) 0); [reflexivity | lia].
  - lia.
  - lia.
  - lia.
  - exact (Nat.iter_swap k _
             (λ types, mergeGpuTypes types (gres_gpuTypes (row_gres row))) _).
  - rewrite orb_assoc. reflexivity.
Qed.

Lemma mergedNodeSet_idem row found :
  mergedNodeSet row (mergedNodeSet row found) = mergedNodeSet row found.
Proof.
  unfold mergedNodeSet. destruct (row_nodeName row); [| reflexivity].
  simpl. f_equal. rewrite (assoc_L (∪)), (idemp_L (∪)). reflexivity.
Qed.

(** One name of one line. *)
Lemma applyName_get row st pn n :
  mapGet (st_partitions (applyName row st pn)) n
  = if String.eqb (Js.removeStars pn) n
    then Some (mergedTimes row (Js.includes "*" pn) n 0 (mapGet (st_partitions st) n))
    else mapGet (st_partitions st) n.
Proof.
  unfold applyName. cbn [st_partitions].
  destruct (String.eqb_spec (Js.removeStars pn) n) as [<- | Hne].
  - rewrite mapGet_mapSet_eq. f_equal. unfold mergedTimes.
    destruct (mapGet (st_partitions st) (Js.removeStars pn)); simpl; [reflexivity |].
    rewrite orb_diag. reflexivity.
  - apply mapGet_mapSet_ne, Hne.
Qed.

Lemma applyName_nodeSet row st pn n :
  st_nodeSets (applyName row st pn) !! n
  = if String.eqb (Js.removeStars pn) n
    then mergedNodeSet row (st_nodeSets st !! n)
    else st_nodeSets st !! n.
Proof.
  unfold applyName, mergedNodeSet. cbn [st_nodeSets].
  destruct (String.eqb_spec (Js.removeStars pn) n) as [<- | Hne];
    destruct (row_nodeName row); try reflexivity.
  - apply lookup_insert_eq.
  - apply lookup_insert_ne, Hne.
Qed.

Lemma existsb_and_false {X} (f g : X → bool) (l : list X) :
  existsb f l = false → existsb (λ x, f x && g x) l = false.
Proof.
  induction l as [| x l IH]; simpl; [reflexivity |].
  intros H. apply orb_false_iff in H as [Hx Hl]. rewrite Hx, IH by assumption.
  reflexivity.
Qed.

Lemma countNamed_existsb n pns :
  existsb (λ pn, String.eqb (Js.removeStars pn) n) pns
  = negb (countNamed n pns =? 0)%nat.
Proof.
  induction pns as [| pn pns IH]; [reflexivity |].
  cbn [existsb countNamed foldr]. fold (countNamed n pns).
  destruct (String.eqb (Js.removeStars pn) n); [reflexivity | exact IH].
Qed.

(** All the names of one line: the loop body runs once for every name
    that is [n]. *)
Lemma foldl_applyName_get row n pns : ∀ st,
  mapGet (st_partitions (foldl (applyName row) st pns)) n
  = if existsb (λ pn, String.eqb (Js.removeStars pn) n) pns
    then Some (mergedTimes row
                 (existsb (λ pn, String.eqb (Js.removeStars pn) n
                                 && Js.includes "*" pn) pns)
                 n (countNamed n pns - 1) (mapGet (st_partitions st) n))
    else mapGet (st_partitions st) n.
Proof.
  induction pns as [| pn pns IH]; intros st; [reflexivity |].
  cbn [foldl existsb countNamed foldr]. fold (countNamed n pns).
  rewrite IH, applyName_get.
  destruct (String.eqb (Js.removeStars pn) n); cbn [orb andb].
  - pose proof (countNamed_existsb n pns) as Hcount.
    destruct (existsb _ pns) eqn:Hrest.
    + destruct (countNamed n pns) as [| k]; [discriminate |].
      rewrite mergedTimes_again.
      replace (S k - 1)%nat with k by lia.
      replace (S (S k) - 1)%nat with (S k) by lia. reflexivity.
    + destruct (countNamed n pns) as [| k]; [| discriminate].
      rewrite (existsb_and_false _ _ _ Hrest), orb_false_r. reflexivity.
  - reflexivity.
Qed.

Lemma foldl_applyName_nodeSet row n pns : ∀ st,
  st_nodeSets (foldl (applyName row) st pns) !! n
  = if existsb (λ pn, String.eqb (Js.removeStars pn) n) pns
    then mergedNodeSet row (st_nodeSets st !! n)
    else st_nodeSets st !! n.
Proof.
  induction pns as [| pn pns IH]; intros st; simpl; [reflexivity |].
  rewrite IH, applyName_nodeSet.
  destruct (String.eqb (Js.removeStars pn) n); simpl; [| reflexivity].
  destruct (existsb _ pns); [apply mergedNodeSet_idem | reflexivity].
Qed.

Lemma applyRow_get st row n :
  mapGet (st_partitions (applyRow st row)) n
  = if contributesTo row n
    then Some (mergedRecord row (starredIn row n) n (mapGet (st_partitions st) n))
    else mapGet (st_partitions st) n.
Proof. apply foldl_applyName_get. Qed.

Lemma applyRow_nodeSet st row n :
  st_nodeSets (applyRow st row) !! n
  = if contributesTo row n then mergedNodeSet row (st_nodeSets st !! n)
    else st_nodeSets st !! n.
Proof. apply foldl_applyName_nodeSet. Qed.

Lemma wellKeyed_initial : wellKeyed initialState.
Proof.
  split; simpl; [constructor |].
  intros k p Hin. apply elem_of_nil in Hin. contradiction.
Qed.

Lemma applyName_wellKeyed row st pn : wellKeyed st → wellKeyed (applyName row st pn).
Proof.
  intros [Hnd Hname]. unfold applyName. split; cbn [st_partitions].
  - apply mapSet_NoDup, Hnd.
  - intros k p Hin. apply elem_of_mapSet in Hin as [[-> ->] | Hin]; [| apply Hname, Hin].
    cbn [name].
    destruct (mapGet (st_partitions st) (Js.removeStars pn)) as [e |] eqn:Hget;
      simpl; [| reflexivity].
    apply Hname, mapGet_Some_elem_of, Hget.
Qed.

Lemma applyRow_wellKeyed st row : wellKeyed st → wellKeyed (applyRow st row).
Proof.
  unfold applyRow. generalize (partitionNames (row_rawName row)). intros pns.
  revert st. induction pns as [| pn pns IH]; intros st Hst; simpl; [assumption |].
  apply IH, applyName_wellKeyed, Hst.
Qed.

Lemma processLine_wellKeyed st line : wellKeyed st → wellKeyed (processLine st line).
Proof.
  intros Hst. unfold processLine.
  destruct (parseLine line); [apply applyRow_wellKeyed |]; assumption.
Qed.

Lemma foldl_processLine_wellKeyed lines : ∀ st,
  wellKeyed st → wellKeyed (foldl processLine st lines).
Proof.
  induction lines as [| l lines IH]; intros st Hst; simpl; [assumption |].
  apply IH, processLine_wellKeyed, Hst.
Qed.

Lemma finalizeNodes_name nodeSets entry :
  name (finalizeNodes nodeSets entry) = name entry.2.
Proof.
  destruct entry as [k p]. unfold finalizeNodes.
  destruct (nodeSets !! k) as [set |]; [| reflexivity].
  destruct (0 <? size set)%nat; reflexivity.
Qed.

(** The partition names of a parsed report are pairwise distinct. *)
Lemma parseLines_names_distinct compare lines :
  NoDup (name <$> partitions (parseLines compare lines)).
Proof.
  unfold parseLines. cbn [partitions].
  destruct (foldl_processLine_wellKeyed lines _ wellKeyed_initial) as [Hnd Hname].
  set (st := foldl processLine initialState lines) in *.
  rewrite (sortBy_perm _ _).
  assert (Heq : name <$> (finalizeNodes (st_nodeSets st) <$> st_partitions st)
                = (st_partitions st).*1).
  { rewrite <- list_fmap_compose. apply list_fmap_ext.
    intros i [k p] Hi.
    change (name (finalizeNodes (st_nodeSets st) (k, p)) = k).
    rewrite finalizeNodes_name. apply Hname. eapply list_elem_of_lookup_2, Hi. }
  rewrite Heq. exact Hnd.
Qed.

(** ** The parsed report is sorted *)

Lemma matchDigits_no_digit (value : string) :
  allChars (λ a, negb (Js.isDigit a)) value = true → Js.matchDigits value = None.
Proof.
  induction value as [| a value IH]; simpl; [reflexivity |].
  intros H. apply andb_prop in H as [Ha Hrest].
  apply negb_true_iff in Ha. rewrite Ha. apply IH, Hrest.
Qed.

Lemma codeUnitCompare_total (a b : string) :
  (codeUnitCompare a b ≤ 0)%Z ∨ (codeUnitCompare b a ≤ 0)%Z.
Proof.
  unfold codeUnitCompare. rewrite (String.compare_antisym a b).
  destruct (String.compare b a); simpl; lia.
Qed.

(** C8. Whatever the report text, [parsePartitionInfoOutput] returns a
    result (it is a total function), and for a collation in which any two
    names are comparable the returned partitions are in ascending order of
    their names: each one may stand before the next, and before all the
    later ones when the collation is transitive.  Their names are pairwise
    distinct.  A line with fewer than three fields leaves the accumulated
    result as it is, and a field without a digit counts as 0. *)
Theorem partition_list_is_sorted (compare : string → string → Z)
    (Htotal : ∀ a b, (compare a b ≤ 0)%Z ∨ (compare b a ≤ 0)%Z)
    (output : string) :
  let ascending := λ p q : PartitionInfo, (compare (name p) (name q) ≤ 0)%Z in
  let info := parsePartitionInfoOutput compare output in
  Sorted ascending (partitions info)
  ∧ ((∀ a b c, (compare a b ≤ 0)%Z → (compare b c ≤ 0)%Z → (compare a c ≤ 0)%Z) →
     StronglySorted ascending (partitions info))
  ∧ NoDup (name <$> partitions info)
  ∧ (∀ st line,
       (length (Js.split "|" line) < 3)%nat → processLine st line = st)
  ∧ (∀ value,
       allChars (λ a, negb (Js.isDigit a)) value = true →
       parseNumericField value = 0%N).
Proof.
  intros ascending info. subst info.
  unfold parsePartitionInfoOutput, parseLines. cbn [partitions].
  set (st := foldl processLine initialState (reportLines output)).
  set (cmp := λ a b : PartitionInfo, compare (name a) (name b)).
  assert (Htot : ∀ a b, before cmp a b ∨ before cmp b a)
    by (intros a b; apply Htotal).
  repeat split.
  - apply (sortBy_sorted cmp Htot).
  - intros Htrans. apply (sortBy_strongly_sorted cmp Htot).
    intros a b c. apply Htrans.
  - apply (parseLines_names_distinct compare (reportLines output)).
  - intros st0 line Hlen. unfold processLine, parseLine.
    rewrite length_fmap. apply Nat.ltb_lt in Hlen. rewrite Hlen. reflexivity.
  - intros value Hvalue. unfold parseNumericField.
    rewrite matchDigits_no_digit by assumption. reflexivity.
Qed.

Lemma partition_list_is_sorted_witness :
  let report :=
    "gpu*|node-01|64|128000|gpu:a100:4" +:+ newline
    +:+ "cpu|node-02|0/4/0/128|256000|(null)" +:+ newline
    +:+ "short|line" in
  Sorted (λ p q : PartitionInfo, (codeUnitCompare (name p) (name q) ≤ 0)%Z)
         (partitions (parsePartitionInfoOutput codeUnitCompare report))
  ∧ name <$> partitions (parsePartitionInfoOutput codeUnitCompare report)
    = ["cpu"; "gpu"].
Proof.
  intros report. split.
  - apply (partition_list_is_sorted codeUnitCompare codeUnitCompare_total report).
  - vm_compute. reflexivity.
Defined.

(** ** Two lines of one partition *)

Example two_lines_merge (compare : string → string → Z) :
  partitions
    (parsePartitionInfoOutput compare
       ("gpu*|node-01|64|128000|gpu:a100:4,gpu:v100:1" +:+ newline
        +:+ "gpu|node-02|32|256000|gpu:a100:8"))
  = [ {| name := "gpu"; nodes := 2; cpus := 64; memMb := 256000; gpuMax := 8;
         gpuTypes := {[ "a100" := Count 8; "v100" := Count 1 ]}; isDefault := true |} ].
Proof. vm_compute. reflexivity. Qed.

(** C7, the failing input. Two lines name the partition [gpu], the
    first with 8 GPUs of a type called [toString], the second with 4: the
    record of the partition has [gpuMax] 8, but its entry for the type is
    [NaN], not 8, because the first merge reads the inherited function
    [toString] of the empty dictionary as the count found.  When each line
    lists the type twice, so that the two contributions are the counts 8
    and 4, the entry of the record is 4: the smaller of the two, the
    second merge having read the [NaN] left by the first as 0. *)
Theorem inherited_type_label_is_not_merged_by_maximum
    (compare : string → string → Z) :
  partitions
    (parsePartitionInfoOutput compare
       ("gpu|n1|8|1|gpu:toString:8" +:+ newline
        +:+ "gpu|n2|8|1|gpu:toString:4"))
  = [ {| name := "gpu"; nodes := 2; cpus := 8; memMb := 1; gpuMax := 8;
         gpuTypes := {[ "toString" := NaN ]}; isDefault := false |} ]
  ∧ parseGresInfo "gpu:toString:1,gpu:toString:8"
    = {| gres_gpuMax := 8; gres_gpuTypes := {[ "toString" := Count 8 ]} |}
  ∧ parseGresInfo "gpu:toString:1,gpu:toString:4"
    = {| gres_gpuMax := 4; gres_gpuTypes := {[ "toString" := Count 4 ]} |}
  ∧ partitions
      (parsePartitionInfoOutput compare
         ("gpu|n1|8|1|gpu:toString:1,gpu:toString:8" +:+ newline
          +:+ "gpu|n2|8|1|gpu:toString:1,gpu:toString:4"))
    = [ {| name := "gpu"; nodes := 2; cpus := 8; memMb := 1; gpuMax := 8;
           gpuTypes := {[ "toString" := Count 4 ]}; isDefault := false |} ].
Proof.
  split; [vm_compute; reflexivity |].
  split; [vm_compute; reflexivity |].
  split; vm_compute; reflexivity.
Qed.

(** * Further properties *)

(** ** Words *)

Example splitRuns_edges :
  splitRuns Js.isSpace " a  b " = [EmptyString; "a"; "b"; EmptyString]
  ∧ splitRuns Js.isSpace EmptyString = [EmptyString]
  ∧ parseListInput "login1, login2 ,,login1" = ["login1"; "login2"; "login1"]
  ∧ parseSimpleList "  b a  b c a " = ["b"; "a"; "c"].
Proof. repeat split; vm_compute; reflexivity. Qed.

Lemma splitRunsFrom_pieces sep s : ∀ inRun piece,
  piece ∈ splitRunsFrom sep inRun s → noneOf sep piece = true.
Proof.
  induction s as [| a s IH]; intros inRun piece; simpl.
  - intros Hin. apply list_elem_of_singleton in Hin as ->. reflexivity.
  - destruct (sep a) eqn:Ha.
    + destruct inRun; [apply IH |].
      intros Hin. apply elem_of_cons in Hin as [-> | Hin]; [reflexivity |].
      apply (IH true), Hin.
    + pose proof (IH false) as IHf.
      destruct (splitRunsFrom sep false s) as [| h t].
      * intros Hin. apply list_elem_of_singleton in Hin as ->.
        unfold noneOf. simpl. rewrite Ha. reflexivity.
      * intros Hin. apply elem_of_cons in Hin as [-> | Hin].
        -- unfold noneOf. simpl. rewrite Ha. simpl.
           apply IHf. left.
        -- apply IHf. right. exact Hin.
Qed.

Lemma trimEnd_no_space s : noneOf Js.isSpace s = true → Js.trimEnd s = s.
Proof.
  unfold noneOf. induction s as [| a s IH]; simpl; [done |].
  intros H. apply andb_prop in H as [Ha Hs]. apply negb_true_iff in Ha.
  rewrite IH by assumption. destruct s; simpl; [rewrite Ha |]; reflexivity.
Qed.

Lemma trim_no_space s : noneOf Js.isSpace s = true → Js.trim s = s.
Proof.
  intros H. unfold Js.trim.
  assert (Js.trimStart s = s) as ->.
  { destruct s as [| a s]; simpl in *; [done |].
    unfold noneOf in H. simpl in H. apply andb_prop in H as [Ha _].
    apply negb_true_iff in Ha. rewrite Ha. reflexivity. }
  apply trimEnd_no_space, H.
Qed.

Lemma noneOf_weaken (p q : ascii → bool) s :
  (∀ a, q a = true → p a = true) → noneOf p s = true → noneOf q s = true.
Proof.
  intros Hqp. apply allChars_weaken. intros a Ha.
  apply negb_true_iff in Ha. apply negb_true_iff.
  destruct (q a) eqn:Hq; [| reflexivity]. rewrite (Hqp a Hq) in Ha. discriminate.
Qed.

Lemma elem_of_keepTruthy (l : list string) (x : string) :
  x ∈ keepTruthy l ↔ x ≠ EmptyString ∧ x ∈ l.
Proof.
  unfold keepTruthy. rewrite list_elem_of_filter.
  split; intros [Hx Hin]; (split; [| exact Hin]).
  - intros ->. exact Hx.
  - destruct x; [contradiction | exact I].
Qed.

(** The words of a text are not empty and hold no white space. *)
Lemma wordsOf_words output word :
  word ∈ wordsOf output →
  word ≠ EmptyString ∧ noneOf Js.isSpace word = true
  ∧ word ∈ splitRuns Js.isSpace output.
Proof.
  unfold wordsOf. rewrite elem_of_keepTruthy, list_elem_of_fmap.
  intros [Hne (piece & -> & Hin)].
  pose proof (splitRunsFrom_pieces _ _ _ _ Hin) as Hpiece.
  rewrite trim_no_space in Hne |- * by assumption. auto.
Qed.

(** ** [uniqueList] *)

Lemma filter_all {X} (P : X → Prop) `{∀ x, Decision (P x)} (l : list X) :
  Forall P l → filter P l = l.
Proof.
  induction 1 as [| x l Hx Hl IH]; [reflexivity |].
  rewrite filter_cons_True, IH by assumption. reflexivity.
Qed.

Lemma uniqueLoop_app values : ∀ seen result,
  uniqueLoop values seen result = result ++ uniqueLoop values seen [].
Proof.
  induction values as [| v values IH]; intros seen result; simpl.
  - rewrite app_nil_r. reflexivity.
  - destruct (decide (v ∈ seen)); [apply IH |].
    rewrite (IH _ (result ++ [v])), (IH _ [v]), <- app_assoc. reflexivity.
Qed.

Lemma uniqueLoop_filter values : ∀ seen,
  uniqueLoop values seen [] = filter (λ y, y ∉ seen) (uniqueList values).
Proof.
  unfold uniqueList.
  induction values as [| v values IH]; intros seen; [reflexivity |].
  cbn [uniqueLoop app].
  rewrite (decide_False (P := v ∈ (∅ : gset string))) by set_solver.
  rewrite (uniqueLoop_app values ({[v]} ∪ ∅) [v]), (IH ({[v]} ∪ ∅)).
  cbn [app]. destruct (decide (v ∈ seen)) as [Hin | Hout].
  - rewrite filter_cons_False by (intros H; apply H, Hin).
    rewrite (IH seen), list_filter_filter. apply list_filter_iff.
    intros y. set_solver.
  - rewrite filter_cons_True by exact Hout.
    rewrite (uniqueLoop_app values ({[v]} ∪ seen) [v]), (IH ({[v]} ∪ seen)).
    cbn [app]. f_equal.
    rewrite list_filter_filter. apply list_filter_iff.
    intros y. set_solver.
Qed.

(** The equation that fixes [uniqueList]: the first value is kept and
    removed from what the rest gives. *)
Lemma uniqueList_cons v values :
  uniqueList (v :: values) = v :: filter (λ y, y ≠ v) (uniqueList values).
Proof.
  unfold uniqueList at 1. cbn [uniqueLoop app].
  rewrite (decide_False (P := v ∈ (∅ : gset string))) by set_solver.
  rewrite (uniqueLoop_app values ({[v]} ∪ ∅) [v]), uniqueLoop_filter.
  cbn [app]. f_equal.
  apply list_filter_iff. intros y. set_solver.
Qed.

Lemma uniqueList_elem_of (values : list string) (x : string) :
  x ∈ uniqueList values ↔ x ∈ values.
Proof.
  revert x. induction values as [| v l IH]; intros x; [reflexivity |].
  rewrite uniqueList_cons, !elem_of_cons, list_elem_of_filter, IH.
  destruct (decide (x = v)); tauto.
Qed.

Lemma uniqueList_NoDup (values : list string) : NoDup (uniqueList values).
Proof.
  induction values as [| v l IH]; [constructor |].
  rewrite uniqueList_cons. constructor; [| apply NoDup_filter, IH].
  rewrite list_elem_of_filter. tauto.
Qed.

Lemma uniqueList_fixed (values : list string) :
  NoDup values → uniqueList values = values.
Proof.
  induction values as [| v l IH]; intros Hl; [reflexivity |].
  apply NoDup_cons in Hl as [Hv Hl]. rewrite uniqueList_cons, IH by assumption.
  f_equal. apply filter_all. apply Forall_forall.
  intros y Hy ->. contradiction.
Qed.

(** X1. [uniqueList] keeps the first occurrence of every value and
    drops the later ones: the result has no duplicates and the same
    members as the input, its head is the head of the input followed by
    what the rest gives without that head, and a list without duplicates
    comes back unchanged (so the function is idempotent). *)
Theorem uniqueList_first_occurrences (values : list string) :
  NoDup (uniqueList values)
  ∧ (∀ x, x ∈ uniqueList values ↔ x ∈ values)
  ∧ uniqueList values `sublist_of` values
  ∧ (∀ v rest, values = v :: rest →
       uniqueList values = v :: filter (λ y, y ≠ v) (uniqueList rest))
  ∧ (NoDup values → uniqueList values = values)
  ∧ uniqueList (uniqueList values) = uniqueList values.
Proof.
  split; [apply uniqueList_NoDup |].
  split; [apply uniqueList_elem_of |].
  split; [| split; [| split]].
  - induction values as [| v l IH]; [reflexivity |].
    rewrite uniqueList_cons. apply sublist_skip.
    etransitivity; [apply sublist_filter | exact IH].
  - intros v rest ->. apply uniqueList_cons.
  - apply uniqueList_fixed.
  - apply uniqueList_fixed, uniqueList_NoDup.
Qed.

(** X2. The words [parseSimpleList] returns (login hosts, QoS names,
    accounts) are pairwise distinct, none is empty and none holds a white
    space character, each is one of the pieces between the runs of white
    space of the output, and each such non-empty piece is returned. *)
Theorem parseSimpleList_words (output : string) :
  NoDup (parseSimpleList output)
  ∧ (∀ word, word ∈ parseSimpleList output →
       word ≠ EmptyString ∧ noneOf Js.isSpace word = true)
  ∧ (∀ word, word ∈ parseSimpleList output ↔
       word ≠ EmptyString ∧ word ∈ splitRuns Js.isSpace output).
Proof.
  pose proof (uniqueList_NoDup (wordsOf output)) as Hnd.
  pose proof (uniqueList_elem_of (wordsOf output)) as Hmem.
  unfold parseSimpleList. split; [exact Hnd |]. split.
  - intros word Hin. apply Hmem, wordsOf_words in Hin. tauto.
  - intros word. rewrite Hmem. split.
    + intros Hin. apply wordsOf_words in Hin. tauto.
    + intros [Hne Hin]. unfold wordsOf. apply elem_of_keepTruthy.
      split; [exact Hne |]. apply list_elem_of_fmap. exists word.
      split; [| exact Hin].
      rewrite trim_no_space; [reflexivity |].
      apply (splitRunsFrom_pieces _ _ _ _ Hin).
Qed.

(** X3. The hosts [parseListInput] reads from the login-host field are
    not empty and hold neither white space nor a comma; the first of them,
    if any, is what [firstLoginHostFromInput] returns, and a field of
    white space and commas only gives none. *)
Theorem parseListInput_hosts (input : string) :
  (∀ host, host ∈ parseListInput input →
     host ≠ EmptyString ∧ noneOf isSpaceOrComma host = true)
  ∧ firstLoginHostFromInput input = head (parseListInput input)
  ∧ (allChars isSpaceOrComma input = true →
     parseListInput input = [] ∧ firstLoginHostFromInput input = None).
Proof.
  split; [| split].
  - intros host. unfold parseListInput.
    rewrite elem_of_keepTruthy, list_elem_of_fmap.
    intros [Hne (piece & -> & Hin)].
    pose proof (splitRunsFrom_pieces _ _ _ _ Hin) as Hpiece.
    assert (Hsp : noneOf Js.isSpace piece = true).
    { revert Hpiece. apply noneOf_weaken. intros a Ha.
      unfold isSpaceOrComma. rewrite Ha. reflexivity. }
    rewrite trim_no_space in Hne |- * by assumption. auto.
  - unfold firstLoginHostFromInput. destruct (parseListInput input); reflexivity.
  - intros Hall.
    assert (Hpieces : ∀ s inRun piece, allChars isSpaceOrComma s = true →
              piece ∈ splitRunsFrom isSpaceOrComma inRun s → piece = EmptyString).
    { clear. induction s as [| a s IH]; intros inRun piece Hs; simpl.
      - intros Hin. apply list_elem_of_singleton in Hin. exact Hin.
      - simpl in Hs. apply andb_prop in Hs as [Ha Hs]. rewrite Ha.
        destruct inRun; [apply IH, Hs |].
        intros Hin. apply elem_of_cons in Hin as [-> | Hin]; [reflexivity |].
        apply (IH true), Hin. exact Hs. }
    assert (Hnil : parseListInput input = []).
    { apply elem_of_nil_inv. intros host Hin. unfold parseListInput in Hin.
      apply elem_of_keepTruthy in Hin as [Hne Hin].
      apply list_elem_of_fmap in Hin as (piece & -> & Hin).
      apply Hpieces in Hin; [| exact Hall]. subst piece. apply Hne. reflexivity. }
    split; [exact Hnil |]. unfold firstLoginHostFromInput. rewrite Hnil. reflexivity.
Qed.

(** ** [splitArgs] and the arguments it is given back joined *)

Lemma splitRunsFrom_word sep word rest inRun :
  noneOf sep word = true → word ≠ EmptyString →
  splitRunsFrom sep inRun (word +:+ rest)
  = match splitRunsFrom sep false rest with
    | [] => [word]
    | h :: t => (word +:+ h) :: t
    end.
Proof.
  intros Hword Hne. destruct word as [| a word]; [contradiction |]. clear Hne.
  revert a Hword inRun. induction word as [| b word IH]; intros a Hword inRun.
  - unfold noneOf in Hword. simpl in Hword. apply andb_prop in Hword as [Ha _].
    apply negb_true_iff in Ha.
    change (String a EmptyString +:+ rest) with (String a rest).
    simpl. rewrite Ha. destruct (splitRunsFrom sep false rest); reflexivity.
  - unfold noneOf in Hword. simpl in Hword. apply andb_prop in Hword as [Ha Hw].
    apply negb_true_iff in Ha.
    change (String a (String b word) +:+ rest)
      with (String a (String b word +:+ rest)).
    cbn [splitRunsFrom]. rewrite Ha. rewrite (IH b Hw false).
    destruct (splitRunsFrom sep false rest); reflexivity.
Qed.

Lemma splitRunsFrom_nonempty sep inRun s : splitRunsFrom sep inRun s ≠ [].
Proof.
  revert inRun. induction s as [| a s IH]; intros inRun; simpl; [discriminate |].
  destruct (sep a).
  - destruct inRun; [apply IH | discriminate].
  - destruct (splitRunsFrom sep false s); discriminate.
Qed.

Lemma splitRuns_joined (words : list string) :
  Forall (λ w, w ≠ EmptyString ∧ noneOf Js.isSpace w = true) words →
  words ≠ [] →
  splitRuns Js.isSpace (Js.join " " words) = words.
Proof.
  unfold splitRuns. induction 1 as [| w words [Hne Hw] Hwords IH]; [done |].
  intros _. destruct words as [| w2 words].
  - simpl. rewrite <- (append_empty_r w) at 1.
    rewrite splitRunsFrom_word by assumption.
    simpl. rewrite append_empty_r. reflexivity.
  - change (Js.join " " (w :: w2 :: words))
      with (w +:+ String " " (Js.join " " (w2 :: words))).
    rewrite splitRunsFrom_word by assumption.
    cbn [splitRunsFrom]. change (Js.isSpace " ") with true. cbn iota.
    rewrite append_empty_r.
    apply Forall_cons in Hwords as [[Hne2 Hw2] Hwords'].
    assert (Hrun : ∀ rest, splitRunsFrom Js.isSpace true (w2 +:+ rest)
                           = splitRunsFrom Js.isSpace false (w2 +:+ rest)).
    { intros rest. rewrite !splitRunsFrom_word by assumption. reflexivity. }
    assert (Hjoin : ∃ rest, Js.join " " (w2 :: words) = w2 +:+ rest).
    { destruct words; [exists EmptyString; simpl; rewrite append_empty_r |
                       eexists]; reflexivity. }
    destruct Hjoin as [rest Hjoin]. rewrite Hjoin, Hrun, <- Hjoin.
    rewrite IH by discriminate. reflexivity.
Qed.

(** X4. Splitting what was joined gives the arguments back: for
    arguments that are not empty and hold no white space, [splitArgs] of
    their concatenation with single spaces is the list itself. *)
Theorem splitArgs_of_joined (args : list string) :
  Forall (λ arg, arg ≠ EmptyString ∧ noneOf Js.isSpace arg = true) args →
  splitArgs (Js.join " " args) = args.
Proof.
  intros Hargs. destruct args as [| a args]; [reflexivity |].
  unfold splitArgs. rewrite splitRuns_joined by (assumption || discriminate).
  unfold keepTruthy. apply filter_all.
  eapply Forall_impl; [exact Hargs |].
  intros arg [Hne _]. destruct arg; [contradiction | exact I].
Qed.

Lemma splitArgs_of_joined_witness :
  splitArgs (Js.join " " ["--gres=gpu:1"; "--mem=32G"; "--exclusive"])
  = ["--gres=gpu:1"; "--mem=32G"; "--exclusive"].
Proof.
  apply splitArgs_of_joined.
  repeat constructor; try discriminate; vm_compute; reflexivity.
Defined.

(** X5. Every argument [splitArgs] returns is not empty and holds no
    white space, whatever the text typed. *)
Theorem splitArgs_arguments (input arg : string) :
  arg ∈ splitArgs input →
  arg ≠ EmptyString ∧ noneOf Js.isSpace arg = true.
Proof.
  unfold splitArgs. rewrite elem_of_keepTruthy. intros [Hne Hin].
  split; [exact Hne |]. apply (splitRunsFrom_pieces _ _ _ _ Hin).
Qed.

Lemma splitArgs_arguments_witness :
  "--mem=32G" ≠ EmptyString ∧ noneOf Js.isSpace "--mem=32G" = true.
Proof.
  apply (splitArgs_arguments "  --gres=gpu:1   --mem=32G ").
  vm_compute. right. left.
Defined.

(** ** [parsePartitionOutput] *)

Lemma removeStars_no_star s : noneOf isStar (Js.removeStars s) = true.
Proof.
  unfold noneOf, isStar. induction s as [| a s IH]; simpl; [reflexivity |].
  destruct (Ascii.eqb a "*") eqn:Ha; simpl; [exact IH |].
  rewrite Ha, IH. reflexivity.
Qed.

Lemma removeStars_keeps_noneOf sep s :
  noneOf sep s = true → noneOf sep (Js.removeStars s) = true.
Proof.
  unfold noneOf. induction s as [| a s IH]; simpl; [reflexivity |].
  intros H. apply andb_prop in H as [Ha Hs].
  destruct (Ascii.eqb a "*"); simpl; [apply IH, Hs |].
  rewrite Ha, IH by assumption. reflexivity.
Qed.

Lemma foldl_partitionTokenStep_partitions words : ∀ acc,
  pr_partitions (foldl partitionTokenStep acc words)
  = uniqueLoop (cleanedNames words) (list_to_set (pr_partitions acc))
               (pr_partitions acc).
Proof.
  unfold cleanedNames, keepTruthy.
  induction words as [| w words IH]; intros acc; [reflexivity |].
  cbn [foldl fmap list_fmap]. rewrite IH. unfold partitionTokenStep.
  destruct (Js.removeStars w) as [| c cs] eqn:Hclean; cbn [Js.truthy negb].
  - rewrite filter_cons_False by (intros []). reflexivity.
  - rewrite filter_cons_True by exact I. cbn [pr_partitions uniqueLoop].
    destruct (decide (String c cs ∈ pr_partitions acc)) as [Hin | Hout].
    + rewrite decide_True by (apply elem_of_list_to_set, Hin). reflexivity.
    + rewrite decide_False by (rewrite elem_of_list_to_set; exact Hout).
      f_equal. rewrite list_to_set_app_L. simpl.
      rewrite (right_id_L ∅ (∪)). apply (comm_L (∪)).
Qed.

Lemma foldl_partitionTokenStep_default words : ∀ acc,
  (∀ d, pr_defaultPartition acc = Some d → d ≠ EmptyString) →
  pr_defaultPartition (foldl partitionTokenStep acc words)
  = match pr_defaultPartition acc with
    | Some d => Some d
    | None =>
        head (cleanedNames (filter (λ w, Is_true (Js.includes "*" w)) words))
    end.
Proof.
  unfold cleanedNames, keepTruthy.
  induction words as [| w words IH]; intros acc Hacc; cbn [foldl].
  - destruct (pr_defaultPartition acc); reflexivity.
  - rewrite IH.
    + unfold partitionTokenStep.
      destruct (Js.removeStars w) as [| c cs] eqn:Hclean; cbn [Js.truthy negb].
      * destruct (pr_defaultPartition acc); [reflexivity |].
        destruct (Js.includes "*" w) eqn:Hstar.
        -- rewrite filter_cons_True by (rewrite Hstar; exact I).
           cbn [fmap list_fmap]. rewrite Hclean.
           rewrite filter_cons_False by (intros []). reflexivity.
        -- rewrite filter_cons_False by (rewrite Hstar; intros []). reflexivity.
      * cbn [pr_defaultPartition].
        destruct (pr_defaultPartition acc) as [d |] eqn:Hd.
        -- assert (unsetDefault (Some d) = false) as ->.
           { specialize (Hacc d eq_refl). destruct d; [contradiction | reflexivity]. }
           rewrite andb_false_r. reflexivity.
        -- cbn [unsetDefault]. rewrite andb_true_r.
           destruct (Js.includes "*" w) eqn:Hstar.
           ++ rewrite filter_cons_True by (rewrite Hstar; exact I).
              cbn [fmap list_fmap]. rewrite Hclean.
              rewrite filter_cons_True by exact I. reflexivity.
           ++ rewrite filter_cons_False by (rewrite Hstar; intros []). reflexivity.
    + intros d. unfold partitionTokenStep.
      destruct (Js.removeStars w) as [| c cs] eqn:Hclean; cbn [Js.truthy negb];
        [apply Hacc |].
      cbn [pr_defaultPartition].
      destruct (Js.includes "*" w && unsetDefault (pr_defaultPartition acc));
        [intros [= <-]; discriminate | apply Hacc].
Qed.

(** X6. [parsePartitionOutput] lists the names its words stand for,
    stars removed and words made of stars only left out, each once and in
    the order of first appearance; no name is empty or holds a star or
    white space.  The default partition is the name of the first starred
    word that has a name: it is one of the listed partitions, and there is
    none exactly when no such word exists. *)
Theorem parsePartitionOutput_names (output : string) :
  let result := parsePartitionOutput output in
  let starred := filter (λ w, Is_true (Js.includes "*" w)) (wordsOf output) in
  pr_partitions result = uniqueList (cleanedNames (wordsOf output))
  ∧ NoDup (pr_partitions result)
  ∧ (∀ p, p ∈ pr_partitions result →
       p ≠ EmptyString ∧ noneOf isStar p = true ∧ noneOf Js.isSpace p = true)
  ∧ pr_defaultPartition result = head (cleanedNames starred)
  ∧ (∀ d, pr_defaultPartition result = Some d → d ∈ pr_partitions result).
Proof.
  intros result starred. subst result starred. unfold parsePartitionOutput.
  set (words := wordsOf output).
  assert (Hparts : pr_partitions (foldl partitionTokenStep
                      {| pr_partitions := []; pr_defaultPartition := None |} words)
                   = uniqueList (cleanedNames words)).
  { rewrite foldl_partitionTokenStep_partitions. reflexivity. }
  assert (Hdef : pr_defaultPartition (foldl partitionTokenStep
                      {| pr_partitions := []; pr_defaultPartition := None |} words)
                 = head (cleanedNames
                           (filter (λ w, Is_true (Js.includes "*" w)) words))).
  { rewrite foldl_partitionTokenStep_default; [reflexivity | discriminate]. }
  pose proof (uniqueList_NoDup (cleanedNames words)) as Hnd.
  pose proof (uniqueList_elem_of (cleanedNames words)) as Hmem.
  rewrite Hparts, Hdef. split; [reflexivity |]. split; [exact Hnd |].
  split; [| split; [reflexivity |]].
  - intros p Hp. apply Hmem in Hp. unfold cleanedNames in Hp.
    apply elem_of_keepTruthy in Hp as [Hne Hp].
    apply list_elem_of_fmap in Hp as (w & -> & Hw).
    split; [exact Hne |]. split; [apply removeStars_no_star |].
    apply removeStars_keeps_noneOf. subst words.
    apply wordsOf_words in Hw. tauto.
  - intros d Hd. apply Hmem. apply head_Some_elem_of in Hd.
    unfold cleanedNames in Hd |- *.
    apply elem_of_keepTruthy in Hd as [Hne Hd].
    apply elem_of_keepTruthy. split; [exact Hne |].
    apply list_elem_of_fmap in Hd as (w & -> & Hw).
    apply list_elem_of_fmap. exists w. split; [reflexivity |].
    apply list_elem_of_filter in Hw. tauto.
Qed.

Example parsePartitionOutput_sample :
  parsePartitionOutput "cpu gpu* himem* ** cpu"
  = {| pr_partitions := ["cpu"; "gpu"; "himem"];
       pr_defaultPartition := Some "gpu" |}.
Proof. vm_compute. reflexivity. Qed.

(** ** The default alias *)

Lemma sanitizeAlias_safe s : allChars isAliasChar (sanitizeAlias s) = true.
Proof.
  induction s as [| a s IH]; simpl; [reflexivity |].
  rewrite IH, andb_true_r. destruct (isAliasChar a) eqn:Ha; [exact Ha | reflexivity].
Qed.

Lemma sanitizeAlias_length s : String.length (sanitizeAlias s) = String.length s.
Proof. induction s as [| a s IH]; simpl; [| rewrite IH]; reflexivity. Qed.

Lemma sanitizeAlias_fixed s : allChars isAliasChar s = true → sanitizeAlias s = s.
Proof.
  induction s as [| a s IH]; simpl; [reflexivity |].
  intros H. apply andb_prop in H as [Ha Hs]. rewrite Ha, IH by assumption.
  reflexivity.
Qed.

Lemma aliasChar_not_space a : isAliasChar a = true → Js.isSpace a = false.
Proof.
  unfold isAliasChar, Js.isSpace. set (n := N_of_ascii a). intros H.
  apply not_true_is_false. intros Hs.
  repeat first [rewrite orb_true_iff in H | rewrite andb_true_iff in H
               | rewrite N.leb_le in H | rewrite N.eqb_eq in H].
  repeat first [rewrite orb_true_iff in Hs | rewrite andb_true_iff in Hs
               | rewrite N.leb_le in Hs | rewrite N.eqb_eq in Hs].
  lia.
Qed.

Lemma join_two_nonempty sep x y rest :
  sep ≠ EmptyString → Js.join sep (x :: y :: rest) ≠ EmptyString.
Proof.
  intros Hsep. change (Js.join sep (x :: y :: rest))
    with (x +:+ sep +:+ Js.join sep (y :: rest)).
  destruct x; [| discriminate]. destruct sep; [contradiction | discriminate].
Qed.

Lemma safe_alias_has_no_space alias :
  allChars isAliasChar alias = true → Js.trim alias = alias.
Proof.
  intros Hsafe. apply trim_no_space. revert Hsafe. apply allChars_weaken.
  intros a Ha. rewrite (aliasChar_not_space a Ha). reflexivity.
Qed.

Lemma buildDefaultAlias_trim prefix loginHost partition nodeCount cpusPerTask :
  Js.trim (buildDefaultAlias prefix loginHost partition nodeCount cpusPerTask)
  = buildDefaultAlias prefix loginHost partition nodeCount cpusPerTask.
Proof. apply safe_alias_has_no_space, sanitizeAlias_safe. Qed.

(** X7. The default alias is never empty and is made of letters,
    digits, [_] and [-] only, whatever the prefix, the login host and the
    partition are; it has no white space to trim, and sanitizing it again
    changes nothing. *)
Theorem buildDefaultAlias_is_safe (prefix loginHost : string)
    (partition : option string) (nodeCount cpusPerTask : Z) :
  let alias := buildDefaultAlias prefix loginHost partition nodeCount cpusPerTask in
  alias ≠ EmptyString
  ∧ allChars isAliasChar alias = true
  ∧ Js.trim alias = alias
  ∧ sanitizeAlias alias = alias.
Proof.
  intros alias. subst alias. unfold buildDefaultAlias.
  set (pieces := (if truthyStr partition then _ else _) ++ _).
  assert (Hsafe : allChars isAliasChar (sanitizeAlias (Js.join "-" pieces)) = true)
    by apply sanitizeAlias_safe.
  split; [| split; [exact Hsafe | split]].
  - assert (Hjoin : Js.join "-" pieces ≠ EmptyString).
    { subst pieces. destruct (truthyStr partition); cbn [app];
        apply join_two_nonempty; discriminate. }
    destruct (Js.join "-" pieces); [contradiction | discriminate].
  - apply safe_alias_has_no_space, Hsafe.
  - apply sanitizeAlias_fixed, Hsafe.
Qed.

Example buildDefaultAlias_sample :
  buildDefaultAlias "sciama" "login1.sciama.icg.port.ac.uk" (Some "gpu.q") 2 8
  = "sciama-login1-gpu-q-2n-8c".
Proof. vm_compute. reflexivity. Qed.

(** ** Numbers inside a field *)

Lemma readDigits_run digits rest : ∀ acc,
  Js.allDigitsFrom digits = true →
  (match rest with String a _ => Js.isDigit a = false | EmptyString => True end) →
  Js.readDigits acc (digits +:+ rest) = Js.readDigits acc digits.
Proof.
  induction digits as [| d digits IH]; intros acc Hd Hrest; simpl.
  - destruct rest as [| a rest]; [reflexivity |]. simpl. rewrite Hrest. reflexivity.
  - simpl in Hd. apply andb_prop in Hd as [Hd1 Hd2]. rewrite Hd1.
    apply IH; assumption.
Qed.

Lemma matchDigits_skip before rest :
  allChars (λ a, negb (Js.isDigit a)) before = true →
  Js.matchDigits (before +:+ rest) = Js.matchDigits rest.
Proof.
  induction before as [| a before IH]; simpl; [reflexivity |].
  intros H. apply andb_prop in H as [Ha Hb]. apply negb_true_iff in Ha.
  rewrite Ha. apply IH, Hb.
Qed.

(** X8. [parseNumericField] reads the first run of digits of a field
    and nothing else: text without digits in front of the run (a label)
    and whatever follows it (a unit, a second number) do not change the
    result, which is the value of the run. *)
Theorem parseNumericField_first_run (before digits rest : string) :
  allChars (λ a, negb (Js.isDigit a)) before = true →
  Js.allDigits digits = true →
  (match rest with String a _ => Js.isDigit a = false | EmptyString => True end) →
  parseNumericField (before +:+ digits +:+ rest) = Js.numberOfDigits digits.
Proof.
  intros Hbefore Hdigits Hrest. unfold parseNumericField, Js.numberOfDigits.
  rewrite matchDigits_skip by assumption.
  unfold Js.allDigits in Hdigits. apply andb_prop in Hdigits as [Hne Hd].
  destruct digits as [| d digits]; [discriminate |].
  change (String d digits +:+ rest) with (String d (digits +:+ rest)).
  cbn [Js.matchDigits].
  pose proof Hd as Hd'. simpl in Hd'. apply andb_prop in Hd' as [Hd1 _].
  rewrite Hd1.
  change (String d (digits +:+ rest)) with (String d digits +:+ rest).
  rewrite readDigits_run by assumption. reflexivity.
Qed.

Lemma parseNumericField_first_run_witness :
  parseNumericField ("mem=" +:+ "128000" +:+ "M/256000M") = 128000%N.
Proof.
  apply (parseNumericField_first_run "mem=" "128000" "M/256000M");
    vm_compute; reflexivity.
Defined.

(** ** The widest line *)

Lemma foldl_max_count (lines : list string) : ∀ start,
  let count := λ line, length (Js.split "|" line) in
  let result :=
    foldl (λ max line, if (max <? count line)%nat then count line else max)
          start lines in
  (start ≤ result)%nat
  ∧ (∀ line, line ∈ lines → (count line ≤ result)%nat)
  ∧ (result = start ∨ ∃ line, line ∈ lines ∧ count line = result).
Proof.
  induction lines as [| l lines IH]; intros start; cbn zeta.
  - split; [reflexivity |]. split; [| left; reflexivity].
    intros line Hin. apply elem_of_nil in Hin. contradiction.
  - cbn [foldl].
    set (next := if (start <? length (Js.split "|" l))%nat
                 then length (Js.split "|" l) else start).
    assert (Hnext : (start ≤ next)%nat ∧ (length (Js.split "|" l) ≤ next)%nat
                    ∧ (next = start ∨ next = length (Js.split "|" l))).
    { subst next. destruct (Nat.ltb_spec start (length (Js.split "|" l))); lia. }
    destruct (IH next) as (Hge & Hall & Hhit). cbn zeta in Hge, Hall, Hhit.
    split; [lia |]. split.
    + intros line Hin. apply elem_of_cons in Hin as [-> | Hin];
        [lia | apply Hall, Hin].
    + destruct Hhit as [Heq | (line & Hin & Heq)].
      * destruct Hnext as (_ & _ & [Hs | Hl]);
          [left; lia | right; exists l; split; [left | lia]].
      * right. exists line. split; [right; exact Hin | exact Heq].
Qed.

Lemma split_nonempty c s : (1 ≤ length (Js.split c s))%nat.
Proof.
  induction s as [| a s IH]; simpl; [lia |].
  destruct (Ascii.eqb a c); simpl; [lia |].
  destruct (Js.split c s); simpl in *; lia.
Qed.

(** X9. [getMaxFieldCount] is the largest number of fields, cut at the
    bars, over the lines of the output that are not blank: no such line
    has more fields, one of them has exactly that many, and the count is 0
    exactly when every line is blank. *)
Theorem getMaxFieldCount_is_maximum (output : string) :
  let count := λ line, length (Js.split "|" line) in
  (∀ line, line ∈ countedLines output →
     (count line ≤ getMaxFieldCount output)%nat)
  ∧ (countedLines output ≠ [] →
     ∃ line, line ∈ countedLines output ∧ count line = getMaxFieldCount output)
  ∧ (getMaxFieldCount output = 0%nat ↔ countedLines output = []).
Proof.
  intros count. subst count. unfold getMaxFieldCount. fold (countedLines output).
  destruct (foldl_max_count (countedLines output) 0) as (_ & Hall & Hhit).
  cbn zeta in Hall, Hhit.
  split; [exact Hall |].
  assert (Hpos : countedLines output ≠ [] →
            ∃ line, line ∈ countedLines output
                    ∧ length (Js.split "|" line)
                      = foldl (λ max line,
                                 if (max <? length (Js.split "|" line))%nat
                                 then length (Js.split "|" line) else max)
                              0%nat (countedLines output)).
  { intros Hne. destruct Hhit as [Hzero | Hline]; [| exact Hline].
    destruct (countedLines output) as [| l ls] eqn:Hlines; [contradiction |].
    exists l. split; [left |].
    pose proof (Hall l ltac:(left)) as Hle.
    pose proof (split_nonempty "|" l). lia. }
  split; [exact Hpos |]. split.
  - intros Hzero. destruct (countedLines output) as [| l ls] eqn:Hlines;
      [reflexivity |].
    destruct Hpos as (line & _ & Hcount); [discriminate |].
    pose proof (split_nonempty "|" line). lia.
  - intros ->. reflexivity.
Qed.

(** ** The wall-time pattern *)

Lemma digit_not_colon a : Js.isDigit a = true → Ascii.eqb a ":" = false.
Proof.
  intros H. apply digit_is_plain in H. unfold plainChar in H.
  apply andb_prop in H as [H _]. apply andb_prop in H as [H _].
  apply negb_true_iff in H. exact H.
Qed.

Lemma digit_not_dash a : Js.isDigit a = true → Ascii.eqb a "-" = false.
Proof.
  unfold Js.isDigit. intros H. apply andb_prop in H as [Hlo Hhi].
  apply N.leb_le in Hlo, Hhi.
  destruct (Ascii.eqb_spec a "-") as [-> | _]; [simpl in *; lia | reflexivity].
Qed.

Lemma matchClock_iff s :
  matchClock s = true ↔ ∃ hh mm ss, s = clockText hh mm ss ∧ clockParts hh mm ss.
Proof.
  unfold clockText, clockParts. split.
  - unfold matchClock.
    destruct s as [| a0 [| a1 s]]; try discriminate.
    destruct (Js.isDigit a0 && Ascii.eqb a1 ":") eqn:Hone.
    + apply andb_prop in Hone as [Hd0 Hc1]. apply Ascii.eqb_eq in Hc1 as ->.
      destruct s as [| m1 [| m2 [| c [| s1 [| s2 [| x s]]]]]]; try discriminate.
      intros H. apply andb_prop in H as [H Hs2]. apply andb_prop in H as [H Hs1].
      apply andb_prop in H as [H Hc]. apply andb_prop in H as [Hm1 Hm2].
      apply Ascii.eqb_eq in Hc as ->.
      exists (String a0 EmptyString), (String m1 (String m2 EmptyString)),
             (String s1 (String s2 EmptyString)).
      split; [reflexivity |]. cbn [Js.allDigitsFrom String.length].
      repeat match goal with
        Hd : Js.isDigit ?x = true |- context [Js.isDigit ?x] => rewrite Hd end.
      auto 10.
    + destruct s as [| a2 s]; try discriminate.
      destruct (Js.isDigit a0 && Js.isDigit a1 && Ascii.eqb a2 ":") eqn:Htwo;
        try discriminate.
      apply andb_prop in Htwo as [Hd Hc2]. apply andb_prop in Hd as [Hd0 Hd1].
      apply Ascii.eqb_eq in Hc2 as ->.
      destruct s as [| m1 [| m2 [| c [| s1 [| s2 [| x s]]]]]]; try discriminate.
      intros H. apply andb_prop in H as [H Hs2]. apply andb_prop in H as [H Hs1].
      apply andb_prop in H as [H Hc]. apply andb_prop in H as [Hm1 Hm2].
      apply Ascii.eqb_eq in Hc as ->.
      exists (String a0 (String a1 EmptyString)),
             (String m1 (String m2 EmptyString)),
             (String s1 (String s2 EmptyString)).
      split; [reflexivity |]. cbn [Js.allDigitsFrom String.length].
      repeat match goal with
        Hd : Js.isDigit ?x = true |- context [Js.isDigit ?x] => rewrite Hd end.
      auto 10.
  - intros (hh & mm & ss & -> & Hh & Hlen & Hm & Hmlen & Hs & Hslen).
    destruct mm as [| m1 [| m2 [| ? ?]]]; try discriminate.
    destruct ss as [| s1 [| s2 [| ? ?]]]; try discriminate.
    cbn [Js.allDigitsFrom] in Hm, Hs.
    apply andb_prop in Hm as [Hm1 Hm2]. apply andb_prop in Hm2 as [Hm2 _].
    apply andb_prop in Hs as [Hs1 Hs2]. apply andb_prop in Hs2 as [Hs2 _].
    destruct Hlen as [Hlen | Hlen].
    + destruct hh as [| h1 [| ? ?]]; try discriminate.
      cbn [Js.allDigitsFrom] in Hh. apply andb_prop in Hh as [Hh _].
      cbv [String.append]. unfold matchClock. cbn -[Js.isDigit].
      rewrite Hh. cbn -[Js.isDigit]. rewrite Hm1, Hm2, Hs1, Hs2. reflexivity.
    + destruct hh as [| h1 [| h2 [| ? ?]]]; try discriminate.
      cbn [Js.allDigitsFrom] in Hh.
      apply andb_prop in Hh as [Hh1 Hh2]. apply andb_prop in Hh2 as [Hh2 _].
      cbv [String.append]. unfold matchClock. cbn -[Js.isDigit Ascii.eqb].
      rewrite (digit_not_colon h2 Hh2), andb_false_r, Hh1, Hh2.
      cbn -[Js.isDigit]. rewrite Hm1, Hm2, Hs1, Hs2. reflexivity.
Qed.

Lemma matchDaysThenClock_iff s : ∀ seenDigit,
  matchDaysThenClock seenDigit s = true ↔
  ∃ days clock,
    s = days +:+ String "-" clock
    ∧ Js.allDigitsFrom days = true
    ∧ (seenDigit = true ∨ days ≠ EmptyString)
    ∧ matchClock clock = true.
Proof.
  induction s as [| a s IH]; intros seenDigit; cbn [matchDaysThenClock].
  - split; [discriminate |]. intros (days & clock & Heq & _).
    destruct days; discriminate.
  - destruct (Js.isDigit a) eqn:Hd.
    + rewrite IH. split.
      * intros (days & clock & -> & Hdays & _ & Hclock).
        exists (String a days), clock. cbn [Js.allDigitsFrom]. rewrite Hd.
        repeat split; auto; right; discriminate.
      * intros (days & clock & Heq & Hdays & _ & Hclock).
        destruct days as [| d days].
        -- change (String a s = String "-" clock) in Heq.
           injection Heq as -> ->. vm_compute in Hd. discriminate.
        -- change (String a s = String d (days +:+ String "-" clock)) in Heq.
           injection Heq as -> ->.
           cbn [Js.allDigitsFrom] in Hdays. apply andb_prop in Hdays as [_ Hdays].
           exists days, clock. auto.
    + destruct (Ascii.eqb_spec a "-") as [-> | Hne].
      * split.
        -- intros H. apply andb_prop in H as [-> Hclock].
           exists EmptyString, s. auto.
        -- intros (days & clock & Heq & Hdays & Hseen & Hclock).
           destruct days as [| d days].
           ++ change (String "-" s = String "-" clock) in Heq.
              injection Heq as ->.
              destruct Hseen as [-> | Hseen]; [| contradiction]. exact Hclock.
           ++ change (String "-" s = String d (days +:+ String "-" clock)) in Heq.
              injection Heq as <- ->. cbn [Js.allDigitsFrom] in Hdays.
              rewrite Hd in Hdays. discriminate.
      * split; [discriminate |].
        intros (days & clock & Heq & Hdays & _).
        destruct days as [| d days].
        -- change (String a s = String "-" clock) in Heq.
           injection Heq as -> _. contradiction.
        -- change (String a s = String d (days +:+ String "-" clock)) in Heq.
           injection Heq as <- _. cbn [Js.allDigitsFrom] in Hdays.
           rewrite Hd in Hdays. discriminate.
Qed.

(** X10. The wall-time pattern of [promptTime] accepts exactly the
    texts [hh:mm:ss] and [d-hh:mm:ss] where [hh] is one or two digits,
    [mm] and [ss] are two digits each and [d] is a non-empty run of
    digits; nothing may precede or follow. *)
Theorem timePattern_accepts_exactly (s : string) :
  timePattern s = true ↔
  ∃ days hh mm ss,
    clockParts hh mm ss
    ∧ (s = clockText hh mm ss
       ∨ (Js.allDigits days = true ∧ s = days +:+ "-" +:+ clockText hh mm ss)).
Proof.
  unfold timePattern. rewrite orb_true_iff, matchClock_iff, matchDaysThenClock_iff.
  split.
  - intros [(hh & mm & ss & -> & Hparts)
           | (days & clock & -> & Hdays & Hseen & Hclock)].
    + exists EmptyString, hh, mm, ss. auto.
    + apply matchClock_iff in Hclock as (hh & mm & ss & -> & Hparts).
      exists days, hh, mm, ss. split; [exact Hparts |]. right.
      split; [| reflexivity]. unfold Js.allDigits. rewrite Hdays, andb_true_r.
      destruct Hseen as [? | Hne]; [discriminate |].
      destruct days; [contradiction | reflexivity].
  - intros (days & hh & mm & ss & Hparts & [-> | [Hdays ->]]).
    + left. exists hh, mm, ss. auto.
    + right. exists days, (clockText hh mm ss).
      unfold Js.allDigits in Hdays. apply andb_prop in Hdays as [Hne Hdays].
      split; [reflexivity |]. split; [exact Hdays |]. split.
      * right. intros ->. discriminate.
      * apply matchClock_iff. exists hh, mm, ss. auto.
Qed.

Example timePattern_samples :
  timePattern "01:00:00" = true ∧ timePattern "7-12:30:00" = true
  ∧ timePattern "1:00:00" = true ∧ timePattern "001:00:00" = false
  ∧ timePattern "01:00" = false ∧ timePattern "-01:00:00" = false
  ∧ timePattern " 01:00:00" = false ∧ timePattern "01:00:00;ls" = false.
Proof. repeat split; reflexivity. Qed.

(** ** The flags of the allocation request *)

Local Ltac solve_sublist :=
  solve [repeat first [apply sublist_nil | apply sublist_skip | apply sublist_cons]].

(** X11. [buildSallocArgs] emits its flags in one fixed order,
    partition, nodes, tasks per node, CPUs per task, time, QoS, account,
    memory, GRES: the four sizing flags are always there, and each of the
    others is there exactly when its value is set (a non-empty text, a
    number above 0). *)
Theorem buildSallocArgs_flag_order (params : SallocParams) :
  let names := flagName <$> buildSallocArgs params in
  names `sublist_of` flagOrder
  ∧ ["--nodes"; "--ntasks-per-node"; "--cpus-per-task"; "--time"]
      `sublist_of` names
  ∧ ("--partition" ∈ names ↔ truthyStr (sp_partition params) = true)
  ∧ ("--qos" ∈ names ↔ truthyStr (sp_qos params) = true)
  ∧ ("--account" ∈ names ↔ truthyStr (sp_account params) = true)
  ∧ ("--mem" ∈ names ↔ (0 < default 0 (sp_memoryMb params))%Z)
  ∧ ("--gres" ∈ names ↔ (0 < default 0 (sp_gpuCount params))%Z).
Proof.
  intros names. subst names. unfold buildSallocArgs, flagOrder.
  assert (Hnum : ∀ o : option Z,
            truthyNum o && (0 <? default 0 o)%Z = true ↔ (0 < default 0 o)%Z).
  { intros [n |]; simpl; [| split; [discriminate | lia]].
    destruct (Z.eqb_spec n 0), (Z.ltb_spec 0 n); simpl; split;
      try discriminate; try reflexivity; lia. }
  pose proof (Hnum (sp_memoryMb params)) as Hmem.
  pose proof (Hnum (sp_gpuCount params)) as Hgpu. clear Hnum.
  destruct (truthyStr (sp_partition params)),
           (truthyStr (sp_qos params)),
           (truthyStr (sp_account params)),
           (truthyNum (sp_memoryMb params)
            && (0 <? default 0 (sp_memoryMb params))%Z),
           (truthyNum (sp_gpuCount params)
            && (0 <? default 0 (sp_gpuCount params))%Z);
    try destruct (Js.truthy _);
    cbn [app fmap list_fmap];
    (split; [solve_sublist |]);
    (split; [solve_sublist |]);
    rewrite <- ?Hmem, <- ?Hgpu;
    repeat split; intros H; try reflexivity; try discriminate;
    repeat match goal with
    | H : _ ∈ _ :: _ |- _ => apply elem_of_cons in H as [H | H]
    | H : _ ∈ [] |- _ => apply elem_of_nil in H; contradiction
    | H : _ = flagName _ |- _ => vm_compute in H; discriminate
    end;
    try (apply list_elem_of_In; simpl; vm_compute; tauto).
Qed.

(** ** Writing the overlay *)

Lemma writeTemporarySshConfig_written env alias entry cfg ops written :
  writeTemporarySshConfig env alias entry cfg = (ops, inr written) →
  written = overlayPath env cfg
  ∧ ops = [Mkdir (pathDirname env written);
           WriteFile written (overlayHeader +:+ entry)].
Proof.
  unfold writeTemporarySshConfig. fold (overlayPath env cfg).
  destruct (fsError env (Mkdir _)); [discriminate |].
  destruct (fsError env (WriteFile _ _)); [discriminate |].
  intros [= <- <-]. split; reflexivity.
Qed.

(** ** A non-interactive run that writes the overlay *)

(** X13. When a non-interactive run of [connectCommand] writes the
    overlay, its steps are exactly: the launch command is built (and is
    not empty), the directory is created, the file is written.  The file
    holds the overlay header and the host block of the default alias for
    the chosen login host and that command, at the overlay path, and the
    sizing settings are set. *)
Theorem connectCommand_written_overlay (env : Env) (cfg : SciamaConfig)
    (loginHost path : string) :
  (connectCommand env cfg loginHost).2 = Some path →
  let partition :=
    if Js.truthy (Cfg.defaultPartition cfg) then Some (Cfg.defaultPartition cfg)
    else None in
  let alias :=
    buildDefaultAlias
      (if Js.truthy (Cfg.sshHostPrefix cfg) then Cfg.sshHostPrefix cfg
       else "sciama")
      loginHost partition (Cfg.defaultNodes cfg) (Cfg.defaultCpusPerTask cfg) in
  ∃ remoteCommand,
    Js.truthy remoteCommand = true
    ∧ remoteCommand
      = composeRemoteCommand cfg
          {| sp_partition := partition; sp_nodes := Cfg.defaultNodes cfg;
             sp_tasksPerNode := Cfg.defaultTasksPerNode cfg;
             sp_cpusPerTask := Cfg.defaultCpusPerTask cfg;
             sp_time := Cfg.defaultTime cfg;
             sp_memoryMb := Some (Cfg.defaultMemoryMb cfg);
             sp_gpuType := Some (Cfg.defaultGpuType cfg);
             sp_gpuCount := Some (Cfg.defaultGpuCount cfg);
             sp_qos := None; sp_account := None |} []
    ∧ path = overlayPath env cfg
    ∧ (connectCommand env cfg loginHost).1
      = [ BuiltRemoteCommand remoteCommand;
          Fs (Mkdir (pathDirname env path));
          Fs (WriteFile path
                (overlayHeader
                 +:+ buildHostEntry env alias loginHost cfg remoteCommand)) ]
    ∧ sizingIsSet cfg = true.
Proof.
  intros Hpath partition alias. revert Hpath.
  unfold sizingIsSet, connectCommand.
  destruct (Js.truthy loginHost); cbn [negb snd]; [| discriminate].
  destruct (Z.eqb_spec (Cfg.defaultNodes cfg) 0),
           (Z.ltb_spec (Cfg.defaultNodes cfg) 1),
           (Z.leb_spec 1 (Cfg.defaultNodes cfg));
    try lia; cbn [orb snd]; try discriminate.
  destruct (Z.eqb_spec (Cfg.defaultTasksPerNode cfg) 0),
           (Z.ltb_spec (Cfg.defaultTasksPerNode cfg) 1),
           (Z.leb_spec 1 (Cfg.defaultTasksPerNode cfg));
    try lia; cbn [orb snd]; try discriminate.
  destruct (Z.eqb_spec (Cfg.defaultCpusPerTask cfg) 0),
           (Z.ltb_spec (Cfg.defaultCpusPerTask cfg) 1),
           (Z.leb_spec 1 (Cfg.defaultCpusPerTask cfg));
    try lia; cbn [orb snd]; try discriminate.
  destruct (Js.truthy (Cfg.defaultTime cfg)); cbn [negb snd andb];
    [| discriminate].
  fold partition. fold alias.
  set (remoteCommand := composeRemoteCommand cfg _ []).
  destruct (Js.truthy remoteCommand) eqn:Hcmd; cbn [negb snd]; [| discriminate].
  assert (Htrim : Js.trim alias = alias) by apply buildDefaultAlias_trim.
  rewrite !Htrim.
  destruct (writeTemporarySshConfig env alias _ cfg) as [ops [e | written]]
    eqn:Hwrite; cbn [snd fst]; [discriminate |].
  intros [= ->].
  apply writeTemporarySshConfig_written in Hwrite as [Hp ->].
  exists remoteCommand. repeat split; auto.
Qed.

Lemma connectCommand_written_overlay_witness :
  ∃ remoteCommand,
    (connectCommand (sampleEnv inl) plainConfig "login1.example.com").1
    = [ BuiltRemoteCommand remoteCommand;
        Fs (Mkdir "/tmp");
        Fs (WriteFile "/tmp/sciama-ssh-config"
              (overlayHeader
               +:+ buildHostEntry (sampleEnv inl) "sciama-login1-1n-1c"
                     "login1.example.com" plainConfig remoteCommand)) ].
Proof.
  destruct (connectCommand_written_overlay (sampleEnv inl) plainConfig
              "login1.example.com" "/tmp/sciama-ssh-config")
    as (remoteCommand & _ & _ & _ & Hsteps & _);
    [vm_compute; reflexivity |].
  exists remoteCommand. exact Hsteps.
Defined.

(** ** What a successful fetch returns *)

Lemma judge_Return output info :
  judge output info = Return →
  hasMeaningfulClusterInfo info = true
  ∧ (5 ≤ getMaxFieldCount output)%nat
  ∧ (Js.includes "gpu:" output = true →
     existsb (λ partition, (0 <? gpuMax partition)%N) (partitions info) = true).
Proof.
  unfold judge.
  destruct (Js.includes "gpu:" output);
    destruct (existsb _ (partitions info)); cbn [andb negb];
    try discriminate;
    destruct (Nat.ltb_spec (getMaxFieldCount output) 5); try discriminate;
    destruct (hasMeaningfulClusterInfo info); try discriminate;
    intros _; repeat split; auto; discriminate.
Qed.

(** X14. A fetch that succeeds returns the parsed output of the first
    candidate that is accepted, all candidates before it having answered
    and been passed over; an accepted result is meaningful, comes from an
    output with at least five fields on some line, and has a partition
    with GPUs whenever the output mentions [gpu:].  When no candidate is
    accepted the fetch returns the parsed output of the last candidate,
    and the initial result when there is no candidate at all. *)
Theorem fetch_returns_first_accepted_or_last (env : Env) (loginHost : string)
    (cfg : SciamaConfig) (commands : list string) (lastInfo info : ClusterInfo) :
  fetchLoop env loginHost cfg commands lastInfo = inr info →
  (∃ pre command post output,
     commands = pre ++ command :: post
     ∧ Forall (passedOver env loginHost cfg) pre
     ∧ runSshCommand env loginHost cfg command = inr output
     ∧ info = parsePartitionInfoOutput (localeCompare env) output
     ∧ hasMeaningfulClusterInfo info = true
     ∧ (5 ≤ getMaxFieldCount output)%nat
     ∧ (Js.includes "gpu:" output = true →
        existsb (λ partition, (0 <? gpuMax partition)%N) (partitions info) = true))
  ∨ (Forall (passedOver env loginHost cfg) commands
     ∧ (commands = [] → info = lastInfo)
     ∧ (∀ command, last commands = Some command →
          ∃ output,
            runSshCommand env loginHost cfg command = inr output
            ∧ info = parsePartitionInfoOutput (localeCompare env) output)).
Proof.
  revert lastInfo.
  induction commands as [| c rest IH]; intros lastInfo; cbn [fetchLoop].
  - intros [= <-]. right. split; [constructor |]. split; [reflexivity |].
    intros command Hlast. discriminate.
  - destruct (runSshCommand env loginHost cfg c) as [e | output] eqn:Hrun;
      [discriminate |].
    destruct (judge output _) eqn:Hjudge.
    + intros [= <-]. left.
      destruct (judge_Return _ _ Hjudge) as (Hmean & Hfields & Hgpu).
      exists [], c, rest, output. repeat split; auto.
    + intros Hfetch. destruct (IH _ Hfetch)
        as [(pre & command & post & out & -> & Hpre & Hout & Hinfo & Hrest)
           | (Hall & Hnil & Hlast)].
      * left. exists (c :: pre), command, post, out.
        split; [reflexivity |]. split; [| auto].
        constructor; [exists output; auto | exact Hpre].
      * right. split; [constructor; [exists output; auto | exact Hall] |].
        split; [discriminate |].
        intros command Hcmd. destruct rest as [| c1 rest].
        -- injection Hcmd as <-. exists output. split; [exact Hrun |].
           apply Hnil. reflexivity.
        -- apply Hlast. exact Hcmd.
Qed.

Lemma fetch_returns_first_accepted_or_last_witness :
  let env := sampleEnv (λ _, inr "gpu*|node-01|64|128000|gpu:a100:4") in
  ∃ info,
    fetchLoop env "login" plainConfig [nodeReportCommand] emptyClusterInfo
    = inr info
    ∧ hasMeaningfulClusterInfo info = true.
Proof.
  intros env.
  set (info := {| partitions :=
                    [ {| name := "gpu"; nodes := 1; cpus := 64; memMb := 128000;
                         gpuMax := 4; gpuTypes := {[ "a100" := Count 4 ]};
                         isDefault := true |} ];
                  defaultPartition := Some "gpu" |}).
  assert (Hfetch : fetchLoop env "login" plainConfig [nodeReportCommand]
                             emptyClusterInfo = inr info)
    by (vm_compute; reflexivity).
  exists info. split; [exact Hfetch |].
  destruct (fetch_returns_first_accepted_or_last env "login" plainConfig
              [nodeReportCommand] emptyClusterInfo info Hfetch)
    as [(pre & command & post & output & _ & _ & _ & _ & Hmean & _)
       | (_ & _ & _)].
  - exact Hmean.
  - vm_compute. reflexivity.
Defined.

(** ** The records of a whole report *)

Lemma foldl_processLine_rows lines : ∀ st,
  foldl processLine st lines = foldl applyRow st (parsedRows lines).
Proof.
  unfold parsedRows.
  induction lines as [| l lines IH]; intros st; [reflexivity |].
  cbn [foldl omap list_omap]. rewrite IH. unfold processLine.
  destruct (parseLine l); reflexivity.
Qed.

Lemma parsePartitionInfoOutput_rows compare output :
  parsePartitionInfoOutput compare output
  = let st := stateAfter (parsedRows (reportLines output)) in
    {| partitions :=
         sortBy (λ a b, compare (name a) (name b))
                (finalizeNodes (st_nodeSets st) <$> st_partitions st);
       defaultPartition := st_default st |}.
Proof.
  unfold parsePartitionInfoOutput, parseLines, stateAfter.
  rewrite foldl_processLine_rows. reflexivity.
Qed.

Lemma stateAfter_snoc rows row :
  stateAfter (rows ++ [row]) = applyRow (stateAfter rows) row.
Proof. unfold stateAfter. rewrite foldl_app. reflexivity. Qed.

Lemma stateAfter_wellKeyed rows : wellKeyed (stateAfter rows).
Proof.
  induction rows as [| row rows IH] using rev_ind; [apply wellKeyed_initial |].
  rewrite stateAfter_snoc. apply applyRow_wellKeyed, IH.
Qed.

Lemma rowsOf_snoc n rows row :
  rowsOf n (rows ++ [row])
  = rowsOf n rows ++ (if contributesTo row n then [row] else []).
Proof.
  unfold rowsOf. rewrite filter_app. f_equal.
  destruct (contributesTo row n) eqn:Hc.
  - rewrite filter_cons_True by (rewrite Hc; exact I). reflexivity.
  - rewrite filter_cons_False by (rewrite Hc; intros []). reflexivity.
Qed.

(** A partition of the result is the finalized record of a key. *)
Lemma elem_of_partitions compare output p :
  p ∈ partitions (parsePartitionInfoOutput compare output) ↔
  ∃ p0, mapGet (st_partitions (stateAfter (parsedRows (reportLines output))))
               (name p) = Some p0
        ∧ p = finalizeNodes
                (st_nodeSets (stateAfter (parsedRows (reportLines output))))
                (name p, p0).
Proof.
  rewrite parsePartitionInfoOutput_rows. cbn [partitions].
  set (st := stateAfter _).
  destruct (stateAfter_wellKeyed (parsedRows (reportLines output)))
    as [Hnd Hname]. fold st in Hnd, Hname.
  rewrite sortBy_elem_of, list_elem_of_fmap. split.
  - intros ([k p0] & -> & Hin). pose proof (Hname _ _ Hin) as Hk.
    rewrite finalizeNodes_name. cbn [snd]. rewrite Hk.
    exists p0. split; [apply elem_of_mapGet; assumption | reflexivity].
  - intros (p0 & Hget & Hp). exists (name p, p0).
    split; [exact Hp | apply mapGet_Some_elem_of, Hget].
Qed.

(** *** Which partitions there are *)

Lemma stateAfter_get_iff rows n :
  is_Some (mapGet (st_partitions (stateAfter rows)) n) ↔ rowsOf n rows ≠ [].
Proof.
  induction rows as [| row rows IH] using rev_ind.
  - cbn. split; [intros [? [=]] | intros H; contradiction].
  - rewrite stateAfter_snoc, applyRow_get, rowsOf_snoc.
    destruct (contributesTo row n).
    + split; [intros _ H; apply app_nil in H as [_ [=]] | intros _; eauto].
    + rewrite app_nil_r. exact IH.
Qed.

(** X15. The partitions of a parsed report are exactly the names the
    accepted lines mention, stars removed: a name has a record if and only
    if some line that is not skipped lists it, and then it has one record
    only. *)
Theorem partitions_are_the_names_mentioned (compare : string → string → Z)
    (output n : string) :
  let info := parsePartitionInfoOutput compare output in
  (n ∈ name <$> partitions info ↔
   ∃ row, row ∈ parsedRows (reportLines output) ∧ contributesTo row n = true)
  ∧ (∀ p q, p ∈ partitions info → q ∈ partitions info →
            name p = name q → p = q).
Proof.
  intros info. subst info. split.
  - rewrite list_elem_of_fmap.
    assert (Hrows : rowsOf n (parsedRows (reportLines output)) ≠ [] ↔
              ∃ row, row ∈ parsedRows (reportLines output)
                     ∧ contributesTo row n = true).
    { unfold rowsOf. split.
      - intros Hne. destruct (filter _ _) as [| row rest] eqn:Hf; [contradiction |].
        assert (Hin : row ∈ filter (λ row, Is_true (contributesTo row n))
                                   (parsedRows (reportLines output)))
          by (rewrite Hf; left).
        apply list_elem_of_filter in Hin as [Hc Hin].
        exists row. split; [exact Hin | apply Is_true_eq_true, Hc].
      - intros (row & Hin & Hc) Hnil.
        assert (Hrow : row ∈ filter (λ row, Is_true (contributesTo row n))
                                    (parsedRows (reportLines output))).
        { apply list_elem_of_filter. split; [rewrite Hc; exact I | exact Hin]. }
        rewrite Hnil in Hrow. apply elem_of_nil in Hrow. exact Hrow. }
    rewrite <- Hrows, <- stateAfter_get_iff. split.
    + intros (p & -> & Hp). apply elem_of_partitions in Hp as (p0 & Hget & _).
      eauto.
    + intros [p0 Hget].
      exists (finalizeNodes
                (st_nodeSets (stateAfter (parsedRows (reportLines output))))
                (n, p0)).
      assert (Hn : name (finalizeNodes
                (st_nodeSets (stateAfter (parsedRows (reportLines output))))
                (n, p0)) = n).
      { rewrite finalizeNodes_name. cbn [snd].
        destruct (stateAfter_wellKeyed (parsedRows (reportLines output)))
          as [_ Hname].
        apply Hname, mapGet_Some_elem_of, Hget. }
      split; [symmetry; exact Hn |].
      apply elem_of_partitions. rewrite Hn. eauto.
  - intros p q Hp Hq Heq.
    apply elem_of_partitions in Hp as (p0 & Hgp & Hp).
    apply elem_of_partitions in Hq as (q0 & Hgq & Hq).
    rewrite Heq in Hgp, Hp. rewrite Hgp in Hgq. injection Hgq as <-.
    exact (eq_trans Hp (eq_sym Hq)).
Qed.

(** *** What the record of a partition holds *)

Lemma stateAfter_get rows n :
  mapGet (st_partitions (stateAfter rows)) n = mergedAll n (rowsOf n rows).
Proof.
  unfold mergedAll. induction rows as [| row rows IH] using rev_ind; [reflexivity |].
  rewrite stateAfter_snoc, applyRow_get, rowsOf_snoc, foldl_app, IH.
  destruct (contributesTo row n); reflexivity.
Qed.

Lemma stateAfter_nodeSet rows n :
  st_nodeSets (stateAfter rows) !! n = nodeSetAll (rowsOf n rows).
Proof.
  unfold nodeSetAll. induction rows as [| row rows IH] using rev_ind.
  - cbn. apply lookup_empty.
  - rewrite stateAfter_snoc, applyRow_nodeSet, rowsOf_snoc, foldl_app, IH.
    destruct (contributesTo row n); reflexivity.
Qed.

Lemma mergedAll_snoc n rs row :
  mergedAll n (rs ++ [row])
  = Some (mergedRecord row (starredIn row n) n (mergedAll n rs)).
Proof. unfold mergedAll. rewrite foldl_app. reflexivity. Qed.

Lemma mergedAll_nil_iff n rs : mergedAll n rs = None ↔ rs = [].
Proof.
  destruct rs as [| row rs _] using rev_ind; [done |].
  rewrite mergedAll_snoc. split; [discriminate |].
  intros H. apply app_nil in H as [_ [=]].
Qed.

Ltac merged_cases rs IH p :=
  let p0 := fresh "p0" in
  let Hp0 := fresh "Hp0" in
  rewrite mergedAll_snoc; intros [= <-];
  destruct (mergedAll _ rs) as [p0 |] eqn:Hp0;
  [specialize (IH p0 eq_refl) | apply mergedAll_nil_iff in Hp0; subst rs].

(** A member that each row raises to its own value at least is, in
    the end, the largest value of the rows. *)
Lemma mergedAll_largest (f : Row → N) (g : PartitionInfo → N) n rs :
  (∀ row starred found,
     g (mergedRecord row starred n found)
     = N.max (match found with Some e => g e | None => 0%N end) (f row)) →
  ∀ p, mergedAll n rs = Some p →
       (∀ row, row ∈ rs → (f row ≤ g p)%N) ∧ (∃ row, row ∈ rs ∧ f row = g p).
Proof.
  intros Hstep.
  induction rs as [| r rs IH] using rev_ind; intros p; [discriminate |].
  rewrite mergedAll_snoc. intros [= <-]. rewrite Hstep.
  destruct (mergedAll n rs) as [p0 |] eqn:Hp0.
  - destruct (IH p0 eq_refl) as [Hle (r0 & Hr0 & Heq)]. split.
    + intros row Hin. apply elem_of_app in Hin as [Hin | Hin].
      * specialize (Hle _ Hin). lia.
      * apply list_elem_of_singleton in Hin as ->. lia.
    + destruct (N.max_spec (g p0) (f r)) as [[_ ->] | [_ ->]].
      * exists r. split; [apply elem_of_app; right; left | reflexivity].
      * exists r0. split; [apply elem_of_app; left; exact Hr0 | exact Heq].
  - apply mergedAll_nil_iff in Hp0. subst rs. cbn [app]. split.
    + intros row Hin. apply list_elem_of_singleton in Hin as ->. lia.
    + exists r. split; [left | lia].
Qed.

Lemma mergedAll_name n rs : ∀ p, mergedAll n rs = Some p → name p = n.
Proof.
  induction rs as [| r rs IH] using rev_ind; intros p; [discriminate |].
  rewrite mergedAll_snoc. intros [= <-].
  destruct (mergedAll n rs) as [p0 |] eqn:Hp0; [apply (IH p0 eq_refl) | reflexivity].
Qed.

(** The numeric members are the largest values of the rows. *)
Lemma mergedAll_maxima n rs : ∀ p,
  mergedAll n rs = Some p →
  let upper (f : Row → N) (g : PartitionInfo → N) :=
    (∀ row, row ∈ rs → (f row ≤ g p)%N) ∧ (∃ row, row ∈ rs ∧ f row = g p) in
  name p = n
  ∧ upper row_cpus cpus
  ∧ upper row_memMb memMb
  ∧ upper (λ row, gres_gpuMax (row_gres row)) gpuMax.
Proof.
  intros p Hp upper. subst upper. cbn beta.
  split; [apply (mergedAll_name _ _ _ Hp) |].
  split; [| split];
    apply (mergedAll_largest _ _ n rs); try exact Hp;
    intros row starred [e |]; reflexivity.
Qed.

(** Under a type that is not an inherited name, the entry a row leaves
    is the larger of the count found and the count of the row, however
    often the row names the partition. *)
Lemma mergedRecord_plain r starred n found t :
  inheritedName t = false → gresBounded (row_gres r) →
  gpuTypes (mergedRecord r starred n found) !! t
  = match gres_gpuTypes (row_gres r) !! t with
    | None => (found ≫= λ e, gpuTypes e !! t)
    | Some c =>
        Some (mathMax (match found ≫= λ e, gpuTypes e !! t with
                       | Some (Count m) => Count m
                       | _ => Count 0
                       end) c)
    end.
Proof.
  intros Ht Hb. unfold mergedRecord, mergedTimes. cbn [gpuTypes].
  rewrite mergeGpuTypes_again_plain, mergeGpuTypes_plain; [| exact Ht ..| ].
  - destruct found as [e |]; cbn [default from_option id gpuTypes mbind option_bind];
      [reflexivity |].
    rewrite lookup_empty. reflexivity.
  - intros v Hv. destruct (Hb _ _ Hv) as [[_ Hinh] | (c & -> & _)]; [| eauto].
    rewrite Ht in Hinh. discriminate.
Qed.

(** A record has an entry only under a type that one of its rows has. *)
Lemma mergedRecord_keys r starred n found t :
  is_Some (gpuTypes (mergedRecord r starred n found) !! t) →
  is_Some (found ≫= λ e, gpuTypes e !! t)
  ∨ is_Some (gres_gpuTypes (row_gres r) !! t).
Proof.
  unfold mergedRecord, mergedTimes. cbn [gpuTypes].
  generalize (countNamed n (partitionNames (row_rawName r)) - 1)%nat.
  intros k. induction k as [| k IH].
  - cbn [Nat.iter nat_rect]. intros H. apply mergeGpuTypes_keys in H as [H | H];
      [left | right; exact H].
    destruct found as [e |]; cbn [default from_option id gpuTypes mbind option_bind] in *;
      [exact H |].
    rewrite lookup_empty in H. destruct H as [? [=]].
  - rewrite Nat.iter_succ. intros H. apply mergeGpuTypes_keys in H as [H | H];
      [exact (IH H) | right; exact H].
Qed.

Lemma mergedAll_keys n rs : ∀ p,
  mergedAll n rs = Some p →
  ∀ t, is_Some (gpuTypes p !! t) →
       ∃ row, row ∈ rs ∧ is_Some (gres_gpuTypes (row_gres row) !! t).
Proof.
  induction rs as [| r rs IH] using rev_ind; intros p; [discriminate |].
  merged_cases rs IH p; intros t Ht;
    apply mergedRecord_keys in Ht as [Ht | Ht].
  - destruct (IH t Ht) as (row & Hin & Hrow). exists row. split; [set_solver | exact Hrow].
  - exists r. split; [set_solver | exact Ht].
  - destruct Ht as [? [=]].
  - exists r. split; [set_solver | exact Ht].
Qed.

(** Under a type that is not an inherited name, the entry of [gpuTypes]
    is the largest count of the type among the rows. *)
Lemma mergedAll_gpuTypes n rs :
  (∀ row, row ∈ rs → gresBounded (row_gres row)) →
  ∀ p, mergedAll n rs = Some p →
  ∀ t, inheritedName t = false →
    (∀ row c, row ∈ rs → gres_gpuTypes (row_gres row) !! t = Some (Count c) →
       ∃ c', gpuTypes p !! t = Some (Count c') ∧ (c ≤ c')%N)
    ∧ (∀ v, gpuTypes p !! t = Some v →
         ∃ c' row, v = Count c' ∧ row ∈ rs
                   ∧ gres_gpuTypes (row_gres row) !! t = Some (Count c')).
Proof.
  induction rs as [| r rs IH] using rev_ind; intros Hb p; [discriminate |].
  assert (Hbr : gresBounded (row_gres r)) by (apply Hb; set_solver).
  assert (Hbrs : ∀ row, row ∈ rs → gresBounded (row_gres row))
    by (intros row Hin; apply Hb; set_solver).
  assert (Hcount : ∀ t v, inheritedName t = false →
            gres_gpuTypes (row_gres r) !! t = Some v → ∃ c, v = Count c).
  { intros t v Ht Hv. destruct (Hbr _ _ Hv) as [[_ Hinh] | (c & -> & _)]; [| eauto].
    rewrite Ht in Hinh. discriminate. }
  specialize (IH Hbrs).
  merged_cases rs IH p; intros t Ht;
    rewrite (mergedRecord_plain _ _ _ _ _ Ht Hbr);
    cbn [mbind option_bind].
  - destruct (IH t Ht) as [Hle Hhit].
    destruct (gres_gpuTypes (row_gres r) !! t) as [v |] eqn:Hr.
    + destruct (Hcount _ _ Ht Hr) as [cr ->].
      destruct (gpuTypes p0 !! t) as [v0 |] eqn:H0.
      * destruct (Hhit _ eq_refl) as (c0 & row0 & -> & Hin0 & Hrow0). cbn [mathMax].
        split.
        -- intros row c Hin Hc. apply elem_of_app in Hin as [Hin | Hin].
           ++ destruct (Hle _ _ Hin Hc) as (c' & [= <-] & Hcc').
              eexists. split; [reflexivity | lia].
           ++ apply list_elem_of_singleton in Hin as ->. rewrite Hr in Hc.
              injection Hc as <-. eexists. split; [reflexivity | lia].
        -- intros v [= <-].
           destruct (N.max_spec c0 cr) as [[_ ->] | [_ ->]].
           ++ exists cr, r. split; [reflexivity |]. split; [set_solver | exact Hr].
           ++ exists c0, row0. split; [reflexivity |]. split; [set_solver | exact Hrow0].
      * cbn [mathMax]. rewrite N.max_0_l. split.
        -- intros row c Hin Hc. apply elem_of_app in Hin as [Hin | Hin].
           ++ destruct (Hle _ _ Hin Hc) as (c' & [=] & _).
           ++ apply list_elem_of_singleton in Hin as ->. rewrite Hr in Hc.
              injection Hc as <-. eexists. split; [reflexivity | lia].
        -- intros v [= <-]. exists cr, r.
           split; [reflexivity |]. split; [set_solver | exact Hr].
    + split.
      * intros row c Hin Hc. apply elem_of_app in Hin as [Hin | Hin].
        -- exact (Hle _ _ Hin Hc).
        -- apply list_elem_of_singleton in Hin as ->. rewrite Hr in Hc. discriminate.
      * intros v Hv. destruct (Hhit _ Hv) as (c' & row & -> & Hin & Hrow).
        exists c', row. split; [reflexivity |]. split; [set_solver | exact Hrow].
  - cbn [app].
    destruct (gres_gpuTypes (row_gres r) !! t) as [v |] eqn:Hr.
    + destruct (Hcount _ _ Ht Hr) as [cr ->]. cbn [mathMax]. rewrite N.max_0_l.
      split.
      * intros row c Hin Hc. apply list_elem_of_singleton in Hin as ->.
        rewrite Hr in Hc. injection Hc as <-. eexists. split; [reflexivity | lia].
      * intros v [= <-]. exists cr, r.
        split; [reflexivity |]. split; [left | exact Hr].
    + split; [| intros v [=]].
      intros row c Hin Hc. apply list_elem_of_singleton in Hin as ->.
      rewrite Hr in Hc. discriminate.
Qed.

(** The flag is set when some row stars the name. *)
Lemma mergedAll_isDefault n rs : ∀ p,
  mergedAll n rs = Some p →
  (isDefault p = true ↔ ∃ row, row ∈ rs ∧ starredIn row n = true).
Proof.
  induction rs as [| r rs IH] using rev_ind; intros p; [discriminate |].
  merged_cases rs IH p;
    unfold mergedRecord, mergedTimes; cbn [default from_option id isDefault];
    rewrite orb_true_iff.
  - rewrite IH. split.
    + intros [(row & Hin & Hs) | Hs]; [exists row | exists r];
        (split; [set_solver | assumption]).
    + intros (row & Hin & Hs). apply elem_of_app in Hin as [Hin | Hin];
        [left; eauto | right].
      apply list_elem_of_singleton in Hin as ->. exact Hs.
  - cbn [app]. split.
    + intros [[=] | Hs]. exists r. split; [left | exact Hs].
    + intros (row & Hin & Hs). apply list_elem_of_singleton in Hin as ->.
      right. exact Hs.
Qed.

Lemma finalizeNodes_fields nodeSets k p0 :
  let p := finalizeNodes nodeSets (k, p0) in
  name p = name p0 ∧ cpus p = cpus p0 ∧ memMb p = memMb p0
  ∧ gpuMax p = gpuMax p0 ∧ gpuTypes p = gpuTypes p0
  ∧ isDefault p = isDefault p0.
Proof.
  unfold finalizeNodes. destruct (nodeSets !! k) as [set |]; [| done].
  destruct (0 <? size set)%nat; done.
Qed.

(** A partition of the result and the record it comes from. *)
Lemma partition_record compare output p :
  p ∈ partitions (parsePartitionInfoOutput compare output) →
  let rs := rowsOf (name p) (parsedRows (reportLines output)) in
  ∃ p0,
    mergedAll (name p) rs = Some p0
    ∧ p = finalizeNodes
            (st_nodeSets (stateAfter (parsedRows (reportLines output))))
            (name p, p0).
Proof.
  intros Hp. apply elem_of_partitions in Hp as (p0 & Hget & Hfin).
  rewrite stateAfter_get in Hget. eauto.
Qed.

Lemma parsedRows_bounded lines row :
  row ∈ parsedRows lines → gresBounded (row_gres row).
Proof.
  unfold parsedRows. rewrite list_elem_of_omap. intros (line & _ & Hrow).
  unfold parseLine in Hrow.
  destruct (length _ <? 3)%nat; [discriminate |].
  destruct (negb _); [discriminate |].
  injection Hrow as <-. apply parseGresInfo_bounded.
Qed.

(** X16. Over a whole report, a partition's cpus, memMb and gpuMax are
    the largest values among the lines that name it, and the partition is
    flagged as default exactly when one of those lines stars its name:
    values are never added up, and lines naming other partitions play no
    part.  Under every type whose label is not the name of a member of
    [Object.prototype], the entry of its gpuTypes is a count, the largest
    of that type among those lines, and is there only if some line has
    the type. *)
Theorem partition_holds_the_maxima (compare : string → string → Z)
    (output : string) (p : PartitionInfo) :
  p ∈ partitions (parsePartitionInfoOutput compare output) →
  let rs := rowsOf (name p) (parsedRows (reportLines output)) in
  let largest (f : Row → N) (v : N) :=
    (∀ row, row ∈ rs → (f row ≤ v)%N) ∧ (∃ row, row ∈ rs ∧ f row = v) in
  largest row_cpus (cpus p)
  ∧ largest row_memMb (memMb p)
  ∧ largest (λ row, gres_gpuMax (row_gres row)) (gpuMax p)
  ∧ (∀ t, inheritedName t = false →
       (∀ row c, row ∈ rs →
          gres_gpuTypes (row_gres row) !! t = Some (Count c) →
          ∃ c', gpuTypes p !! t = Some (Count c') ∧ (c ≤ c')%N)
       ∧ (∀ v, gpuTypes p !! t = Some v →
            ∃ c' row, v = Count c' ∧ row ∈ rs
                      ∧ gres_gpuTypes (row_gres row) !! t = Some (Count c')))
  ∧ (isDefault p = true ↔ ∃ row, row ∈ rs ∧ starredIn row (name p) = true).
Proof.
  intros Hp rs largest. subst largest.
  destruct (partition_record _ _ _ Hp) as (p0 & Hp0 & Hfin). fold rs in Hp0.
  destruct (finalizeNodes_fields
              (st_nodeSets (stateAfter (parsedRows (reportLines output))))
              (name p) p0) as (_ & Hc & Hm & Hg & Ht & Hd).
  cbn zeta in Hc, Hm, Hg, Ht, Hd. rewrite <- Hfin in Hc, Hm, Hg, Ht, Hd.
  destruct (mergedAll_maxima _ _ _ Hp0) as (_ & Hcpus & Hmem & Hgpu).
  rewrite Hc, Hm, Hg, Ht, Hd.
  split; [exact Hcpus |]. split; [exact Hmem |]. split; [exact Hgpu |].
  split; [| apply (mergedAll_isDefault _ _ _ Hp0)].
  apply (mergedAll_gpuTypes (name p) rs); [| exact Hp0].
  intros row Hin. apply (parsedRows_bounded (reportLines output)).
  unfold rs, rowsOf in Hin. apply list_elem_of_filter in Hin. tauto.
Qed.

Lemma partition_holds_the_maxima_witness :
  ∃ p,
    p ∈ partitions (parsePartitionInfoOutput codeUnitCompare threeLineReport)
    ∧ name p = "gpu"
    ∧ ∃ row,
        row ∈ rowsOf "gpu" (parsedRows (reportLines threeLineReport))
        ∧ row_cpus row = cpus p.
Proof.
  pose (p := {| name := "gpu"; nodes := 2; cpus := 96; memMb := 512000;
                gpuMax := 8; gpuTypes := {[ "a100" := Count 4; "v100" := Count 8 ]};
                isDefault := true |}).
  assert (Hp : p ∈ partitions
                     (parsePartitionInfoOutput codeUnitCompare threeLineReport)).
  { vm_compute. right. left. }
  exists p. split; [exact Hp |]. split; [reflexivity |].
  destruct (partition_holds_the_maxima codeUnitCompare threeLineReport p Hp)
    as ([_ Hrow] & _).
  exact Hrow.
Defined.

(** *** Node counts *)

Lemma nodeSetAll_snoc rs row :
  nodeSetAll (rs ++ [row]) = mergedNodeSet row (nodeSetAll rs).
Proof. unfold nodeSetAll. rewrite foldl_app. reflexivity. Qed.

Lemma nodeNamesOf_snoc rs row :
  nodeNamesOf (rs ++ [row])
  = nodeNamesOf rs
    ∪ match row_nodeName row with Some nodeName => {[nodeName]} | None => ∅ end.
Proof.
  unfold nodeNamesOf. rewrite omap_app, list_to_set_app_L. f_equal.
  cbn [omap list_omap]. destruct (row_nodeName row); cbn [list_to_set];
    [apply (right_id_L ∅ (∪)) | reflexivity].
Qed.

Lemma nodeSetAll_names rs : default ∅ (nodeSetAll rs) = nodeNamesOf rs.
Proof.
  induction rs as [| r rs IH] using rev_ind; [reflexivity |].
  rewrite nodeSetAll_snoc, nodeNamesOf_snoc, <- IH. unfold mergedNodeSet.
  destruct (row_nodeName r); cbn [default from_option id].
  - apply (comm_L (∪)).
  - rewrite (right_id_L ∅ (∪)). reflexivity.
Qed.

(** The count kept in the record is the largest count of the rows that
    carry a count. *)
Lemma mergedAll_nodes n rs : ∀ p,
  mergedAll n rs = Some p →
  (∀ row, row ∈ rs → row_nodeName row = None →
     (row_nodesCount row ≤ nodes p)%N)
  ∧ (nodes p = 0%N
     ∨ ∃ row, row ∈ rs ∧ row_nodeName row = None ∧ row_nodesCount row = nodes p).
Proof.
  induction rs as [| r rs IH] using rev_ind; intros p; [discriminate |].
  merged_cases rs IH p;
    unfold mergedRecord, mergedTimes; cbn [default from_option id nodes].
  - destruct IH as [Hle Hhit]. split.
    + intros row Hin Hnone. apply elem_of_app in Hin as [Hin | Hin].
      * specialize (Hle _ Hin Hnone). destruct (row_nodeName r); [exact Hle |].
        destruct (N.eqb_spec (row_nodesCount r) 0); lia.
      * apply list_elem_of_singleton in Hin as ->. rewrite Hnone.
        destruct (N.eqb_spec (row_nodesCount r) 0); lia.
    + assert (Hold : nodes p0 = 0%N
                ∨ ∃ row, row ∈ rs ++ [r] ∧ row_nodeName row = None
                         ∧ row_nodesCount row = nodes p0).
      { destruct Hhit as [H0 | (row & Hin & Hnone & Hc)]; [left; exact H0 |].
        right. exists row. split; [set_solver | auto]. }
      destruct (row_nodeName r) eqn:Hr; [exact Hold |].
      destruct (N.eqb_spec (row_nodesCount r) 0); [exact Hold |].
      destruct (N.max_spec (nodes p0) (row_nodesCount r)) as [[_ ->] | [_ ->]];
        [| exact Hold].
      right. exists r. split; [set_solver | auto].
  - cbn [app]. split.
    + intros row Hin Hnone. apply list_elem_of_singleton in Hin as ->.
      rewrite Hnone. destruct (N.eqb_spec (row_nodesCount r) 0); lia.
    + destruct (row_nodeName r) eqn:Hr; [left; reflexivity |].
      destruct (N.eqb_spec (row_nodesCount r) 0); [left; reflexivity |].
      right. exists r. split; [left |]. split; [exact Hr | lia].
Qed.

(** X17. Over a whole report, the node count of a partition is the
    number of distinct node identifiers on the lines that name it as soon
    as one of those lines carries an identifier, whatever counts the other
    lines carry; when none does, it is the largest count on those
    lines. *)
Theorem partition_node_count (compare : string → string → Z)
    (output : string) (p : PartitionInfo) :
  p ∈ partitions (parsePartitionInfoOutput compare output) →
  let rs := rowsOf (name p) (parsedRows (reportLines output)) in
  (nodeNamesOf rs ≠ ∅ → nodes p = N.of_nat (size (nodeNamesOf rs)))
  ∧ (nodeNamesOf rs = ∅ →
     (∀ row, row ∈ rs → (row_nodesCount row ≤ nodes p)%N)
     ∧ (∃ row, row ∈ rs ∧ row_nodesCount row = nodes p)).
Proof.
  intros Hp rs.
  destruct (partition_record _ _ _ Hp) as (p0 & Hp0 & Hfin). fold rs in Hp0.
  assert (Hids : default ∅ (st_nodeSets
                              (stateAfter (parsedRows (reportLines output)))
                            !! name p)
                 = nodeNamesOf rs)
    by (rewrite stateAfter_nodeSet; apply nodeSetAll_names).
  unfold finalizeNodes in Hfin.
  destruct (mergedAll_nodes _ _ _ Hp0) as [Hle Hhit].
  split.
  - intros Hne. rewrite <- Hids in Hne |- *.
    destruct (st_nodeSets _ !! name p) as [set |];
      cbn [default from_option id] in Hne |- *; [| contradiction].
    destruct (Nat.ltb_spec 0 (size set)) as [_ | Hz];
      [rewrite Hfin; reflexivity |].
    exfalso. apply Hne, leibniz_equiv, size_empty_iff. lia.
  - intros He.
    assert (Hnone : ∀ row, row ∈ rs → row_nodeName row = None).
    { intros row Hin. destruct (row_nodeName row) as [nn |] eqn:Hnn; [| reflexivity].
      exfalso. apply (not_elem_of_empty (C := gset string) nn). rewrite <- He.
      unfold nodeNamesOf. apply elem_of_list_to_set, list_elem_of_omap.
      exists row. split; [exact Hin | exact Hnn]. }
    assert (Hnodes : nodes p = nodes p0).
    { rewrite Hfin. rewrite <- Hids in He.
      destruct (st_nodeSets _ !! name p) as [set |];
        cbn [default from_option id] in He; [| reflexivity].
      subst set. reflexivity. }
    rewrite Hnodes. split.
    + intros row Hin. apply Hle; [exact Hin | apply Hnone, Hin].
    + destruct Hhit as [H0 | (row & Hin & _ & Hc)]; [| eauto].
      assert (Hrs : rs ≠ []).
      { intros Hnil. rewrite Hnil in Hp0. discriminate. }
      destruct rs as [| row rest] eqn:Hrows; [contradiction |].
      exists row. split; [left |].
      pose proof (Hle row ltac:(left) (Hnone row ltac:(left))). lia.
Qed.

Lemma partition_node_count_witness :
  ∃ p,
    p ∈ partitions (parsePartitionInfoOutput codeUnitCompare
                      ("gpu|node-01|64|1|" +:+ newline +:+ "gpu|16|64|1|"
                       +:+ newline +:+ "gpu|node-02|64|1|"))
    ∧ nodes p = 2%N.
Proof.
  set (output := "gpu|node-01|64|1|" +:+ newline +:+ "gpu|16|64|1|"
                 +:+ newline +:+ "gpu|node-02|64|1|").
  pose (p := {| name := "gpu"; nodes := 2; cpus := 64; memMb := 1;
                gpuMax := 0; gpuTypes := ∅; isDefault := false |}).
  assert (Hp : p ∈ partitions (parsePartitionInfoOutput codeUnitCompare output)).
  { vm_compute. left. }
  exists p. split; [exact Hp |].
  destruct (partition_node_count codeUnitCompare output p Hp) as [Hids _].
  rewrite Hids; [vm_compute; reflexivity |].
  intros He. apply (f_equal size) in He. vm_compute in He. discriminate.
Defined.

(** *** GPU figures of a partition *)

Lemma plainLabels_rows output row :
  plainLabels output = true →
  row ∈ parsedRows (reportLines output) → gresInvariant (row_gres row).
Proof.
  unfold plainLabels, parsedRows. intros Hplain.
  rewrite list_elem_of_omap. intros (line & Hline & Hrow).
  rewrite forallb_forall in Hplain.
  specialize (Hplain line (proj1 (list_elem_of_In _ _) Hline)).
  rewrite forallb_forall in Hplain.
  unfold parseLine in Hrow.
  destruct (length _ <? 3)%nat; [discriminate |].
  destruct (negb _); [discriminate |].
  injection Hrow as <-. apply parseGresInfo_invariant.
  intros label Hlabel. apply negb_true_iff, Hplain, list_elem_of_In, Hlabel.
Qed.

(** X18. In a report none of whose GPU type labels is the name of a
    member of [Object.prototype], every entry of a partition's gpuTypes is
    a positive count, at most the partition's gpuMax, and gpuMax is the
    largest of them (0 when the partition has no typed count at all): the
    relation between gpuMax and gpuTypes that holds for one descriptor
    survives the merge of the lines. *)
Theorem partition_gpuMax_bounds_gpuTypes (compare : string → string → Z)
    (output : string) (p : PartitionInfo) :
  plainLabels output = true →
  p ∈ partitions (parsePartitionInfoOutput compare output) →
  (∀ t v, gpuTypes p !! t = Some v →
     inheritedName t = false ∧ ∃ c, v = Count c ∧ (0 < c ≤ gpuMax p)%N)
  ∧ ((gpuTypes p = ∅ ∧ gpuMax p = 0%N)
     ∨ ∃ t, gpuTypes p !! t = Some (Count (gpuMax p)))
  ∧ maxValue (gpuTypes p) = Count (gpuMax p).
Proof.
  intros Hplain Hp.
  destruct (partition_record _ _ _ Hp) as (p0 & Hp0 & Hfin).
  set (rs := rowsOf (name p) (parsedRows (reportLines output))) in *.
  destruct (finalizeNodes_fields
              (st_nodeSets (stateAfter (parsedRows (reportLines output))))
              (name p) p0) as (_ & _ & _ & Hg & Ht & _).
  cbn zeta in Hg, Ht. rewrite <- Hfin in Hg, Ht.
  destruct (mergedAll_maxima _ _ _ Hp0) as (_ & _ & _ & [Hgle (rg & Hrg & Hgeq)]).
  assert (Hrows : ∀ row, row ∈ rs → row ∈ parsedRows (reportLines output)).
  { intros row Hin. unfold rs, rowsOf in Hin.
    apply list_elem_of_filter in Hin. tauto. }
  assert (Hinv : ∀ row, row ∈ rs → gresInvariant (row_gres row)).
  { intros row Hin. apply (plainLabels_rows output _ Hplain), Hrows, Hin. }
  assert (Htypes := mergedAll_gpuTypes (name p) rs
                      (λ row Hin, parsedRows_bounded _ _ (Hrows row Hin)) _ Hp0).
  pose proof (mergedAll_keys _ _ _ Hp0) as Hkeys.
  rewrite <- Hg in Hgle, Hgeq. rewrite <- Ht in Htypes, Hkeys.
  assert (Hbound : ∀ t v, gpuTypes p !! t = Some v →
            inheritedName t = false ∧ ∃ c, v = Count c ∧ (0 < c ≤ gpuMax p)%N).
  { intros t v Hv.
    destruct (Hkeys t (mk_is_Some _ _ Hv)) as (row0 & Hin0 & [v0 Hv0]).
    destruct (Hinv row0 Hin0) as [Hb0 _].
    destruct (Hb0 _ _ Hv0) as [Hplain0 _].
    split; [exact Hplain0 |].
    destruct (Htypes t Hplain0) as [_ Hhit].
    destruct (Hhit v Hv) as (c' & row & -> & Hin & Hrow).
    destruct (Hinv row Hin) as [Hb _].
    destruct (Hb _ _ Hrow) as (_ & c & [= <-] & Hc).
    specialize (Hgle row Hin). cbn beta in Hgle.
    exists c'. split; [reflexivity | lia]. }
  assert (Hwit : (gpuTypes p = ∅ ∧ gpuMax p = 0%N)
                 ∨ ∃ t, gpuTypes p !! t = Some (Count (gpuMax p))).
  { destruct (Hinv rg Hrg) as [Hbg [[_ Hzero] | [k Hk]]].
    - left. cbn beta in Hgeq. split; [| lia]. apply map_empty. intros t.
      destruct (gpuTypes p !! t) as [v |] eqn:Hv; [| reflexivity].
      destruct (Hbound _ _ Hv) as (_ & c & _ & Hc). lia.
    - right. exists k. destruct (Hbg _ _ Hk) as [Hkplain _].
      destruct (Htypes k Hkplain) as [Hle _].
      destruct (Hle rg _ Hrg Hk) as (c' & Hc' & Hcc').
      destruct (Hbound _ _ Hc') as (_ & c & [= <-] & Hc).
      cbn beta in Hgeq. rewrite Hc'. do 2 f_equal. lia. }
  split; [exact Hbound |]. split; [exact Hwit |].
  apply maxValue_unique; [| exact Hwit].
  intros k v Hv. destruct (Hbound _ _ Hv) as (_ & c & -> & Hc).
  exists c. split; [reflexivity | lia].
Qed.

Lemma partition_gpuMax_bounds_gpuTypes_witness :
  ∃ p,
    p ∈ partitions (parsePartitionInfoOutput codeUnitCompare threeLineReport)
    ∧ name p = "gpu" ∧ maxValue (gpuTypes p) = Count (gpuMax p).
Proof.
  pose (p := {| name := "gpu"; nodes := 2; cpus := 96; memMb := 512000;
                gpuMax := 8; gpuTypes := {[ "a100" := Count 4; "v100" := Count 8 ]};
                isDefault := true |}).
  assert (Hp : p ∈ partitions
                     (parsePartitionInfoOutput codeUnitCompare threeLineReport)).
  { vm_compute. right. left. }
  assert (Hplain : plainLabels threeLineReport = true)
    by (vm_compute; reflexivity).
  exists p. split; [exact Hp |]. split; [reflexivity |].
  apply (partition_gpuMax_bounds_gpuTypes codeUnitCompare threeLineReport p
           Hplain Hp).
Defined.

(** *** The default partition *)

Lemma defaultRecorded_initial : defaultRecorded initialState.
Proof. split; [discriminate | intros n p [=]]. Qed.

Lemma applyName_default row st pn :
  st_default (applyName row st pn)
  = if Js.includes "*" pn && unsetDefault (st_default st)
    then Some (Js.removeStars pn) else st_default st.
Proof. reflexivity. Qed.

Lemma applyName_defaultRecorded row st pn :
  defaultRecorded st → defaultRecorded (applyName row st pn).
Proof.
  intros [Hsome Hstar]. split.
  - intros d. rewrite applyName_default, applyName_get.
    destruct (Js.includes "*" pn) eqn:Hinc; cbn [andb].
    + destruct (unsetDefault (st_default st)) eqn:Hunset.
      * intros [= <-]. rewrite String.eqb_refl. eexists. split; [reflexivity |].
        unfold mergedRecord, mergedTimes. cbn [isDefault]. apply orb_true_r.
      * intros Hd. destruct (Hsome d Hd) as (p & Hp & Hflag).
        destruct (String.eqb_spec (Js.removeStars pn) d) as [_ | _]; [| eauto].
        eexists. split; [reflexivity |]. apply orb_true_r.
    + intros Hd. destruct (Hsome d Hd) as (p & Hp & Hflag).
      destruct (String.eqb_spec (Js.removeStars pn) d) as [_ | _]; [| eauto].
      eexists. split; [reflexivity |].
      rewrite Hp. unfold mergedRecord, mergedTimes. cbn [default from_option id isDefault].
      rewrite Hflag. reflexivity.
  - intros n p. rewrite applyName_default, applyName_get.
    destruct (String.eqb_spec (Js.removeStars pn) n) as [Hkey | Hkey].
    + intros [= <-]. unfold mergedRecord, mergedTimes. cbn [isDefault].
      destruct (Js.includes "*" pn) eqn:Hinc; cbn [andb].
      * intros _. destruct (st_default st) as [d |] eqn:Hd; cbn [unsetDefault];
          [destruct (negb (Js.truthy d)) |]; discriminate.
      * rewrite orb_false_r.
        destruct (mapGet (st_partitions st) n) as [e |] eqn:He;
          cbn [default from_option id isDefault]; [| discriminate].
        intros Hflag. apply (Hstar _ _ He Hflag).
    + intros Hp Hflag. pose proof (Hstar _ _ Hp Hflag) as Hold.
      destruct (Js.includes "*" pn && unsetDefault (st_default st));
        [discriminate | exact Hold].
Qed.

Lemma applyRow_defaultRecorded st row :
  defaultRecorded st → defaultRecorded (applyRow st row).
Proof.
  unfold applyRow. generalize (partitionNames (row_rawName row)). intros pns.
  revert st. induction pns as [| pn pns IH]; intros st Hst; [exact Hst |].
  apply IH, applyName_defaultRecorded, Hst.
Qed.

Lemma stateAfter_defaultRecorded rows : defaultRecorded (stateAfter rows).
Proof.
  induction rows as [| row rows IH] using rev_ind; [apply defaultRecorded_initial |].
  rewrite stateAfter_snoc. apply applyRow_defaultRecorded, IH.
Qed.

(** X19. The default partition of a parsed report, when there is one,
    is the name of a partition of the result that is flagged as default;
    and there is a default partition exactly when some partition of the
    result is flagged. *)
Theorem default_partition_is_flagged (compare : string → string → Z)
    (output : string) :
  let info := parsePartitionInfoOutput compare output in
  (∀ d, defaultPartition info = Some d →
     ∃ p, p ∈ partitions info ∧ name p = d ∧ isDefault p = true)
  ∧ (defaultPartition info ≠ None ↔
     ∃ p, p ∈ partitions info ∧ isDefault p = true).
Proof.
  intros info.
  destruct (stateAfter_defaultRecorded (parsedRows (reportLines output)))
    as [Hsome Hstar].
  destruct (stateAfter_wellKeyed (parsedRows (reportLines output)))
    as [_ Hname].
  assert (Hdef : defaultPartition info
                 = st_default (stateAfter (parsedRows (reportLines output)))).
  { subst info. rewrite parsePartitionInfoOutput_rows. reflexivity. }
  assert (Hfirst : ∀ d, defaultPartition info = Some d →
            ∃ p, p ∈ partitions info ∧ name p = d ∧ isDefault p = true).
  { intros d Hd. rewrite Hdef in Hd.
    destruct (Hsome d Hd) as (p0 & Hget & Hflag).
    set (p := finalizeNodes
                (st_nodeSets (stateAfter (parsedRows (reportLines output))))
                (d, p0)).
    destruct (finalizeNodes_fields
                (st_nodeSets (stateAfter (parsedRows (reportLines output))))
                d p0) as (Hn & _ & _ & _ & _ & Hd').
    cbn zeta in Hn, Hd'. fold p in Hn, Hd'.
    assert (Hpn : name p = d).
    { rewrite Hn. apply Hname, mapGet_Some_elem_of, Hget. }
    exists p. split; [| split; [exact Hpn | congruence]].
    subst info. apply elem_of_partitions. rewrite Hpn. eauto. }
  split; [exact Hfirst |]. split.
  - destruct (defaultPartition info) as [d |] eqn:Hd; [| contradiction].
    intros _. destruct (Hfirst d eq_refl) as (p & Hp & _ & Hflag). eauto.
  - intros (p & Hp & Hflag). rewrite Hdef.
    subst info. apply elem_of_partitions in Hp as (p0 & Hget & Hfin).
    destruct (finalizeNodes_fields
                (st_nodeSets (stateAfter (parsedRows (reportLines output))))
                (name p) p0) as (_ & _ & _ & _ & _ & Hd').
    cbn zeta in Hd'. rewrite <- Hfin in Hd'.
    apply (Hstar _ _ Hget). congruence.
Qed.

Example default_partition_sample :
  defaultPartition (parsePartitionInfoOutput codeUnitCompare threeLineReport)
  = Some "gpu"
  ∧ defaultPartition (parsePartitionInfoOutput codeUnitCompare "cpu|4|32|1|")
    = None.
Proof. split; vm_compute; reflexivity. Qed.

(** ** The cache of cluster information *)







(** ** The login hosts *)

Lemma parseSimpleList_unique output :
  uniqueList (parseSimpleList output) = parseSimpleList output.
Proof. unfold parseSimpleList. apply uniqueList_fixed, uniqueList_NoDup. Qed.

(** X21. The login hosts [resolveLoginHosts] returns are pairwise
    distinct.  The discovery command is run on the configured query host,
    else on the first configured login host, else on the host typed into
    the discovery box, which is shown in that last case only; with no such
    host it is not run.  When it cannot be run, the configured hosts are
    used (each once, in their order) and exactly one warning carrying the
    error is shown; when it runs and lists hosts, these are the result and
    the configured hosts are dropped; when it lists none, the configured
    hosts are kept.  A manual host is asked for only when the list would
    otherwise be empty, and is then the whole result. *)
Theorem resolveLoginHosts_result (env : Env)
    (showInputBox : string → option string) (cfg : SciamaConfig) :
  let result := resolveLoginHosts env showInputBox cfg in
  let command := Cfg.loginHostsCommand cfg in
  let configured := uniqueList (Cfg.loginHosts cfg) in
  let configuredQuery :=
    if Js.truthy (Cfg.loginHostsQueryHost cfg)
    then Some (Cfg.loginHostsQueryHost cfg)
    else head (Cfg.loginHosts cfg) in
  let queryHost :=
    if truthyStr configuredQuery then configuredQuery
    else showInputBox "Login host for discovery" in
  let manual := showInputBox "Login host" in
  NoDup (rl_hosts result)
  ∧ ("Login host for discovery" ∈ rl_prompts result
     ↔ Js.truthy command = true ∧ truthyStr configuredQuery = false)
  ∧ (Js.truthy command = false ∨ truthyStr queryHost = false →
     rl_warnings result = []
     ∧ (configured ≠ [] → rl_hosts result = configured))
  ∧ (∀ host e,
       Js.truthy command = true → queryHost = Some host →
       Js.truthy host = true →
       runSshCommand env host cfg command = inl e →
       rl_warnings result = ["Failed to query login hosts: " +:+ e]
       ∧ (configured ≠ [] → rl_hosts result = configured))
  ∧ (∀ host output,
       Js.truthy command = true → queryHost = Some host →
       Js.truthy host = true →
       runSshCommand env host cfg command = inr output →
       rl_warnings result = []
       ∧ (parseSimpleList output ≠ [] →
          rl_hosts result = parseSimpleList output
          ∧ ("Login host" ∉ rl_prompts result))
       ∧ (parseSimpleList output = [] → configured ≠ [] →
          rl_hosts result = configured))
  ∧ ("Login host" ∈ rl_prompts result →
     configured = []
     ∧ rl_hosts result
       = if truthyStr manual then [Js.trim (default EmptyString manual)] else [])
  ∧ ("Login host" ∉ rl_prompts result → rl_hosts result ≠ []).
Proof.
  intros result command configured configuredQuery queryHost manual.
  assert (Hne : "Login host" ≠ "Login host for discovery") by discriminate.
  assert (Hresult :
    ∃ hosts warnings prompts,
      result
      = match uniqueList hosts with
        | [] => {| rl_hosts :=
                     if truthyStr manual
                     then [Js.trim (default EmptyString manual)] else [];
                   rl_warnings := warnings;
                   rl_prompts := prompts ++ ["Login host"] |}
        | h :: hs => {| rl_hosts := h :: hs; rl_warnings := warnings;
                        rl_prompts := prompts |}
        end
      ∧ ("Login host" ∉ prompts)
      ∧ ("Login host for discovery" ∈ prompts
         ↔ Js.truthy command = true ∧ truthyStr configuredQuery = false)
      ∧ (uniqueList hosts = configured
         ∨ ∃ host output,
             Js.truthy command = true ∧ queryHost = Some host
             ∧ Js.truthy host = true
             ∧ runSshCommand env host cfg command = inr output
             ∧ parseSimpleList output ≠ []
             ∧ uniqueList hosts = parseSimpleList output)
      ∧ (Js.truthy command = false ∨ truthyStr queryHost = false →
         warnings = [] ∧ uniqueList hosts = configured)
      ∧ (∀ host e,
           Js.truthy command = true → queryHost = Some host →
           Js.truthy host = true →
           runSshCommand env host cfg command = inl e →
           warnings = ["Failed to query login hosts: " +:+ e]
           ∧ uniqueList hosts = configured)
      ∧ (∀ host output,
           Js.truthy command = true → queryHost = Some host →
           Js.truthy host = true →
           runSshCommand env host cfg command = inr output →
           warnings = []
           ∧ (parseSimpleList output ≠ [] →
              uniqueList hosts = parseSimpleList output)
           ∧ (parseSimpleList output = [] → uniqueList hosts = configured))).
  { subst result. unfold resolveLoginHosts. cbv zeta.
    fold command. fold configuredQuery.
    destruct (Js.truthy command) eqn:Hcmd.
    - destruct (truthyStr configuredQuery) eqn:Hcq.
      + assert (Hq : queryHost = configuredQuery)
          by first [reflexivity | unfold queryHost; rewrite Hcq; reflexivity].
        destruct configuredQuery as [host |] eqn:Hhost; [| discriminate].
        cbn [truthyStr] in Hcq |- *. rewrite Hcq. cbn [default from_option id].
        destruct (runSshCommand env host cfg command) as [e | output] eqn:Hrun.
        * exists (Cfg.loginHosts cfg), ["Failed to query login hosts: " +:+ e], [].
          split; [destruct (uniqueList (Cfg.loginHosts cfg)); reflexivity |].
          split; [set_solver |]. split; [split; [set_solver | intros [_ [=]]] |].
          split; [left; reflexivity |].
          split; [intros [[=] | Hf]; rewrite Hq in Hf; cbn in Hf; congruence |].
          split.
          -- intros host' e' _ Hq' _ Hrun'. rewrite Hq in Hq'.
             injection Hq' as <-. rewrite Hrun in Hrun'. injection Hrun' as <-.
             split; reflexivity.
          -- intros host' output' _ Hq' _ Hrun'. rewrite Hq in Hq'.
             injection Hq' as <-. rewrite Hrun in Hrun'. discriminate.
        * destruct (parseSimpleList output) as [| d ds] eqn:Hparse.
          -- exists (Cfg.loginHosts cfg), [], [].
             split; [destruct (uniqueList (Cfg.loginHosts cfg)); reflexivity |].
             split; [set_solver |]. split; [split; [set_solver | intros [_ [=]]] |].
             split; [left; reflexivity |].
             split; [intros [[=] | Hf]; rewrite Hq in Hf; cbn in Hf; congruence |].
             split.
             ++ intros host' e' _ Hq' _ Hrun'. rewrite Hq in Hq'.
                injection Hq' as <-. rewrite Hrun in Hrun'. discriminate.
             ++ intros host' output' _ Hq' _ Hrun'. rewrite Hq in Hq'.
                injection Hq' as <-. rewrite Hrun in Hrun'. injection Hrun' as <-.
                rewrite Hparse. split; [reflexivity |].
                split; [intros H; contradiction | reflexivity].
          -- assert (Hfix : uniqueList (d :: ds) = d :: ds)
               by (rewrite <- Hparse; apply parseSimpleList_unique).
             exists (d :: ds), [], []. split; [rewrite Hfix; reflexivity |].
             split; [set_solver |]. split; [split; [set_solver | intros [_ [=]]] |].
             split.
             { right. exists host, output. rewrite Hparse.
               repeat split; try assumption; try discriminate. }
             split; [intros [[=] | Hf]; rewrite Hq in Hf; cbn in Hf; congruence |].
             split.
             ++ intros host' e' _ Hq' _ Hrun'. rewrite Hq in Hq'.
                injection Hq' as <-. rewrite Hrun in Hrun'. discriminate.
             ++ intros host' output' _ Hq' _ Hrun'. rewrite Hq in Hq'.
                injection Hq' as <-. rewrite Hrun in Hrun'. injection Hrun' as <-.
                rewrite Hparse. split; [reflexivity |].
                split; [intros _; exact Hfix | discriminate].
      + assert (Hq : queryHost = showInputBox "Login host for discovery")
          by first [reflexivity | unfold queryHost; rewrite Hcq; reflexivity].
        rewrite <- Hq.
        assert (Hprompt : "Login host" ∉ ["Login host for discovery"]).
        { intros Hin. apply list_elem_of_singleton in Hin. contradiction. }
        assert (Hshown : "Login host for discovery" ∈ ["Login host for discovery"]
                         ↔ true = true ∧ false = false)
          by (split; [auto | intros _; left]).
        destruct (truthyStr queryHost) eqn:Htq.
        * destruct queryHost as [host |] eqn:Hhost; [| discriminate].
          cbn [truthyStr] in Htq. cbn [default from_option id].
          destruct (runSshCommand env host cfg command) as [e | output] eqn:Hrun.
          -- exists (Cfg.loginHosts cfg),
               ["Failed to query login hosts: " +:+ e],
               ["Login host for discovery"].
             split; [destruct (uniqueList (Cfg.loginHosts cfg)); reflexivity |].
             split; [exact Hprompt |]. split; [exact Hshown |].
             split; [left; reflexivity |].
             split; [intros [[=] | [=]] |].
             split.
             ++ intros host' e' _ [= <-] _ Hrun'.
                rewrite Hrun in Hrun'. injection Hrun' as <-. split; reflexivity.
             ++ intros host' output' _ [= <-] _ Hrun'.
                rewrite Hrun in Hrun'. discriminate.
          -- destruct (parseSimpleList output) as [| d ds] eqn:Hparse.
             ++ exists (Cfg.loginHosts cfg), [], ["Login host for discovery"].
                split; [destruct (uniqueList (Cfg.loginHosts cfg)); reflexivity |].
                split; [exact Hprompt |]. split; [exact Hshown |].
                split; [left; reflexivity |].
                split; [intros [[=] | [=]] |].
                split.
                ** intros host' e' _ [= <-] _ Hrun'.
                   rewrite Hrun in Hrun'. discriminate.
                ** intros host' output' _ [= <-] _ Hrun'.
                   rewrite Hrun in Hrun'. injection Hrun' as <-.
                   rewrite Hparse. split; [reflexivity |].
                   split; [intros H; contradiction | reflexivity].
             ++ assert (Hfix : uniqueList (d :: ds) = d :: ds)
                  by (rewrite <- Hparse; apply parseSimpleList_unique).
                exists (d :: ds), [], ["Login host for discovery"].
                split; [rewrite Hfix; reflexivity |].
                split; [exact Hprompt |]. split; [exact Hshown |].
                split.
                { right. exists host, output. rewrite Hparse.
                  repeat split; try assumption; try discriminate. }
                split; [intros [[=] | [=]] |].
                split.
                ** intros host' e' _ [= <-] _ Hrun'.
                   rewrite Hrun in Hrun'. discriminate.
                ** intros host' output' _ [= <-] _ Hrun'.
                   rewrite Hrun in Hrun'. injection Hrun' as <-.
                   rewrite Hparse. split; [reflexivity |].
                   split; [intros _; exact Hfix | discriminate].
        * exists (Cfg.loginHosts cfg), [], ["Login host for discovery"].
          split; [destruct (uniqueList (Cfg.loginHosts cfg)); reflexivity |].
          split; [exact Hprompt |]. split; [exact Hshown |].
          split; [left; reflexivity |].
          split; [intros _; split; reflexivity |].
          split.
          -- intros host' e' _ Hq' Hh. rewrite Hq' in Htq. cbn in Htq. congruence.
          -- intros host' output' _ Hq' Hh. rewrite Hq' in Htq. cbn in Htq. congruence.
    - exists (Cfg.loginHosts cfg), [], [].
      split; [destruct (uniqueList (Cfg.loginHosts cfg)); reflexivity |].
      split; [set_solver |]. split; [split; [set_solver | intros [[=] _]] |].
      split; [left; reflexivity |].
      split; [intros _; split; reflexivity |].
      split; intros ? ? [=]. }
  destruct Hresult as (hosts & warnings & prompts & -> & Hno & Hshown
                       & Hsource & Hskip & Hfail & Hok).
  assert (Hnd : NoDup (uniqueList hosts)) by apply uniqueList_NoDup.
  destruct (uniqueList hosts) as [| h hs] eqn:Hu; cbn [rl_hosts rl_warnings rl_prompts].
  - split; [destruct (truthyStr manual); [apply NoDup_singleton | constructor] |].
    split.
    { rewrite elem_of_app, <- Hshown. split; [intros [H | H]; [exact H |] | auto].
      apply list_elem_of_singleton in H. symmetry in H. contradiction. }
    split.
    { intros Hcase. destruct (Hskip Hcase) as [-> Hc]. split; [reflexivity |].
      intros Hcne. symmetry in Hc. contradiction. }
    split.
    { intros host e H1 H2 H3 H4. destruct (Hfail host e H1 H2 H3 H4) as [-> Hc].
      split; [reflexivity |]. intros Hcne. symmetry in Hc. contradiction. }
    split.
    { intros host output H1 H2 H3 H4.
      destruct (Hok host output H1 H2 H3 H4) as (-> & Hsome & Hnone).
      split; [reflexivity |]. split.
      - intros Hpne. specialize (Hsome Hpne). symmetry in Hsome. contradiction.
      - intros Hp Hcne. specialize (Hnone Hp). symmetry in Hnone. contradiction. }
    split.
    { intros _. split; [| reflexivity].
      destruct Hsource as [Hc | (host & output & _ & _ & _ & _ & Hpne & Hp)];
        [symmetry; exact Hc |].
      symmetry in Hp. contradiction. }
    intros Hnot. exfalso. apply Hnot, elem_of_app. right. left.
  - split; [exact Hnd |].
    split; [exact Hshown |].
    split.
    { intros Hcase. destruct (Hskip Hcase) as [-> Hc]. split; [reflexivity |].
      intros _. exact Hc. }
    split.
    { intros host e H1 H2 H3 H4. destruct (Hfail host e H1 H2 H3 H4) as [-> Hc].
      split; [reflexivity |]. intros _. exact Hc. }
    split.
    { intros host output H1 H2 H3 H4.
      destruct (Hok host output H1 H2 H3 H4) as (-> & Hsome & Hnone).
      split; [reflexivity |]. split.
      - intros Hpne. split; [exact (Hsome Hpne) | exact Hno].
      - intros Hp _. exact (Hnone Hp). }
    split; [intros Hin; contradiction | discriminate].
Qed.

Example resolveLoginHosts_fallback :
  let cfg :=
    {| Cfg.loginHosts := ["login1"; "login2"; "login1"];
       Cfg.loginHostsCommand := "cat /etc/login-hosts";
       Cfg.loginHostsQueryHost := EmptyString;
       Cfg.partitionCommand := EmptyString;
       Cfg.partitionInfoCommand := EmptyString;
       Cfg.qosCommand := EmptyString; Cfg.accountCommand := EmptyString;
       Cfg.user := EmptyString; Cfg.identityFile := EmptyString;
       Cfg.forwardAgent := true; Cfg.requestTTY := true;
       Cfg.moduleLoad := EmptyString; Cfg.proxyCommand := EmptyString;
       Cfg.proxyArgs := []; Cfg.extraSallocArgs := [];
       Cfg.promptForExtraSallocArgs := false;
       Cfg.defaultPartition := EmptyString; Cfg.defaultNodes := 1;
       Cfg.defaultTasksPerNode := 1; Cfg.defaultCpusPerTask := 1;
       Cfg.defaultTime := EmptyString; Cfg.defaultMemoryMb := 0;
       Cfg.defaultGpuType := EmptyString; Cfg.defaultGpuCount := 0;
       Cfg.sshHostPrefix := EmptyString; Cfg.connectAfterCreate := true;
       Cfg.openInNewWindow := false; Cfg.remoteWorkspacePath := EmptyString;
       Cfg.temporarySshConfigPath := EmptyString;
       Cfg.restoreSshConfigAfterConnect := true;
       Cfg.additionalSshOptions := ∅; Cfg.sshQueryConfigPath := EmptyString;
       Cfg.sshConnectTimeoutSeconds := 15 |} in
  resolveLoginHosts (sampleEnv (λ _, inl "timed out")) (λ _, None) cfg
  = {| rl_hosts := ["login1"; "login2"];
       rl_warnings := ["Failed to query login hosts: timed out"];
       rl_prompts := [] |}
  ∧ resolveLoginHosts (sampleEnv (λ _, inr " a b  a ")) (λ _, None) cfg
    = {| rl_hosts := ["a"; "b"]; rl_warnings := []; rl_prompts := [] |}.
Proof. split; vm_compute; reflexivity. Qed.

(** ** The extra options of a host block *)

Lemma ascii_compare_eq (a b : ascii) : Ascii.compare a b = Eq → a = b.
Proof. apply Ascii.compare_eq_iff. Qed.

Lemma string_compare_refl (s : string) : String.compare s s = Eq.
Proof.
  induction s as [| a s IH]; simpl; [reflexivity |].
  unfold Ascii.compare. rewrite N.compare_refl. exact IH.
Qed.

(** the order of the code units is transitive *)
Lemma string_compare_trans (a : string) : ∀ b c,
  String.compare a b ≠ Gt → String.compare b c ≠ Gt → String.compare a c ≠ Gt.
Proof.
  induction a as [| x a IH]; intros [| y b] [| z c]; simpl; try congruence.
  destruct (Ascii.compare x y) eqn:Hxy, (Ascii.compare y z) eqn:Hyz;
    try congruence.
  - apply ascii_compare_eq in Hxy as ->. apply ascii_compare_eq in Hyz as ->.
    unfold Ascii.compare. rewrite N.compare_refl. apply IH.
  - apply ascii_compare_eq in Hxy as ->. rewrite Hyz. congruence.
  - apply ascii_compare_eq in Hyz as <-. rewrite Hxy. congruence.
  - intros _ _. unfold Ascii.compare in *.
    apply N.compare_lt_iff in Hxy. apply N.compare_lt_iff in Hyz.
    pose proof (N.lt_trans _ _ _ Hxy Hyz) as Hxz.
    apply N.compare_lt_iff in Hxz. rewrite Hxz. congruence.
Qed.

Lemma codeUnitCompare_trans (a b c : string) :
  (codeUnitCompare a b ≤ 0)%Z → (codeUnitCompare b c ≤ 0)%Z →
  (codeUnitCompare a c ≤ 0)%Z.
Proof.
  unfold codeUnitCompare. intros Hab Hbc.
  pose proof (string_compare_trans a b c) as Htrans.
  destruct (String.compare a b), (String.compare b c), (String.compare a c);
    try lia; exfalso; apply Htrans; congruence.
Qed.

Lemma foldl_option_lines cfg keys : ∀ lines,
  foldl (λ lines key,
           match Cfg.additionalSshOptions cfg !! key with
           | Some value =>
               if (0 <? String.length value)%nat
               then lines ++ ["  " +:+ key +:+ " " +:+ value] else lines
           | None => lines
           end)
        lines keys
  = lines ++ omap (optionLine cfg) keys.
Proof.
  induction keys as [| k keys IH]; intros lines; cbn [foldl omap list_omap].
  - rewrite app_nil_r. reflexivity.
  - rewrite IH. unfold optionLine at 2.
    destruct (Cfg.additionalSshOptions cfg !! k) as [value |]; [| reflexivity].
    destruct (0 <? String.length value)%nat; [| reflexivity].
    rewrite <- app_assoc. reflexivity.
Qed.

(** X22. A host block is the fixed lines, up to the remote command,
    followed by one line per extra option whose value is not empty, in
    ascending order of the keys (by code units), each key once; an option
    with an empty value has no line.  The block always names the alias,
    the login host and the remote command, and ends with a line break. *)
Theorem buildHostEntry_lines (env : Env) (alias loginHost : string)
    (cfg : SciamaConfig) (remoteCommand : string) :
  let keys := sortedOptionKeys cfg in
  buildHostEntry env alias loginHost cfg remoteCommand
  = Js.join newline
      (hostBlockHead env alias loginHost cfg remoteCommand
       ++ omap (optionLine cfg) keys) +:+ newline
  ∧ StronglySorted (λ a b, (codeUnitCompare a b ≤ 0)%Z) keys
  ∧ NoDup keys
  ∧ (∀ key, key ∈ keys ↔ is_Some (Cfg.additionalSshOptions cfg !! key))
  ∧ (∀ key, Cfg.additionalSshOptions cfg !! key = Some EmptyString →
            optionLine cfg key = None)
  ∧ (∀ key value, Cfg.additionalSshOptions cfg !! key = Some value →
       value ≠ EmptyString →
       optionLine cfg key = Some ("  " +:+ key +:+ " " +:+ value))
  ∧ "Host " +:+ alias ∈ hostBlockHead env alias loginHost cfg remoteCommand
  ∧ "  HostName " +:+ loginHost
      ∈ hostBlockHead env alias loginHost cfg remoteCommand
  ∧ last (hostBlockHead env alias loginHost cfg remoteCommand)
    = Some ("  RemoteCommand " +:+ remoteCommand).
Proof.
  intros keys. subst keys.
  split; [| split; [| split; [| split; [| split; [| split; [| split; [| split]]]]]]].
  - unfold buildHostEntry. fold (sortedOptionKeys cfg).
    rewrite foldl_option_lines. unfold hostBlockHead.
    destruct (Js.truthy (Cfg.user cfg)), (Cfg.requestTTY cfg),
             (Cfg.forwardAgent cfg), (Js.truthy (Cfg.identityFile cfg));
      reflexivity.
  - apply sortBy_strongly_sorted.
    + intros a b. apply codeUnitCompare_total.
    + intros a b c. apply codeUnitCompare_trans.
  - unfold sortedOptionKeys. rewrite (sortBy_perm _ _).
    apply NoDup_fst_map_to_list.
  - intros key. unfold sortedOptionKeys.
    rewrite sortBy_elem_of, list_elem_of_fmap. split.
    + intros ([k v] & -> & Hin). apply elem_of_map_to_list in Hin. eauto.
    + intros [v Hv]. exists (key, v).
      split; [reflexivity | apply elem_of_map_to_list, Hv].
  - intros key Hkey. unfold optionLine. rewrite Hkey. reflexivity.
  - intros key value Hkey Hne. unfold optionLine. rewrite Hkey.
    destruct value; [contradiction | reflexivity].
  - unfold hostBlockHead. apply elem_of_app. left. right. left.
  - unfold hostBlockHead. apply elem_of_app. left. right. right. left.
  - unfold hostBlockHead. rewrite !app_assoc. apply last_snoc.
Qed.

Example buildHostEntry_sorted_options :
  omap (optionLine
          (sampleConfig EmptyString EmptyString EmptyString false false
             EmptyString EmptyString EmptyString EmptyString
             {[ "ServerAliveInterval" := "30"; "Compression" := "yes";
                "LocalCommand" := EmptyString ]}))
       (sortedOptionKeys
          (sampleConfig EmptyString EmptyString EmptyString false false
             EmptyString EmptyString EmptyString EmptyString
             {[ "ServerAliveInterval" := "30"; "Compression" := "yes";
                "LocalCommand" := EmptyString ]}))
  = ["  Compression yes"; "  ServerAliveInterval 30"].
Proof. vm_compute. reflexivity. Qed.

(** ** Running a command on the login host *)

Lemma trimEnd_idem (s : string) : Js.trimEnd (Js.trimEnd s) = Js.trimEnd s.
Proof.
  induction s as [| a s IH]; [reflexivity |].
  cbn [Js.trimEnd]. destruct (Js.trimEnd s) as [| b t] eqn:Ht.
  - destruct (Js.isSpace a) eqn:Ha; [reflexivity |].
    cbn [Js.trimEnd]. rewrite Ha. reflexivity.
  - change (Js.trimEnd (String a (String b t)))
      with (match Js.trimEnd (String b t) with
            | EmptyString =>
                if Js.isSpace a then EmptyString else String a EmptyString
            | String c r => String a (String c r)
            end).
    rewrite IH. reflexivity.
Qed.

Lemma trimStart_head (s : string) :
  match Js.trimStart s with
  | String a _ => Js.isSpace a = false
  | EmptyString => True
  end.
Proof.
  induction s as [| a s IH]; [exact I |].
  cbn [Js.trimStart]. destruct (Js.isSpace a) eqn:Ha; [exact IH | exact Ha].
Qed.

Lemma trimEnd_head (a : string) :
  match a with
  | String x _ => Js.isSpace x = false
  | EmptyString => True
  end →
  Js.trimStart (Js.trimEnd a) = Js.trimEnd a.
Proof.
  destruct a as [| x r]; [reflexivity |]. intros Hx.
  cbn [Js.trimEnd]. rewrite Hx.
  destruct (Js.trimEnd r); cbn [Js.trimStart]; rewrite Hx; reflexivity.
Qed.

(** trimming twice is trimming once *)
Lemma trim_idem (s : string) : Js.trim (Js.trim s) = Js.trim s.
Proof.
  unfold Js.trim. rewrite (trimEnd_head _ (trimStart_head s)).
  apply trimEnd_idem.
Qed.

(** X23. [runSshCommand] runs [ssh] once, without a terminal and in
    batch mode, with the connection timeout of the settings both as an
    option (in seconds) and as the limit of the call (in milliseconds).
    The command is the last argument and the target, [user@host] or the
    bare host, the one before it; an identity file and a query
    configuration file are passed with their home directory expanded.  A
    failure of the call is the failure of [runSshCommand]; an output comes
    back without white space at its ends. *)
Theorem runSshCommand_contract (env : Env) (host : string) (cfg : SciamaConfig)
    (command : string) :
  let target :=
    if Js.truthy (Cfg.user cfg) then Cfg.user cfg +:+ "@" +:+ host else host in
  let limit := (Cfg.sshConnectTimeoutSeconds cfg * 1000)%Z in
  ∃ options : list string,
    runSshCommand env host cfg command
    = match execFile env "ssh" (options ++ [target; command]) limit with
      | inl e => inl e
      | inr stdout => inr (Js.trim stdout)
      end
    ∧ ["-T"; "-o"; "BatchMode=yes"; "-o";
       "ConnectTimeout=" +:+ showZ (Cfg.sshConnectTimeoutSeconds cfg)]
        `sublist_of` options
    ∧ (Cfg.identityFile cfg ≠ EmptyString →
       ["-i"; expandHome env (Cfg.identityFile cfg)] `sublist_of` options)
    ∧ (Cfg.sshQueryConfigPath cfg ≠ EmptyString →
       take 2 options = ["-F"; expandHome env (Cfg.sshQueryConfigPath cfg)])
    ∧ (Cfg.identityFile cfg = EmptyString →
       Cfg.sshQueryConfigPath cfg = EmptyString → length options = 5%nat)
    ∧ (∀ e, execFile env "ssh" (options ++ [target; command]) limit = inl e →
            runSshCommand env host cfg command = inl e)
    ∧ (∀ out, runSshCommand env host cfg command = inr out → Js.trim out = out).
Proof.
  intros target limit. subst target limit. unfold runSshCommand.
  match goal with
  | |- context [execFile env "ssh" (?opts ++ [?t; command]) _] => exists opts
  end.
  split; [reflexivity |].
  split; [| split; [| split; [| split; [| split]]]].
  - destruct (Cfg.sshQueryConfigPath cfg), (Cfg.identityFile cfg);
      cbn [Js.truthy app]; solve_sublist.
  - intros Hid. destruct (Cfg.identityFile cfg) as [| i r]; [contradiction |].
    destruct (Cfg.sshQueryConfigPath cfg); cbn [Js.truthy app]; solve_sublist.
  - intros Hq. destruct (Cfg.sshQueryConfigPath cfg); [contradiction |].
    destruct (Cfg.identityFile cfg); reflexivity.
  - intros -> ->. reflexivity.
  - intros e He. rewrite He. reflexivity.
  - intros out Hout.
    destruct (execFile env "ssh" _ _) as [e | stdout]; [discriminate |].
    injection Hout as <-. apply trim_idem.
Qed.

(** ** One line of the report *)

Lemma allChars_app (p : ascii → bool) (s1 s2 : string) :
  allChars p (s1 +:+ s2) = allChars p s1 && allChars p s2.
Proof.
  induction s1 as [| a s1 IH]; [reflexivity |].
  change (String a s1 +:+ s2) with (String a (s1 +:+ s2)).
  cbn [allChars]. rewrite IH, andb_assoc. reflexivity.
Qed.

Lemma allDigitsFrom_allChars (s : string) :
  Js.allDigitsFrom s = allChars Js.isDigit s.
Proof. induction s as [| a s IH]; [reflexivity |]. cbn [Js.allDigitsFrom allChars]. rewrite IH. reflexivity. Qed.

Lemma digits_noneOf (sep : ascii → bool) (s : string) :
  (∀ a, Js.isDigit a = true → sep a = false) →
  Js.allDigits s = true → noneOf sep s = true.
Proof.
  intros Hsep Hs. unfold Js.allDigits in Hs. apply andb_prop in Hs as [_ Hs].
  rewrite allDigitsFrom_allChars in Hs. unfold noneOf.
  apply (allChars_weaken Js.isDigit); [| exact Hs].
  intros a Ha. rewrite (Hsep a Ha). reflexivity.
Qed.

Lemma digit_not_char (c : ascii) (a : ascii) :
  (N_of_ascii c < 48 ∨ 57 < N_of_ascii c)%N →
  Js.isDigit a = true → Ascii.eqb a c = false.
Proof.
  intros Hc Ha. unfold Js.isDigit in Ha. apply andb_prop in Ha as [Hlo Hhi].
  apply N.leb_le in Hlo. apply N.leb_le in Hhi.
  destruct (Ascii.eqb_spec a c) as [-> |]; [lia | reflexivity].
Qed.

Lemma digit_not_space (a : ascii) : Js.isDigit a = true → Js.isSpace a = false.
Proof.
  intros Ha. unfold Js.isDigit in Ha. apply andb_prop in Ha as [Hlo Hhi].
  apply N.leb_le in Hlo. apply N.leb_le in Hhi. unfold Js.isSpace.
  repeat match goal with
  | |- context [(?x <=? ?y)%N] =>
      first [ (replace (x <=? y)%N with false by (symmetry; apply N.leb_gt; lia))
            | (replace (x <=? y)%N with true by (symmetry; apply N.leb_le; lia)) ]
  | |- context [(?x =? ?y)%N] =>
      replace (x =? y)%N with false by (symmetry; apply N.eqb_neq; lia)
  end; reflexivity.
Qed.

Lemma split_sep_whole (c : ascii) (s : string) :
  noneOf (λ a, Ascii.eqb a c) s = true → Js.split c s = [s].
Proof.
  induction s as [| a s IH]; [reflexivity |].
  unfold noneOf. cbn [allChars Js.split]. intros H.
  apply andb_prop in H as [Ha Hs]. apply negb_true_iff in Ha. rewrite Ha.
  rewrite (IH Hs). reflexivity.
Qed.

Lemma split_sep_prefix (c : ascii) (s1 s2 : string) :
  noneOf (λ a, Ascii.eqb a c) s1 = true →
  Js.split c (s1 +:+ String c s2) = s1 :: Js.split c s2.
Proof.
  induction s1 as [| a s1 IH].
  - intros _. change (EmptyString +:+ String c s2) with (String c s2).
    cbn [Js.split]. rewrite Ascii.eqb_refl. reflexivity.
  - unfold noneOf. cbn [allChars]. intros H.
    apply andb_prop in H as [Ha Hs]. apply negb_true_iff in Ha.
    change (String a s1 +:+ String c s2) with (String a (s1 +:+ String c s2)).
    cbn [Js.split]. rewrite Ha, (IH Hs). reflexivity.
Qed.

Lemma append_char (c : ascii) (s : string) :
  String c EmptyString +:+ s = String c s.
Proof. reflexivity. Qed.

Lemma includes_infix (c : ascii) (s1 s2 : string) :
  Js.includes (String c EmptyString) (s1 +:+ String c s2) = true.
Proof.
  induction s1 as [| a s1 IH].
  - change (EmptyString +:+ String c s2) with (String c s2).
    cbn [Js.includes Js.startsWith]. rewrite Ascii.eqb_refl. reflexivity.
  - change (String a s1 +:+ String c s2) with (String a (s1 +:+ String c s2)).
    cbn [Js.includes]. rewrite IH. apply orb_true_r.
Qed.

Lemma parseNumericField_digits (digits : string) :
  Js.allDigits digits = true → parseNumericField digits = Js.numberOfDigits digits.
Proof.
  intros H. unfold Js.allDigits in H. apply andb_prop in H as [Hne Hd].
  destruct digits as [| d digits]; [discriminate |].
  unfold parseNumericField, Js.numberOfDigits. cbn [Js.matchDigits].
  cbn [Js.allDigitsFrom] in Hd. apply andb_prop in Hd as [Hd1 _].
  rewrite Hd1. reflexivity.
Qed.

Lemma digits_trim (s : string) : Js.allDigits s = true → Js.trim s = s.
Proof.
  intros H. apply trim_no_space, digits_noneOf; [| exact H].
  apply digit_not_space.
Qed.

Lemma digits_clean (s : string) : Js.allDigits s = true → cleanField s.
Proof.
  intros H. split; [| apply digits_trim, H].
  apply digits_noneOf; [| exact H].
  intros a Ha. apply digit_not_char; [right; reflexivity | exact Ha].
Qed.

Lemma cpuStates_clean (allocated idle other total : string) :
  Js.allDigits allocated = true → Js.allDigits idle = true →
  Js.allDigits other = true → Js.allDigits total = true →
  cleanField (cpuStates allocated idle other total).
Proof.
  intros Ha Hi Ho Ht. unfold cpuStates.
  assert (Hbar : ∀ s, Js.allDigits s = true → noneOf isBar s = true).
  { intros s Hs. apply (digits_clean s Hs). }
  assert (Hsp : ∀ s, Js.allDigits s = true → noneOf Js.isSpace s = true).
  { intros s Hs. apply digits_noneOf; [apply digit_not_space | exact Hs]. }
  split.
  - unfold noneOf in *. rewrite !allChars_app.
    rewrite (Hbar _ Ha), (Hbar _ Hi), (Hbar _ Ho), (Hbar _ Ht). reflexivity.
  - apply trim_no_space. unfold noneOf in *. rewrite !allChars_app.
    rewrite (Hsp _ Ha), (Hsp _ Hi), (Hsp _ Ho), (Hsp _ Ht). reflexivity.
Qed.

Lemma cpuStates_last (allocated idle other total : string) :
  Js.allDigits allocated = true → Js.allDigits idle = true →
  Js.allDigits other = true → Js.allDigits total = true →
  Js.includes "/" (cpuStates allocated idle other total) = true
  ∧ last (Js.split "/" (cpuStates allocated idle other total)) = Some total.
Proof.
  intros Ha Hi Ho Ht. unfold cpuStates.
  assert (Hsl : ∀ s, Js.allDigits s = true →
                     noneOf (λ a, Ascii.eqb a "/") s = true).
  { intros s Hs. apply digits_noneOf; [| exact Hs].
    intros a Hd. apply digit_not_char; [left; reflexivity | exact Hd]. }
  split.
  - rewrite !append_char. apply (includes_infix "/").
  - rewrite !append_char.
    rewrite (split_sep_prefix "/" allocated _ (Hsl _ Ha)).
    rewrite (split_sep_prefix "/" idle _ (Hsl _ Hi)).
    rewrite (split_sep_prefix "/" other _ (Hsl _ Ho)).
    rewrite (split_sep_whole "/" total (Hsl _ Ht)). reflexivity.
Qed.

Lemma reportLine_fields (name field1 cpus mem gres : string) :
  cleanField name → cleanField field1 → cleanField cpus → cleanField mem →
  cleanField gres →
  Js.trim <$> Js.split "|" (reportLine name field1 cpus mem gres)
  = [name; field1; cpus; mem; gres].
Proof.
  intros [Hn1 Hn2] [Hf1 Hf2] [Hc1 Hc2] [Hm1 Hm2] [Hg1 Hg2]. unfold reportLine.
  rewrite !append_char.
  rewrite (split_sep_prefix "|" name _ Hn1).
  rewrite (split_sep_prefix "|" field1 _ Hf1).
  rewrite (split_sep_prefix "|" cpus _ Hc1).
  rewrite (split_sep_prefix "|" mem _ Hm1).
  rewrite (split_sep_whole "|" gres Hg1).
  cbn [fmap list_fmap]. rewrite Hn2, Hf2, Hc2, Hm2, Hg2. reflexivity.
Qed.

(** X24. What [parsePartitionInfoOutput] reads off one line
    [name|field1|allocated/idle/other/total|memory|gres]: the partition
    text is the first field, the processor count is the total, the last
    of the four numbers, and the memory is the number of the fourth
    field.  A second field made of digits is the
    node count and names no node; a second field that starts with another
    character names a node and counts none; an empty second field does
    neither. *)
Theorem parseLine_summary_row (name field1 allocated idle other total mem gres : string) :
  name ≠ EmptyString → cleanField name → cleanField field1 →
  Js.allDigits allocated = true → Js.allDigits idle = true →
  Js.allDigits other = true → Js.allDigits total = true →
  Js.allDigits mem = true → cleanField gres →
  ∃ row,
    parseLine (reportLine name field1 (cpuStates allocated idle other total) mem gres)
    = Some row
    ∧ row_rawName row = name
    ∧ row_cpus row = Js.numberOfDigits total
    ∧ row_memMb row = Js.numberOfDigits mem
    ∧ row_gres row = parseGresInfo gres
    ∧ (Js.allDigits field1 = true →
       row_nodeName row = None
       ∧ row_nodesCount row = Js.numberOfDigits field1)
    ∧ (∀ a rest, field1 = String a rest → Js.isDigit a = false →
       row_nodeName row = Some field1 ∧ row_nodesCount row = 0%N)
    ∧ (field1 = EmptyString →
       row_nodeName row = None ∧ row_nodesCount row = 0%N).
Proof.
  intros Hne Hname Hfield1 Ha Hi Ho Ht Hmem Hgres.
  pose proof (cpuStates_clean _ _ _ _ Ha Hi Ho Ht) as Hcpus.
  pose proof (cpuStates_last _ _ _ _ Ha Hi Ho Ht) as [Hinc Hlast].
  unfold parseLine.
  rewrite (reportLine_fields _ _ _ _ _ Hname Hfield1 Hcpus (digits_clean _ Hmem) Hgres).
  cbn [length Nat.ltb Nat.leb Js.at_or_empty lookup list_lookup default
       from_option id].
  destruct name as [| n name']; [contradiction |].
  cbn [Js.truthy negb]. rewrite Hinc, Hlast.
  cbn [default from_option id].
  eexists. split; [reflexivity |]. cbn [row_rawName row_cpus row_memMb row_gres
    row_nodeName row_nodesCount].
  split; [reflexivity |].
  split; [apply parseNumericField_digits, Ht |].
  split; [apply parseNumericField_digits, Hmem |].
  split; [reflexivity |].
  split; [| split].
  - intros Hd. pose proof Hd as Hd'.
    unfold Js.allDigits in Hd'. apply andb_prop in Hd' as [Hd1 Hd2].
    destruct field1 as [| a rest]; [discriminate |].
    cbn [Js.allDigitsFrom] in Hd2. apply andb_prop in Hd2 as [Hd2 _].
    rewrite Hd2. cbn [negb andb].
    split; [reflexivity | apply parseNumericField_digits, Hd].
  - intros a rest -> Hd. rewrite Hd. cbn [negb andb Js.truthy].
    split; reflexivity.
  - intros ->. split; reflexivity.
Qed.

Lemma parseLine_summary_row_witness :
  ∃ row,
    parseLine "gpu*|12|96/288/0/384|515000|gpu:a100:4(S:0-1)" = Some row
    ∧ row_rawName row = "gpu*"
    ∧ row_cpus row = 384%N
    ∧ row_memMb row = 515000%N
    ∧ row_nodeName row = None
    ∧ row_nodesCount row = 12%N.
Proof.
  destruct (parseLine_summary_row "gpu*" "12" "96" "288" "0" "384" "515000"
              "gpu:a100:4(S:0-1)")
    as (row & Hrow & Hname & Hcpus & Hmem & _ & Hcount & _);
    try (vm_compute; reflexivity); try discriminate;
    try (split; vm_compute; reflexivity).
  exists row. destruct (Hcount eq_refl) as [Hnode Hnodes].
  split; [exact Hrow |]. split; [exact Hname |].
  split; [exact Hcpus |]. split; [exact Hmem |].
  split; [exact Hnode | exact Hnodes].
Defined.

Lemma parseLine_None (line : string) :
  parseLine line = None ↔ hasRow line = false.
Proof.
  unfold parseLine, hasRow. rewrite length_fmap.
  assert (Hfirst : Js.at_or_empty (Js.trim <$> Js.split "|" line) 0
                   = Js.trim (Js.at_or_empty (Js.split "|" line) 0)).
  { unfold Js.at_or_empty. rewrite list_lookup_fmap.
    pose proof (split_nonempty "|" line) as Hlen.
    destruct (Js.split "|" line) as [| f fs]; [simpl in Hlen; lia | reflexivity]. }
  rewrite Hfirst.
  destruct (length (Js.split "|" line) <? 3)%nat eqn:Hlen.
  - apply Nat.ltb_lt in Hlen.
    replace (3 <=? length (Js.split "|" line))%nat with false
      by (symmetry; apply Nat.leb_gt; lia).
    split; reflexivity.
  - apply Nat.ltb_ge in Hlen.
    replace (3 <=? length (Js.split "|" line))%nat with true
      by (symmetry; apply Nat.leb_le; lia).
    destruct (Js.trim (Js.at_or_empty (Js.split "|" line) 0));
      cbn [Js.truthy negb andb]; split; first [reflexivity | discriminate].
Qed.

(** X25. The lines the parser skips are those with fewer than three
    fields (fewer than two bars) and those whose first field is blank;
    they leave no trace: the report without them is parsed to the same
    result. *)
Theorem skipped_lines_leave_no_trace (compare : string → string → Z)
    (lines : list string) :
  (∀ line, parseLine line = None
           ↔ (length (Js.split "|" line) < 3)%nat
             ∨ Js.trim (Js.at_or_empty (Js.split "|" line) 0) = EmptyString)
  ∧ parseLines compare (filter (λ line, Is_true (hasRow line)) lines)
    = parseLines compare lines.
Proof.
  split.
  - intros line. rewrite parseLine_None. unfold hasRow.
    rewrite andb_false_iff, Nat.leb_gt.
    destruct (Js.trim (Js.at_or_empty (Js.split "|" line) 0));
      cbn [Js.truthy]; split; intros [H | H];
      first [left; exact H | right; reflexivity | discriminate].
  - unfold parseLines. rewrite !foldl_processLine_rows.
    assert (Hrows : parsedRows (filter (λ line, Is_true (hasRow line)) lines)
                    = parsedRows lines).
    { unfold parsedRows. induction lines as [| l lines IH]; [reflexivity |].
      rewrite filter_cons. destruct (hasRow l) eqn:Hl.
      - rewrite decide_True by exact I. cbn [omap list_omap].
        rewrite IH. reflexivity.
      - rewrite decide_False by (intros []). cbn [omap list_omap].
        apply parseLine_None in Hl. rewrite Hl. exact IH. }
    rewrite Hrows. reflexivity.
Qed.

(** ** The list fields of the settings form *)






(** an entry with a blank inside does not survive: it is cut in two *)
Example list_field_splits_at_blanks :
  parseListInput (listField ["-o"; "ProxyCommand=ssh -W %h:%p gate"])
  = ["-o"; "ProxyCommand=ssh"; "-W"; "%h:%p"; "gate"].
Proof. vm_compute. reflexivity. Qed.


(** ** A request for cluster information *)


(** ** When a parsed report is meaningful *)

Lemma elem_of_rowsOf (n : string) (rows : list Row) (row : Row) :
  row ∈ rowsOf n rows ↔ row ∈ rows ∧ contributesTo row n = true.
Proof.
  unfold rowsOf. rewrite list_elem_of_filter. split.
  - intros [Hc Hin]. split; [exact Hin | apply Is_true_eq_true, Hc].
  - intros [Hin Hc]. split; [rewrite Hc; exact I | exact Hin].
Qed.

Lemma named_partition_exists compare output n row :
  row ∈ parsedRows (reportLines output) → contributesTo row n = true →
  ∃ p, p ∈ partitions (parsePartitionInfoOutput compare output) ∧ name p = n.
Proof.
  intros Hin Hc.
  assert (Hne : rowsOf n (parsedRows (reportLines output)) ≠ []).
  { intros Hnil.
    assert (Hrow : row ∈ rowsOf n (parsedRows (reportLines output)))
      by (apply elem_of_rowsOf; auto).
    rewrite Hnil in Hrow. apply elem_of_nil in Hrow. exact Hrow. }
  apply stateAfter_get_iff in Hne as [p0 Hget].
  assert (Hn : name (finalizeNodes
            (st_nodeSets (stateAfter (parsedRows (reportLines output))))
            (n, p0)) = n).
  { rewrite finalizeNodes_name. cbn [snd].
    destruct (stateAfter_wellKeyed (parsedRows (reportLines output)))
      as [_ Hname].
    apply Hname, mapGet_Some_elem_of, Hget. }
  eexists. split; [| exact Hn].
  apply elem_of_partitions. rewrite Hn. eauto.
Qed.

Lemma partition_largest compare output p :
  p ∈ partitions (parsePartitionInfoOutput compare output) →
  let rs := rowsOf (name p) (parsedRows (reportLines output)) in
  let largest (f : Row → N) (v : N) :=
    (∀ row, row ∈ rs → (f row ≤ v)%N) ∧ (∃ row, row ∈ rs ∧ f row = v) in
  largest row_cpus (cpus p)
  ∧ largest row_memMb (memMb p)
  ∧ largest (λ row, gres_gpuMax (row_gres row)) (gpuMax p).
Proof.
  intros Hp rs largest. subst largest.
  destruct (partition_record _ _ _ Hp) as (p0 & Hp0 & Hfin). fold rs in Hp0.
  destruct (finalizeNodes_fields
              (st_nodeSets (stateAfter (parsedRows (reportLines output))))
              (name p) p0) as (_ & Hc & Hm & Hg & _).
  cbn zeta in Hc, Hm, Hg. rewrite <- Hfin in Hc, Hm, Hg.
  destruct (mergedAll_maxima _ _ _ Hp0) as (_ & Hcpus & Hmem & Hgpu).
  rewrite Hc, Hm, Hg. auto.
Qed.

(** X29. A parsed report is meaningful, in the sense of
    [hasMeaningfulClusterInfo], exactly when one of its accepted lines
    names a partition and carries a processor count, a memory size or a
    GPU count above 0; node counts and node names alone never make it
    so. *)
Theorem parsed_report_is_meaningful (compare : string → string → Z)
    (output : string) :
  hasMeaningfulClusterInfo (parsePartitionInfoOutput compare output) = true
  ↔ ∃ row n,
      row ∈ parsedRows (reportLines output)
      ∧ contributesTo row n = true
      ∧ hasFigure row.
Proof.
  assert (Hmean : ∀ info,
            hasMeaningfulClusterInfo info = true
            ↔ ∃ p, p ∈ partitions info
                   ∧ (0 < cpus p ∨ 0 < memMb p ∨ 0 < gpuMax p)%N).
  { intros info. unfold hasMeaningfulClusterInfo.
    assert (Hex : existsb (λ partition,
                     (0 <? cpus partition)%N || (0 <? memMb partition)%N
                     || (0 <? gpuMax partition)%N) (partitions info) = true
                  ↔ ∃ p, p ∈ partitions info
                         ∧ (0 < cpus p ∨ 0 < memMb p ∨ 0 < gpuMax p)%N).
    { rewrite existsb_exists. split.
      - intros (p & Hin & Hp). exists p. split; [apply list_elem_of_In, Hin |].
        rewrite !orb_true_iff, !N.ltb_lt in Hp. tauto.
      - intros (p & Hin & Hp). exists p. split; [apply list_elem_of_In, Hin |].
        rewrite !orb_true_iff, !N.ltb_lt. tauto. }
    destruct (partitions info) as [| q qs] eqn:Hps; [| exact Hex].
    split; [discriminate |].
    intros (p & Hin & _). apply elem_of_nil in Hin. contradiction. }
  rewrite Hmean. unfold hasFigure. split.
  - intros (p & Hp & Hfig).
    destruct (partition_largest _ _ _ Hp)
      as ((_ & rc & Hrc & Hc) & (_ & rm & Hrm & Hm) & (_ & rg & Hrg & Hg)).
    apply elem_of_rowsOf in Hrc as [Hrc1 Hrc2].
    apply elem_of_rowsOf in Hrm as [Hrm1 Hrm2].
    apply elem_of_rowsOf in Hrg as [Hrg1 Hrg2].
    destruct Hfig as [Hfig | [Hfig | Hfig]].
    + exists rc, (name p). rewrite Hc. auto.
    + exists rm, (name p). rewrite Hm. auto.
    + exists rg, (name p). rewrite Hg. auto.
  - intros (row & n & Hin & Hc & Hfig).
    destruct (named_partition_exists compare output n row Hin Hc)
      as (p & Hp & Hn).
    exists p. split; [exact Hp |].
    destruct (partition_largest _ _ _ Hp) as ((Hcpus & _) & (Hmem & _) & (Hgpu & _)).
    assert (Hrow : row ∈ rowsOf (name p) (parsedRows (reportLines output)))
      by (apply elem_of_rowsOf; rewrite Hn; auto).
    specialize (Hcpus _ Hrow). specialize (Hmem _ Hrow).
    specialize (Hgpu _ Hrow). cbn beta in Hgpu. lia.
Qed.

(** a report of node counts only is not meaningful *)
Example counts_alone_are_not_meaningful :
  hasMeaningfulClusterInfo
    (parsePartitionInfoOutput codeUnitCompare
       ("gpu*|12|0|0|(null)" +:+ newline +:+ "cpu|40|0|0|(null)"))
  = false.
Proof. vm_compute. reflexivity. Qed.

(** ** The GPU figures of a descriptor *)

Lemma foldl_gresUpdate_gpuMax tokens : ∀ r,
  gres_gpuMax (foldl gresUpdate r tokens)
  = N.max (gres_gpuMax r)
          (foldr N.max 0%N (snd <$> omap parseGresToken tokens)).
Proof.
  induction tokens as [| t ts IH]; intros r.
  - cbn. lia.
  - cbn [foldl omap list_omap]. rewrite IH. unfold gresUpdate.
    destruct (parseGresToken t) as [[key count] |];
      cbn [gres_gpuMax fmap list_fmap foldr snd]; lia.
Qed.

(** X30. For a GRES descriptor none of whose type labels is the name of
    a member of [Object.prototype], the [gpuMax] returned by
    [parseGresInfo] is the largest value of the returned [gpuTypes]:
    every entry is a positive count at most [gpuMax], [gpuMax] is itself
    one of the entries whenever the dictionary is not empty, and it is 0
    exactly when the dictionary is empty. *)
Theorem gres_gpuMax_is_max_of_plain_gpuTypes (raw : string) :
  forallb (λ label, negb (inheritedName label)) (gresLabels raw) = true →
  let r := parseGresInfo raw in
  maxValue (gres_gpuTypes r) = Count (gres_gpuMax r)
  ∧ (∀ k v, gres_gpuTypes r !! k = Some v →
       ∃ n, v = Count n ∧ (0 < n ≤ gres_gpuMax r)%N)
  ∧ (gres_gpuTypes r ≠ ∅ →
     ∃ k, gres_gpuTypes r !! k = Some (Count (gres_gpuMax r)))
  ∧ (gres_gpuMax r = 0%N ↔ gres_gpuTypes r = ∅).
Proof.
  intros Hplain r.
  destruct (parseGresInfo_invariant raw) as [Hbound Hwit].
  { rewrite forallb_forall in Hplain. intros label Hin.
    apply negb_true_iff, Hplain, list_elem_of_In, Hin. }
  fold r in Hbound, Hwit.
  assert (Hcount : ∀ k v, gres_gpuTypes r !! k = Some v →
            ∃ n, v = Count n ∧ (0 < n ≤ gres_gpuMax r)%N).
  { intros k v Hv. apply (Hbound _ _ Hv). }
  split; [| split; [exact Hcount | split; [| split]]].
  - apply maxValue_unique; [| exact Hwit].
    intros k v Hv. destruct (Hcount _ _ Hv) as (n & -> & Hn).
    exists n. split; [reflexivity | lia].
  - intros Hne. destruct Hwit as [[He _] | Hk]; [contradiction | assumption].
  - intros H0. destruct Hwit as [[He _] | [k Hk]]; [assumption |].
    destruct (Hcount _ _ Hk) as (n & [= <-] & Hn). lia.
  - intros He. destruct Hwit as [[_ H0] | [k Hk]]; [assumption |].
    rewrite He, lookup_empty in Hk. discriminate.
Qed.

Lemma gres_gpuMax_is_max_of_plain_gpuTypes_witness :
  maxValue
    (gres_gpuTypes
       (parseGresInfo "gpu:v100:2,gpu:a100:8(S:0),mps:100,gpu:a100:4"))
  = Count
      (gres_gpuMax
         (parseGresInfo "gpu:v100:2,gpu:a100:8(S:0),mps:100,gpu:a100:4")).
Proof.
  apply (gres_gpuMax_is_max_of_plain_gpuTypes
           "gpu:v100:2,gpu:a100:8(S:0),mps:100,gpu:a100:4").
  vm_compute. reflexivity.
Defined.

Lemma foldl_gresUpdate_proto tokens : ∀ r,
  gres_gpuTypes r !! "__proto__" = None →
  gres_gpuTypes (foldl gresUpdate r tokens) !! "__proto__" = None.
Proof.
  induction tokens as [| t ts IH]; intros r Hr; [exact Hr |].
  cbn [foldl]. apply IH. unfold gresUpdate.
  destruct (parseGresToken t) as [[key count] |]; [| exact Hr].
  cbn [gres_gpuTypes]. rewrite setMember_lookup. case_decide as Hk; [| exact Hr].
  subst key. rewrite Hr. reflexivity.
Qed.

(** X31. Whatever the type labels of a GRES descriptor are, the [gpuMax]
    returned by [parseGresInfo] is the largest count among its tokens (0
    when no token carries a count), and every entry of [gpuTypes] is
    either a positive count at most [gpuMax] or [NaN], the latter only
    under the name of a function of [Object.prototype]; nothing is ever
    stored under [__proto__]. *)
Theorem gres_entries_are_bounded (raw : string) :
  let r := parseGresInfo raw in
  gres_gpuMax r
  = foldr N.max 0%N (snd <$> omap parseGresToken (gresTokens raw))
  ∧ (∀ k v, gres_gpuTypes r !! k = Some v →
       (v = NaN ∧ k ∈ objectPrototypeFunctions)
       ∨ ∃ n, v = Count n ∧ (0 < n ≤ gres_gpuMax r)%N)
  ∧ gres_gpuTypes r !! "__proto__" = None.
Proof.
  intros r.
  assert (Hnone : gres_gpuTypes r !! "__proto__" = None).
  { subst r. unfold parseGresInfo.
    destruct (negb (Js.truthy raw)); [apply lookup_empty |].
    apply foldl_gresUpdate_proto, lookup_empty. }
  split; [| split; [| exact Hnone]].
  - subst r. unfold parseGresInfo.
    destruct raw as [| a raw']; [reflexivity |]. cbn [Js.truthy negb].
    rewrite foldl_gresUpdate_gpuMax. cbn [gres_gpuMax]. lia.
  - intros k v Hv.
    destruct (parseGresInfo_bounded raw k v Hv) as [[-> Hinh] | Hcount];
      [left | right; exact Hcount].
    split; [reflexivity |]. unfold inheritedName in Hinh.
    apply orb_true_iff in Hinh as [Hp | Hf].
    + apply String.eqb_eq in Hp. subst k. rewrite Hnone in Hv. discriminate.
    + apply existsb_exists in Hf as (f & Hin & Heq).
      apply String.eqb_eq in Heq. subst f. apply list_elem_of_In, Hin.
Qed.
